(** * face_flow: the publish pipeline of [post_content.py]

    A shallow embedding of the parts of [post_content.py] that decide the
    behaviour of the content selector, the history ledger, the secret
    store, the editor resolution loop, the multi-line typing routine and
    the publish workflow, together with the theorems that settle the
    specification's statements about them.

    Conventions.
    - A Python [str] is a Rocq [string], one [ascii] per code point (code
      points below 256).
    - A value produced by [json.loads] is a [json]; a Python [dict] with
      string keys is a [gmap string json].
    - A Python call that may raise returns a [res]: [Ok v] or [Raise e].
    - Library functions that are not part of the repository (the JSON
      codec, [html.unescape], base64, PBKDF2, AES-GCM, [urlparse], the
      Selenium driver) are section variables. *)

From stdpp Require Import gmap strings list.
From Stdlib Require Import ZArith Ascii String Lia DecimalString.

Open Scope string_scope.
Open Scope list_scope.

(* ================================================================== *)
(** ** Exceptions and results *)

(** The exception classes that occur in [post_content.py], either raised
    by it or named in one of its [except] clauses, and the library
    exceptions that reach it. *)
Inductive exn_class : Type :=
| AttributeError
| TypeError
| KeyError
| ValueError
| RuntimeError
| FileNotFoundError
| FileExistsError
| UnboundLocalError
| UnicodeDecodeError
| JSONDecodeError
| BinasciiError
| InvalidTag
| URLError
| HTTPError
| WebDriverException
| TimeoutException
| NoSuchElementException
| StaleElementReferenceException
| ElementClickInterceptedException
| ElementNotInteractableException
| InvalidArgumentException.

Global Instance exn_class_eq_dec : EqDecision exn_class.
Proof. solve_decision. Defined.

(** An exception object: its class and the text [str(e)]. *)
Record exn : Type := Exn { exn_cls : exn_class; exn_text : string }.

Global Instance exn_eq_dec : EqDecision exn.
Proof. solve_decision. Defined.

(** [isinstance(e, c)] for the classes above: [HTTPError] derives from
    [URLError], [JSONDecodeError] and [UnicodeDecodeError] from
    [ValueError], [FileNotFoundError] from nothing modelled here, and every
    Selenium exception from [WebDriverException]. *)
Definition subclass (c parent : exn_class) : bool :=
  bool_decide (c = parent) ||
  match c, parent with
  | HTTPError, URLError => true
  | JSONDecodeError, ValueError => true
  | UnicodeDecodeError, ValueError => true
  | BinasciiError, ValueError => true
  | (TimeoutException | NoSuchElementException
     | StaleElementReferenceException | ElementClickInterceptedException
     | ElementNotInteractableException | InvalidArgumentException),
    WebDriverException => true
  | _, _ => false
  end.

Definition isinstance (e : exn) (parents : list exn_class) : bool :=
  existsb (subclass (exn_cls e)) parents.

Inductive res (A : Type) : Type :=
| Ok (a : A)
| Raise (e : exn).
Arguments Ok {A} a.
Arguments Raise {A} e.

Global Instance res_ret : MRet res := λ A a, Ok a.
Global Instance res_bind : MBind res :=
  λ A B f m, match m with Ok a => f a | Raise e => Raise e end.

(** [[f(x) for x in l]] where [f] may raise: the first exception wins. *)
Fixpoint map_res {A B : Type} (f : A → res B) (l : list A) : res (list B) :=
  match l with
  | [] => Ok []
  | x :: rest => y ← f x; ys ← map_res f rest; Ok (y :: ys)
  end.

(* ================================================================== *)
(** ** Strings *)

(** [str.isspace] on one code point below 256: the characters
    U+0009..U+000D, U+001C..U+0020, U+0085 and U+00A0. *)
Definition isspace (c : ascii) : bool :=
  let n := N_of_ascii c in
  ((9 <=? n) && (n <=? 13) || (28 <=? n) && (n <=? 32)
   || (n =? 133) || (n =? 160))%N.

Fixpoint lstrip (s : string) : string :=
  match s with
  | EmptyString => EmptyString
  | String c rest => if isspace c then lstrip rest else s
  end.

Fixpoint rstrip (s : string) : string :=
  match s with
  | EmptyString => EmptyString
  | String c rest =>
      match rstrip rest with
      | EmptyString => if isspace c then EmptyString else String c EmptyString
      | kept => String c kept
      end
  end.

(** [s.strip()] with no argument. *)
Definition strip (s : string) : string := rstrip (lstrip s).

(** Truthiness of a [str]: non-empty. *)
Definition nonempty (s : string) : bool :=
  match s with EmptyString => false | _ => true end.

(** [needle in haystack] for two [str]. *)
Fixpoint contains (needle haystack : string) : bool :=
  String.prefix needle haystack
  || match haystack with
     | EmptyString => false
     | String _ rest => contains needle rest
     end.

(** [separator.join(parts)]. *)
Fixpoint join (separator : string) (parts : list string) : string :=
  match parts with
  | [] => EmptyString
  | [part] => part
  | part :: rest => part +:+ separator +:+ join separator rest
  end.

Definition newline : string := String "010" EmptyString.

(** The double quote cannot be written inside the literals of this file:
    [dq s] is [s] with every backquote replaced by a double quote, and
    the constants of the program that hold double quotes are written
    with backquotes under [dq]. *)
Fixpoint dq (s : string) : string :=
  match s with
  | EmptyString => EmptyString
  | String c rest => String (if Ascii.eqb c "`" then "034"%char else c) (dq rest)
  end.

(* ================================================================== *)
(** ** JSON values *)

(** What [json.loads] returns: [None], [bool], [int], [float] (a float is
    kept as its [repr], which identifies it), [str], [list] and [dict]. *)
#[warnings="-register-all"]
Inductive json : Type :=
| JNull
| JBool (b : bool)
| JInt (z : Z)
| JFloat (repr : string)
| JStr (s : string)
| JList (l : list json)
| JDict (d : gmap string json).

Definition is_dict (v : json) : bool :=
  match v with JDict _ => true | _ => false end.

Definition attribute_error (what : string) : exn :=
  Exn AttributeError what.

(** [v.get(key, "").strip()]: [v] has to be a [dict] to have [get], and
    the value found has to be a [str] to have [strip]. *)
Definition get_stripped (key : string) (v : json) : res string :=
  match v with
  | JDict d =>
      match default (JStr "") (d !! key) with
      | JStr s => Ok (strip s)
      | _ => Raise (attribute_error "object has no attribute 'strip'")
      end
  | _ => Raise (attribute_error "object has no attribute 'get'")
  end.

(* ================================================================== *)
(** ** Content selector *)

(** The loop of [find_next_content_item]. *)
Fixpoint scan_content_items (posted_descriptions : gset string)
    (content_items : list json) : res (option json) :=
  match content_items with
  | [] => Ok None
  | item :: rest =>
      description ← get_stripped "description" item;
      if nonempty description
         && negb (bool_decide (description ∈ posted_descriptions))
      then Ok (Some item)
      else scan_content_items posted_descriptions rest
  end.

Definition find_next_content_item (content_items posted_history : list json)
  : res (option json) :=
  descriptions ← map_res (get_stripped "description") posted_history;
  scan_content_items (list_to_set descriptions) content_items.

(** [has_been_posted(history, description)]. *)
Definition has_been_posted (history : list json) (description : string)
  : res bool :=
  let normalized := strip description in
  (fix any (l : list json) : res bool :=
     match l with
     | [] => Ok false
     | entry :: rest =>
         d ← get_stripped "description" entry;
         if bool_decide (d = normalized) then Ok true else any rest
     end) history.

(** The stripped description of a feed item or history entry. *)
Definition described (v : json) (d : string) : Prop :=
  get_stripped "description" v = Ok d.

(** [d] is the stripped description of some entry of [history]. *)
Definition posted (history : list json) (d : string) : Prop :=
  ∃ entry, entry ∈ history ∧ described entry d.

(** An item the scan passes over: its stripped description is empty or
    already in the history. *)
Definition skipped (history : list json) (item : json) : Prop :=
  ∃ d, described item d ∧ (d = "" ∨ posted history d).


(* ================================================================== *)
(** ** HTML to plain-text lines *)

(** ASCII lower-casing, which is all [re.IGNORECASE] does to the
    characters of the patterns used here. *)
Definition ascii_lower (c : ascii) : ascii :=
  let n := N_of_ascii c in
  if ((65 <=? n) && (n <=? 90))%N then ascii_of_N (n + 32) else c.

Definition eqb_nocase (a b : ascii) : bool :=
  Ascii.eqb (ascii_lower a) (ascii_lower b).


(** The literal [pattern] matched, ignoring case, at the start of [s]:
    the rest of [s] after it. *)
Fixpoint match_literal (pattern s : string) : option string :=
  match pattern, s with
  | EmptyString, _ => Some s
  | String p pattern', String c s' =>
      if eqb_nocase p c then match_literal pattern' s' else None
  | String _ _, EmptyString => None
  end.

(** [(.*?)</p>] at the start of [s] under [re.DOTALL]: the shortest
    prefix that is followed by the closing tag, and what follows the
    tag. *)
Fixpoint match_until_close (s : string) : option (string * string) :=
  match match_literal "</p>" s with
  | Some rest => Some (EmptyString, rest)
  | None =>
      match s with
      | EmptyString => None
      | String c s' =>
          '(inner, rest) ← match_until_close s'; Some (String c inner, rest)
      end
  end.

(** [<p>(.*?)</p>] at the start of [s]: the group, and the length of the
    whole match. *)
Definition match_paragraph (s : string) : option (string * nat) :=
  body ← match_literal "<p>" s;
  '(inner, _) ← match_until_close body;
  Some (inner, 3 + String.length inner + 4).

(** [re.findall(r"<p>(.*?)</p>", s, re.DOTALL | re.IGNORECASE)]: scan
    from the left, a match is tried at every position that does not
    belong to the previous match ([skip] counts the characters of the
    previous match that are still ahead). *)
Fixpoint findall_paragraphs_from (skip : nat) (s : string) : list string :=
  match s with
  | EmptyString => []
  | String _ rest =>
      match skip with
      | S k => findall_paragraphs_from k rest
      | O =>
          match match_paragraph s with
          | Some (inner, len) =>
              inner :: findall_paragraphs_from (len - 1) rest
          | None => findall_paragraphs_from 0 rest
          end
      end
  end.

Definition findall_paragraphs (s : string) : list string :=
  findall_paragraphs_from 0 s.

(** [[^>]*>] at the start of [s]: the number of characters matched. *)
Fixpoint match_tag_rest (s : string) : option nat :=
  match s with
  | EmptyString => None
  | String c rest =>
      if Ascii.eqb c ">" then Some 1 else S <$> match_tag_rest rest
  end.

(** [<[^>]+>] at the start of [s]: the length of the match. *)
Definition match_tag (s : string) : option nat :=
  match s with
  | String "<" (String c rest) =>
      if Ascii.eqb c ">" then None else (λ n, 2 + n) <$> match_tag_rest rest
  | _ => None
  end.

(** [re.sub(r"<[^>]+>", "", s)], scanning as [findall_paragraphs_from]
    does. *)
Fixpoint remove_tags_from (skip : nat) (s : string) : string :=
  match s with
  | EmptyString => EmptyString
  | String c rest =>
      match skip with
      | S k => remove_tags_from k rest
      | O =>
          match match_tag s with
          | Some len => remove_tags_from (len - 1) rest
          | None => String c (remove_tags_from 0 rest)
          end
      end
  end.

Definition remove_tags (s : string) : string := remove_tags_from 0 s.

(** [html.unescape] of the Python standard library. *)
Class HtmlLib : Type := { unescape : string → string }.

(** [unescape(re.sub(r"<[^>]+>", "", fragment)).strip()]. *)
Definition clean_fragment `{HtmlLib} (fragment : string) : string :=
  strip (unescape (remove_tags fragment)).

Definition strip_html_paragraphs `{HtmlLib} (html_text : string)
  : list string :=
  match findall_paragraphs html_text with
  | [] => if nonempty html_text then [clean_fragment html_text] else []
  | paragraphs =>
      filter (λ clean, nonempty clean = true) (clean_fragment <$> paragraphs)
  end.



(* ================================================================== *)
(** ** Bytes and files *)

(** A Python [bytes] object: either the UTF-8 encoding of a text, given
    by that text, or bytes that do not decode as UTF-8, given raw. *)
Inductive bytes : Type :=
| Utf8 (text : string)
| NotUtf8 (raw : list N).

(** [b.decode("utf-8")]. *)
Definition decode_utf8 (b : bytes) : res string :=
  match b with
  | Utf8 text => Ok text
  | NotUtf8 _ =>
      Raise (Exn UnicodeDecodeError "'utf-8' codec can't decode byte")
  end.

(** The regular files of the run, by path, each with the bytes it holds.
    A directory is there when a file lies under it; a directory that
    holds nothing is not recorded. There are no links, and no operation
    fails for want of a permission. *)
Abbreviation files := (gmap string bytes).

Definition COOKIES_FILE : string := "cookies.json.encrypted".
Definition TEMP_DIR : string := "temp".
Definition POSTED_HISTORY_FILE : string := "posted_content.json".
Definition CONTENT_FILENAME : string := "content.json".

(** [directory / name]. *)
Definition path_join (directory name : string) : string :=
  directory +:+ "/" +:+ name.

(** [path.read_text(encoding="utf-8")] of an existing file. *)
Definition read_text (c : bytes) : res string := decode_utf8 c.

(** [path.write_text(text, encoding="utf-8")]. *)
Definition write_text (path text : string) (fs : files) : files :=
  <[path := Utf8 text]> fs.

(** [path] lies under [directory]. *)
Definition lies_under (directory path : string) : bool :=
  String.prefix (directory +:+ "/") path.

(** [path.mkdir(parents=True, exist_ok=True)] for a path whose parent is
    a directory: a [FileExistsError] when [path] is a regular file;
    otherwise the directory is there or is made, and no file changes. *)
Definition mkdir (path : string) (fs : files) : res files :=
  match fs !! path with
  | Some _ =>
      Raise (Exn FileExistsError
               ("[Errno 17] File exists: '" +:+ path +:+ "'"))
  | None => Ok fs
  end.

(** [s] without the [prefix] it starts with. *)
Fixpoint after_prefix (prefix s : string) : option string :=
  match prefix, s with
  | EmptyString, _ => Some s
  | String p prefix', String c s' =>
      if Ascii.eqb p c then after_prefix prefix' s' else None
  | String _ _, EmptyString => None
  end.

(** The first component of a relative path. *)
Fixpoint first_component (s : string) : string :=
  match s with
  | EmptyString => EmptyString
  | String c rest =>
      if Ascii.eqb c "/" then EmptyString else String c (first_component rest)
  end.

(** The entry of [directory] that the file at [path] is, or lies in. *)
Definition entry_of (directory path : string) : option string :=
  rest ← after_prefix (directory +:+ "/") path;
  Some (path_join directory (first_component rest)).

(** [directory.iterdir()]: the files and directories right under
    [directory], each once, in the order the map lists its files (the
    order of [iterdir] is not specified). *)
Definition iterdir (directory : string) (fs : files) : list string :=
  remove_dups (omap (λ file, entry_of directory file.1) (map_to_list fs)).

(** [path.is_dir()]. *)
Definition is_dir (path : string) (fs : files) : bool :=
  existsb (λ file, lies_under path file.1) (map_to_list fs).

(** [shutil.rmtree(path)]: [path] goes, with all that lies under it. *)
Definition rmtree (path : string) (fs : files) : files :=
  filter (λ file, file.1 ≠ path ∧ lies_under path file.1 = false) fs.

(** [path.unlink()]. *)
Definition unlink (path : string) (fs : files) : files := delete path fs.

(** The loop of [ensure_temp_dir] over the entries of the directory. *)
Fixpoint remove_entries (entries : list string) (fs : files) : files :=
  match entries with
  | [] => fs
  | entry :: rest =>
      remove_entries rest
        (if is_dir entry fs then rmtree entry fs else unlink entry fs)
  end.

(* ================================================================== *)
(** ** The JSON codec and [str] of the standard library *)

Class JsonLib : Type := {
  (** [json.loads]; [None] stands for [json.JSONDecodeError]. *)
  json_loads : string → option json;
  (** [json.dumps(v, ensure_ascii=False, indent=2)]. *)
  json_dumps : json → string;
  (** [repr] of a number, a list or a dict. *)
  py_repr : json → string;
  (** [int(s)] of a [str] and [int(x)] of a [float] given by its
      [repr]. *)
  int_of_str : string → res Z;
  int_of_float : string → res Z
}.

(** [str(v)]. *)
Definition py_str `{JsonLib} (v : json) : string :=
  match v with
  | JStr s => s
  | JNull => "None"
  | JBool true => "True"
  | JBool false => "False"
  | _ => py_repr v
  end.

(** [int(v)]. *)
Definition py_int `{JsonLib} (v : json) : res Z :=
  match v with
  | JInt z => Ok z
  | JBool b => Ok (if b then 1 else 0)%Z
  | JStr s => int_of_str s
  | JFloat repr => int_of_float repr
  | _ =>
      Raise (Exn TypeError
               "int() argument must be a string or a real number")
  end.

(** Truthiness of a value. *)
Definition truthy (v : json) : bool :=
  match v with
  | JNull => false
  | JBool b => b
  | JInt z => negb (z =? 0)%Z
  | JFloat repr => negb (String.eqb repr "0.0" || String.eqb repr "-0.0")
  | JStr s => nonempty s
  | JList l => match l with [] => false | _ => true end
  | JDict d => negb (bool_decide (d = ∅))
  end.

(* ================================================================== *)
(** ** History ledger *)

(** The dict [{"title": title, "description": description, "image": image}]. *)
Definition history_entry (title description image : string) : json :=
  JDict (<["title" := JStr title]>
         (<["description" := JStr description]>
          (<["image" := JStr image]> ∅))).

(** The entry built for one item of the legacy structure. *)
Definition legacy_entry `{JsonLib} (item : json) : json :=
  history_entry "" (strip (py_str item)) "".

Definition load_post_history `{JsonLib} (fs : files) (history_file : string)
  : res (list json) :=
  match fs !! history_file with
  | None => Ok []
  | Some c =>
      text ← read_text c;
      match json_loads text with
      | None => Ok []
      | Some (JList data) => Ok (filter (λ entry, is_dict entry = true) data)
      | Some (JDict data) =>
          match data !! "descriptions" with
          | Some (JList descriptions) => Ok (legacy_entry <$> descriptions)
          | _ => Ok []
          end
      | Some _ => Ok []
      end
  end.

Definition append_post_history `{JsonLib} (fs : files) (history_file : string)
    (entry : json) : res files :=
  history ← load_post_history fs history_file;
  let new_history := entry :: history in
  Ok (write_text history_file (json_dumps (JList new_history)) fs).

(* ================================================================== *)
(** ** Secret store *)

(** [base64.b64decode], PBKDF2-HMAC-SHA256 and AES-GCM of the
    [cryptography] package. *)
Class CryptoLib : Type := {
  (** [base64.b64decode(s)] of a [str]. *)
  b64decode : string → res bytes;
  (** [PBKDF2HMAC(SHA256(), length, salt, iterations).derive(password)]. *)
  pbkdf2_hmac_sha256 :
    ∀ (length : N) (salt : bytes) (iterations : N) (password : bytes), bytes;
  (** [AESGCM(key).decrypt(nonce, ciphertext, None)]; a rejected tag is
      [Raise] of an [InvalidTag]. *)
  aesgcm_decrypt : ∀ (key nonce ciphertext : bytes), res bytes
}.

Definition PBKDF2_ITERATIONS : N := 200000.

Section SecretStore.
Context `{JsonLib} `{CryptoLib}.

Definition _derive_key (password : string) (salt : bytes) : bytes :=
  pbkdf2_hmac_sha256 32 salt PBKDF2_ITERATIONS (Utf8 password).

(** [base64.b64decode(payload[key])] inside the [try] of
    [_decrypt_payload]: a missing key is the [KeyError] that the handler
    turns into a [ValueError]; a value that is not a [str] is a
    [TypeError] of [b64decode]. *)
Definition payload_field (payload : gmap string json) (key : string)
  : res bytes :=
  match payload !! key with
  | None =>
      Raise (Exn ValueError
               "Encrypted cookies payload is missing required fields")
  | Some (JStr s) => b64decode s
  | Some _ =>
      Raise (Exn TypeError
               "argument should be a bytes-like object or ASCII string")
  end.

Definition _decrypt_payload (payload : gmap string json) (password : string)
  : res bytes :=
  salt ← payload_field payload "s";
  nonce ← payload_field payload "n";
  ciphertext ← payload_field payload "ct";
  let key := _derive_key password salt in
  aesgcm_decrypt key nonce ciphertext.

(** [load_cookies(file_path)]; [environ] is the process environment
    after [load_dotenv()]. *)
Definition load_cookies (fs : files) (environ : gmap string string)
    (file_path : string) : res (list json) :=
  match fs !! file_path with
  | None =>
      Raise (Exn FileNotFoundError ("Cookies file not found: " +:+ file_path))
  | Some c =>
      match environ !! "DECRYPT_KEY" with
      | None | Some EmptyString =>
          Raise (Exn RuntimeError "DECRYPT_KEY is missing in environment/.env")
      | Some password =>
          text ← read_text c;
          match json_loads text with
          | None => Raise (Exn JSONDecodeError "Expecting value")
          | Some (JDict payload) =>
              plaintext ← _decrypt_payload payload password;
              decoded ← decode_utf8 plaintext;
              match json_loads decoded with
              | None => Raise (Exn JSONDecodeError "Expecting value")
              | Some (JList cookies) => Ok cookies
              | Some _ =>
                  Raise (Exn ValueError
                           "Cookies file must contain a list of cookie objects")
              end
          | Some _ =>
              Raise (Exn ValueError
                  "Encrypted cookies file must contain a JSON object payload")
          end
      end
  end.

(** The blob [{s, n, ct}] read by [_decrypt_payload]. *)
Definition blob_of (payload : gmap string json) (salt nonce ciphertext : bytes)
  : Prop :=
  payload_field payload "s" = Ok salt
  ∧ payload_field payload "n" = Ok nonce
  ∧ payload_field payload "ct" = Ok ciphertext.

End SecretStore.

(* ================================================================== *)
(** ** The browser driver and the run state *)

(** [By.CSS_SELECTOR] and [By.XPATH]. *)
Inductive By : Type := CSS_SELECTOR | XPATH.

Definition locator : Type := By * string.

(** A [WebElement], by its id. *)
Definition element : Type := nat.

(** The members of [Keys] that the program sends. *)
Inductive key : Type := CONTROL | DELETE | SHIFT | ENTER.

(** One argument of [send_keys]: a special key or a text. *)
Inductive keys_arg : Type :=
| Key (k : key)
| Chars (text : string).

(** The expected conditions that locate an element:
    [presence_of_element_located], [visibility_of_element_located] and
    [element_to_be_clickable]. *)
Inductive expected : Type := Presence | Visibility | Clickable.

(** The calls into Selenium, [webdriver_manager] and [urllib], each with
    the type of what it returns. Time is in milliseconds. *)
Inductive request : Type → Type :=
| InstallChromeDriver : request string
| StartChrome (executable : string) (arguments : list string)
    (prefs : list (string * Z)) : request unit
| MaximizeWindow : request unit
| Get (url : string) : request unit
| Refresh : request unit
| PageSource : request string
| DeleteAllCookies : request unit
| AddCookie (cookie : gmap string json) : request unit
| FindElements (l : locator) : request (list element)
| ExecuteScript (script : string) (argument : element) : request json
| Quit : request unit
| WaitElement (timeout : Z) (condition : expected) (l : locator)
  : request element
| WaitText (timeout : Z) (l : locator) (text : string) : request unit
| WaitAnyFound (timeout : Z) (ls : list locator) : request unit
| Click (e : element) : request unit
| SendKeys (e : element) (value : list keys_arg) : request unit
| Text (e : element) : request string
| FindElementIn (e : element) (l : locator) : request element
| FindElementsIn (e : element) (l : locator) : request (list element)
| IsDisplayed (e : element) : request bool
| IsEnabled (e : element) : request bool
| UrlOpenRead (url : string) : request bytes.

(** What the outside world does with a request, and the clock.
    [time_time] is [time.time()] and [time_sleep] is [time.sleep], both in
    milliseconds. *)
Class Driver (world : Type) : Type := {
  perform : ∀ {A : Type}, request A → world → res A * world;
  time_time : world → Z;
  time_sleep : Z → world → world
}.

(** What a run leaves behind, newest first in [st_log]. *)
Inductive event : Type :=
| Performed {A : Type} (r : request A) (outcome : res A)
| Slept (ms : Z)
| Wrote (path : string)
| Cleaned (directory : string).

Record state (world : Type) : Type := State {
  st_world : world;
  st_files : files;
  st_log : list event
}.
Arguments State {world} _ _ _.
Arguments st_world {world} _.
Arguments st_files {world} _.
Arguments st_log {world} _.

(** The events of a run in the order they happened. *)
Definition trace {world : Type} (s : state world) : list event :=
  rev (st_log s).

(** A program: from a state to its result and the state it leaves, or
    [None] when a loop has run out of the fuel it was given. *)
Definition M (world A : Type) : Type :=
  state world → option (res A * state world).

Global Instance M_ret {world} : MRet (M world) :=
  λ A a s, Some (Ok a, s).
Global Instance M_bind {world} : MBind (M world) :=
  λ A B k m s,
    match m s with
    | Some (Ok a, s') => k a s'
    | Some (Raise e, s') => Some (Raise e, s')
    | None => None
    end.

Definition seconds (n : Z) : Z := (n * 1000)%Z.

Section Program.
Context {world : Type} `{Driver world} `{JsonLib} `{HtmlLib} `{CryptoLib}.

Definition raise {A : Type} (e : exn) : M world A := λ s, Some (Raise e, s).

Definition lift {A : Type} (r : res A) : M world A := λ s, Some (r, s).

(** [try: m  except ...: handler]. [handler e] is [None] when no [except]
    clause names the class of [e]. *)
Definition catch {A : Type} (m : M world A) (handler : exn → option (M world A))
  : M world A :=
  λ s,
    match m s with
    | Some (Raise e, s') =>
        match handler e with
        | Some h => h s'
        | None => Some (Raise e, s')
        end
    | other => other
    end.

(** [except (classes) as e: k e]. *)
Definition on {A : Type} (classes : list exn_class) (k : exn → M world A)
  : exn → option (M world A) :=
  λ e, if isinstance e classes then Some (k e) else None.

(** Two [except] clauses, the first one first. *)
Definition orelse {A : Type} (h1 h2 : exn → option (M world A))
  : exn → option (M world A) :=
  λ e, match h1 e with Some k => Some k | None => h2 e end.

(** A call into the outside world, logged with its outcome. *)
Definition call {A : Type} (r : request A) : M world A :=
  λ s,
    let '(outcome, w) := perform r (st_world s) in
    Some (outcome, State w (st_files s) (Performed r outcome :: st_log s)).

Definition sleep (ms : Z) : M world unit :=
  λ s,
    Some (Ok tt,
          State (time_sleep ms (st_world s)) (st_files s)
                (Slept ms :: st_log s)).

Definition now : M world Z := λ s, Some (Ok (time_time (st_world s)), s).

(** A function of the files that reads them. *)
Definition reading {A : Type} (f : files → res A) : M world A :=
  λ s, Some (f (st_files s), s).

(** A function of the files that rewrites the file at [path]. *)
Definition writing (path : string) (f : files → res files) : M world unit :=
  λ s,
    match f (st_files s) with
    | Ok fs => Some (Ok tt, State (st_world s) fs (Wrote path :: st_log s))
    | Raise e => Some (Raise e, s)
    end.

End Program.

(* ================================================================== *)
(** ** Constants of [post_content.py] *)

Definition headless : bool := true.

Definition FACEBOOK_URL : string := "https://www.facebook.com/".
Definition GITHUB_CONTENT_URL : string :=
  "https://github.com/affnarayani/"
  +:+ "ninetynine_credits_legal_advice_app_content/blob/main/content.json".
Definition GITHUB_CONTENT_XPATH : string :=
  dq "//*[@id=`read-only-cursor-text-area`]".
Definition CREATE_POST_TRIGGER_XPATH : string :=
  "/html/body/div[1]/div/div[1]/div/div[3]/div/div/div[1]/div[1]/div/div[2]"
  +:+ "/div/div/div/div[2]/div/div[2]/div/div/div/div[1]/div/div[1]/span".
Definition MEDIA_UPLOAD_XPATH : string :=
  "/html/body/div[1]/div/div[1]/div/div[4]/div/div/div[1]/div/div[2]/div/div"
  +:+ "/div/form/div/div[1]/div/div/div/div[2]/div[1]/div[3]/div[1]/div[1]"
  +:+ "/div/div/div".
Definition LEXICAL_EDITOR_LOCATORS : list locator :=
  [ (CSS_SELECTOR, "[data-lexical-editor] [data-lexical-text='true']");
    (CSS_SELECTOR,
     "div[role='dialog'] div[role='textbox'][contenteditable='true']");
    (CSS_SELECTOR, "div[role='dialog'] div[role='textbox']") ].
Definition PAGE_HEADER_XPATH : string :=
  "/html/body/div[1]/div/div[1]/div/div[3]/div/div/div[1]/div[1]/div/div[1]"
  +:+ "/div/div/div[1]/div/div/div[1]/div[1]/ul/li[1]/div/div/div/a/div[1]"
  +:+ "/div/div[2]/div/div/div/span/span".
Definition TARGET_PAGE_NAME : string := "The Legal Mind".
Definition USER_AGENT : string :=
  "Mozilla/5.0 (Windows NT 10.0; Win64; x64) AppleWebKit/537.36 "
  +:+ "(KHTML, like Gecko) Chrome/140.0.0.0 Safari/537.36".
(** A Python [set]; the order of the list plays no part below. *)
Definition ALLOWED_COOKIE_KEYS : list string :=
  ["domain"; "expiry"; "httpOnly"; "name"; "path"; "sameSite"; "secure";
   "value"].
Definition NEXT_BUTTON_XPATH : string :=
  "/html/body/div[1]/div/div[1]/div/div[4]/div/div/div[1]/div/div[2]/div/div"
  +:+ "/div/form/div/div[1]/div/div/div/div[3]/div[3]/div/div/div/div[1]/div"
  +:+ "/span/span".
Definition POST_BUTTON_XPATH : string :=
  "//div[@role='button']//span[normalize-space(text())='Post']".

(** [str(e)] of a Selenium exception built from the message [msg]. *)
Definition selenium_text (msg : string) : string :=
  "Message: " +:+ msg +:+ newline.

(** [urllib.parse.urlparse] and [pathlib]. *)
Class UrlLib : Type := {
  (** [urlparse(url)]: scheme, netloc and path. *)
  urlparse : string → res (string * string * string);
  (** [Path(p).name]. *)
  path_name : string → string
}.

(* ================================================================== *)
(** ** Cookies *)

Section Cookies.
Context `{JsonLib}.

(** [key in cookie]: a key of a [dict], an element of a [list], a
    substring of a [str]; no other value is iterable. *)
Definition key_in (key : string) (cookie : json) : res bool :=
  match cookie with
  | JDict d => Ok (bool_decide (is_Some (d !! key)))
  | JList l =>
      Ok (existsb (λ x, match x with
                        | JStr s => String.eqb s key
                        | _ => false
                        end) l)
  | JStr s => Ok (contains key s)
  | _ => Raise (Exn TypeError "argument is not iterable")
  end.

(** [cookie[key]] for a [str] key. *)
Definition subscript (cookie : json) (key : string) : res json :=
  match cookie with
  | JDict d =>
      match d !! key with
      | Some v => Ok v
      | None => Raise (Exn KeyError key)
      end
  | _ => Raise (Exn TypeError "indices must be integers")
  end.

(** [{key: cookie[key] for key in keys if key in cookie}]. *)
Fixpoint pick_keys (keys : list string) (cookie : json)
  : res (gmap string json) :=
  match keys with
  | [] => Ok ∅
  | key :: rest =>
      present ← key_in key cookie;
      if present : bool then
        v ← subscript cookie key;
        picked ← pick_keys rest cookie;
        Ok (<[key := v]> picked)
      else pick_keys rest cookie
  end.

Definition sanitize_cookie (cookie : json) : res (gmap string json) :=
  sanitized ← pick_keys ALLOWED_COOKIE_KEYS cookie;
  match sanitized !! "expiry" with
  | Some v => z ← py_int v; Ok (<["expiry" := JInt z]> sanitized)
  | None => Ok sanitized
  end.

End Cookies.

(* ================================================================== *)
(** ** The steps of the workflow *)

Section Workflow.
Context {world : Type} `{Driver world} `{JsonLib} `{HtmlLib} `{CryptoLib}
  `{UrlLib}.

(** [path.exists()]. *)
Definition exists_file (path : string) : M world bool :=
  reading (λ fs, Ok (bool_decide (is_Some (fs !! path)))).

(** The files left once every entry of [directory] is removed. *)
Definition without_directory (directory : string) (fs : files) : files :=
  filter (λ entry, String.prefix (directory +:+ "/") entry.1 = false) fs.

Definition ensure_temp_dir (clean : bool) : M world string :=
  λ s,
    match mkdir TEMP_DIR (st_files s) with
    | Raise e => Some (Raise e, s)
    | Ok fs =>
        if clean
        then Some (Ok TEMP_DIR,
                   State (st_world s)
                         (remove_entries (iterdir TEMP_DIR fs) fs)
                         (Cleaned TEMP_DIR :: st_log s))
        else Some (Ok TEMP_DIR, s)
    end.

Definition fetch_github_content (temp_dir : string) : M world string :=
  let destination := path_join temp_dir CONTENT_FILENAME in
  content ←
    catch
      (call (Get GITHUB_CONTENT_URL);;
       element ← call (WaitElement (seconds 10) Presence
                         (XPATH, GITHUB_CONTENT_XPATH));
       call (Text element))
      (on [TimeoutException]
          (λ exc, raise (Exn RuntimeError
                     ("Unable to fetch content.json from GitHub: "
                      +:+ exn_text exc))));
  writing destination (λ fs, Ok (write_text destination content fs));;
  mret destination.

Definition create_driver : M world unit :=
  let arguments :=
    ["user-agent=" +:+ USER_AGENT]
    ++ (if headless then ["--headless=new"; "--window-size=1920,1080"] else [])
    ++ ["--disable-notifications"; "--disable-gpu"; "--disable-webgl";
        "--enable-unsafe-swiftshader"; "--no-sandbox"; "--log-level=3"] in
  let prefs :=
    [("profile.default_content_setting_values.notifications", 2%Z)] in
  executable ← call InstallChromeDriver;
  call (StartChrome executable arguments prefs);;
  if negb headless then call MaximizeWindow else mret tt.

Fixpoint add_cookies (cookies : list json) : M world unit :=
  match cookies with
  | [] => mret tt
  | cookie :: rest =>
      sanitized_cookie ← lift (sanitize_cookie cookie);
      (if bool_decide (is_Some (sanitized_cookie !! "domain"))
          && bool_decide (is_Some (sanitized_cookie !! "name"))
          && bool_decide (is_Some (sanitized_cookie !! "value"))
       then call (AddCookie sanitized_cookie)
       else mret tt);;
      add_cookies rest
  end.

Definition apply_cookies (cookies : list json) : M world unit :=
  call DeleteAllCookies;;
  add_cookies cookies.

Definition fetch_primary_feed_text (timeout : Z) : M world unit :=
  let target_xpath := PAGE_HEADER_XPATH in
  catch
    (element ← call (WaitElement timeout Visibility (XPATH, target_xpath));
     call (Text element);;
     mret tt)
    (on [TimeoutException] (λ _, mret tt)).

Definition dismiss_notification_popup (timeout : Z) : M world unit :=
  catch
    (popup ← call (WaitElement timeout Presence
         (XPATH,
          dq ("//div[contains(@class, `request-notifications`) "
              +:+ "and contains(@role, `dialog`)]"
              +:+ " | //div[contains(@data-pagelet, "
              +:+ "`NotificationPermissionsDialog`)]")));
     block_button ← call (FindElementsIn popup
         (XPATH, dq ".//button[contains(., `Block`)]"));
     block_button ←
       match block_button with
       | [] => call (FindElementsIn popup
                 (XPATH, dq ".//span[text()=`Block`]/ancestor::button"))
       | _ => mret block_button
       end;
     block_button ←
       match block_button with
       | [] => call (FindElements
                 (XPATH, dq "//button[contains(., `Block`)]"))
       | _ => mret block_button
       end;
     match block_button with
     | first :: _ => call (Click first)
     | [] => mret tt
     end)
    (on [TimeoutException] (λ _, mret tt)).

(** The loop of [open_profile_menu]: [true] once a button was clicked. *)
Fixpoint click_profile_button (button_selectors : list locator) (timeout : Z)
  : M world bool :=
  match button_selectors with
  | [] => mret false
  | selector :: rest =>
      clicked ←
        catch
          (profile_button ← call (WaitElement timeout Clickable selector);
           call (Click profile_button);;
           mret true)
          (on [TimeoutException; ElementClickInterceptedException]
              (λ _, mret false));
      if clicked : bool then mret true else click_profile_button rest timeout
  end.

Definition open_profile_menu (timeout : Z) : M world unit :=
  let button_selectors :=
    [ (CSS_SELECTOR, dq "div[aria-label=`Account`]");
      (CSS_SELECTOR, dq "div[aria-label=`Your profile`]");
      (XPATH, dq "//div[@aria-label=`Account` and @role=`button`]");
      (XPATH, dq "//div[@aria-label=`Your profile` and @role=`button`]") ] in
  clicked ← click_profile_button button_selectors timeout;
  if clicked : bool then mret tt
  else raise (Exn TimeoutException
           (selenium_text
              "Failed to locate the top-right profile menu button.")).

(** The body of the loop of [select_page_from_menu] for one XPath. *)
Definition click_menu_item (xpath : string) (timeout : Z) : M world unit :=
  target_element ← call (WaitElement timeout Visibility (XPATH, xpath));
  sleep (seconds 1);;
  clickable ←
    catch
      (call (WaitElement (seconds 2) Clickable (XPATH, xpath)))
      (on [TimeoutException]
          (λ _,
             catch
               (call (FindElementIn target_element
                  (XPATH,
                   "./ancestor-or-self::*"
                   +:+ "[self::a or self::div[@role='menuitem']][1]")))
               (on [NoSuchElementException] (λ _, mret target_element))));
  catch
    (call (Click clickable))
    (on [ElementClickInterceptedException; ElementNotInteractableException]
        (λ _, call (ExecuteScript "arguments[0].click();" clickable);;
              mret tt)).

Fixpoint select_first_candidate (candidate_xpaths : list string) (timeout : Z)
  : M world bool :=
  match candidate_xpaths with
  | [] => mret false
  | xpath :: rest =>
      selected ←
        catch
          (click_menu_item xpath timeout;; mret true)
          (on [TimeoutException; ElementClickInterceptedException;
               ElementNotInteractableException; NoSuchElementException]
              (λ _, mret false));
      if selected : bool then mret true
      else select_first_candidate rest timeout
  end.

Definition menu_prefix : string :=
  "/html/body/div[1]/div/div[1]/div/div[2]/div[5]/div[2]/div/".

Definition select_page_from_menu (page_name : string) (timeout : Z)
  : M world unit :=
  let candidate_xpaths :=
    [ dq "//span[normalize-space(text())=`" +:+ page_name
        +:+ dq "`]/ancestor::div[@role=`menuitem`]";
      dq "//div[@role=`menuitem` and .//span[normalize-space(text())=`"
        +:+ page_name +:+ dq "`]]";
      dq "//span[normalize-space(text())=`" +:+ page_name +:+ dq "`]";
      menu_prefix
        +:+ "div[3]/div[1]/div[1]/div/div/div/div/div/div/div/div/div/div[1]"
        +:+ "/div/div/div[1]/div[1]/div/div/div[1]/div/span/div/div/div/div"
        +:+ "/div[1]/div/div[2]/div/span";
      menu_prefix
        +:+ "div[3]/div[1]/div[1]/div/div/div/div/div/div/div/div/div/div[1]"
        +:+ "/div/div/div[1]/div[1]/div/div/a/div[1]/div[2]/span";
      menu_prefix
        +:+ "div[2]/div[1]/div[1]/div/div/div/div/div/div/div/div/div/div[1]"
        +:+ "/div/div/div[1]/div[1]/div/div/div[1]/div/span/div/div/div/div"
        +:+ "/div[1]/div/div[2]/div/span" ] in
  selected ← select_first_candidate candidate_xpaths timeout;
  if selected : bool then mret tt
  else raise (Exn TimeoutException
           (selenium_text
              ("Unable to find menu item with text '" +:+ page_name
               +:+ "'."))).

Definition download_page_source (destination : string) : M world string :=
  source ← call PageSource;
  writing destination (λ fs, Ok (write_text destination source fs));;
  mret destination.

Definition load_content_items (fs : files) (content_file : string)
  : res (list json) :=
  match fs !! content_file with
  | None =>
      Raise (Exn FileNotFoundError
               ("Content file not found: " +:+ content_file))
  | Some c =>
      text ← read_text c;
      match json_loads text with
      | None => Raise (Exn ValueError "content.json contains invalid JSON")
      | Some (JList data) => Ok data
      | Some _ =>
          Raise (Exn ValueError "content.json must contain a list of objects")
      end
  end.

Definition download_image_to_temp (url : json) (temp_dir : string)
  : M world (option string) :=
  if negb (truthy url) then mret None
  else
    match url with
    | JStr url =>
        '(scheme, netloc, path) ← lift (urlparse url);
        if negb (nonempty scheme) || negb (nonempty netloc) then mret None
        else
          let filename :=
            if nonempty (path_name path) then path_name path
            else "image.jpg" in
          let destination := path_join temp_dir filename in
          catch
            (data ← call (UrlOpenRead url);
             writing destination (λ fs, Ok (<[destination := data]> fs));;
             mret (Some destination))
            (on [URLError] (λ _, mret None))
    | _ => raise (attribute_error "object has no attribute 'decode'")
    end.

Definition wait_and_click (xpath : string) (timeout : Z) : M world unit :=
  element ← call (WaitElement timeout Clickable (XPATH, xpath));
  call (Click element).

Definition wait_for_presence (xpath : string) (timeout : Z)
  : M world element :=
  call (WaitElement timeout Presence (XPATH, xpath)).

End Workflow.

(* ================================================================== *)
(** ** Focusing the editor and typing into it *)

Section Editor.
Context {world : Type} `{Driver world}.

(** The body of the [for] loop of [focus_text_field] for one locator:
    [Some element] when the function returns that element, [None] when
    the loop goes on to the next locator. *)
Definition focus_attempt (locator : locator) : M world (option element) :=
  catch
    (element ← call (WaitElement (seconds 2) Presence locator);
     call (ExecuteScript "arguments[0].scrollIntoView({block: 'center'});"
             element);;
     catch
       (call (Click element))
       (on [ElementClickInterceptedException; ElementNotInteractableException]
           (λ _, call (ExecuteScript "arguments[0].click();" element);;
                 mret tt));;
     call (ExecuteScript "arguments[0].focus();" element);;
     is_active ← call (ExecuteScript
                         "return document.activeElement === arguments[0];"
                         element);
     mret (if truthy is_active then Some element else None))
    (on [TimeoutException; StaleElementReferenceException] (λ _, mret None)).

(** The [for] loop over the locators, in their order. *)
Fixpoint focus_first (locators : list locator) : M world (option element) :=
  match locators with
  | [] => mret None
  | locator :: rest =>
      found ← focus_attempt locator;
      match found with
      | Some element => mret (Some element)
      | None => focus_first rest
      end
  end.

(** The [while time.time() < end_time] loop; [fuel] bounds the number of
    times its condition is evaluated. *)
Fixpoint focus_loop (fuel : nat) (locators : list locator)
    (end_time poll_interval : Z) : M world element :=
  match fuel with
  | O => λ _, None
  | S fuel =>
      t ← now;
      if (t <? end_time)%Z then
        found ← focus_first locators;
        match found with
        | Some element => mret element
        | None =>
            sleep poll_interval;;
            focus_loop fuel locators end_time poll_interval
        end
      else
        raise (Exn TimeoutException
                 (selenium_text
                    "Unable to focus the text field within timeout."))
  end.

(** [focus_text_field] over a given list of locators. *)
Definition focus_text_field_on (locators : list locator) (fuel : nat)
    (timeout poll_interval : Z) : M world element :=
  start ← now;
  focus_loop fuel locators (start + timeout)%Z poll_interval.

Definition focus_text_field (fuel : nat) (timeout poll_interval : Z)
  : M world element :=
  focus_text_field_on LEXICAL_EDITOR_LOCATORS fuel timeout poll_interval.

(** The loop [for index, line in enumerate(lines)], entered at [index]
    with [lines] still to send out of [count]. *)
Fixpoint send_lines (element : element) (count : nat) (index : nat)
    (lines : list string) : M world unit :=
  match lines with
  | [] => mret tt
  | line :: rest =>
      call (SendKeys element [Chars line]);;
      (if (Z.of_nat index <? Z.of_nat count - 1)%Z
       then call (SendKeys element [Key SHIFT; Key ENTER])
       else mret tt);;
      send_lines element count (S index) rest
  end.

Definition input_multiline_text (element : element) (lines : list string)
  : M world unit :=
  match lines with
  | [] => mret tt
  | _ =>
      call (SendKeys element [Key CONTROL; Chars "a"]);;
      call (SendKeys element [Key DELETE]);;
      send_lines element (List.length lines) 0 lines
  end.

End Editor.

(* ================================================================== *)
(** ** Uploading media *)

Section Upload.
Context {world : Type} `{Driver world}.

(** The loop over the file inputs found on the page: [true] when a path
    was sent to one of them. *)
Fixpoint send_to_file_inputs (input_elements : list element)
    (file_path : string) : M world bool :=
  match input_elements with
  | [] => mret false
  | input_element :: rest =>
      sent ←
        catch
          (displayed ← call (IsDisplayed input_element);
           enabled ← (if displayed : bool
                      then call (IsEnabled input_element)
                      else mret false);
           if displayed && enabled then
             call (SendKeys input_element [Chars file_path]);; mret true
           else mret false)
          (on [InvalidArgumentException; ElementNotInteractableException]
              (λ _, mret false));
      if sent : bool then mret true else send_to_file_inputs rest file_path
  end.

Definition scan_file_inputs (file_path : string) : M world bool :=
  sleep (seconds 1);;
  input_elements ← call (FindElements (XPATH, "//input[@type='file']"));
  send_to_file_inputs input_elements file_path.

Definition upload_media (container_xpath : string) (file_path : option string)
  : M world bool :=
  match file_path with
  | None => mret false
  | Some file_path =>
      present ← reading (λ fs, Ok (bool_decide (is_Some (fs !! file_path))));
      if negb present then mret false
      else
        direct ←
          catch
            (file_input ← call (WaitElement (seconds 10) Presence
                 (XPATH,
                  container_xpath +:+ "/ancestor::form//input[@type='file']"));
             call (SendKeys file_input [Chars file_path]);;
             mret true)
            (orelse
               (on [TimeoutException] (λ _, mret false))
               (on [InvalidArgumentException; ElementNotInteractableException]
                   (λ _, mret false)));
        if direct : bool then mret true
        else
          (* the fallback [try]; [container_element] is bound once the
             wait has returned *)
          located ←
            catch
              (container_element ← call (WaitElement (seconds 10) Clickable
                                           (XPATH, container_xpath));
               mret (Some container_element))
              (orelse
                 (on [TimeoutException] (λ _, mret None))
                 (on [ElementClickInterceptedException]
                     (λ _, raise (Exn UnboundLocalError
                          "cannot access local variable 'container_element'"))));
          match located with
          | None => mret false
          | Some container_element =>
              catch
                (call (Click container_element);;
                 scan_file_inputs file_path)
                (orelse
                   (on [TimeoutException] (λ _, mret false))
                   (on [ElementClickInterceptedException]
                       (λ _,
                          call (ExecuteScript "arguments[0].click();"
                                  container_element);;
                          scan_file_inputs file_path)))
          end
  end.

End Upload.

(* ================================================================== *)
(** ** The publish workflow *)

Section Main.
Context {world : Type} `{Driver world} `{JsonLib} `{HtmlLib} `{CryptoLib}
  `{UrlLib}.

(** [try: m  except TimeoutException: print(...); return], followed by
    the rest of [main] when [m] returns. *)
Definition unless_timeout {A : Type} (m : M world A) (rest : A → M world unit)
  : M world unit :=
  done ← catch (a ← m; mret (Some a))
               (on [TimeoutException] (λ _, mret None));
  match done with
  | Some a => rest a
  | None => mret tt
  end.

(** [candidate.get(key, "")] on a dict. *)
Definition get_or_empty (key : string) (v : json) : res json :=
  match v with
  | JDict d => Ok (default (JStr "") (d !! key))
  | _ => Raise (attribute_error "object has no attribute 'get'")
  end.

(** The statements of [main] from the text entry to the end of the [try]
    block. *)
Definition compose_and_submit (fuel : nat) (candidate : json)
    (description_html : string) (description_lines : list string)
    (temp_dir : string) : M world unit :=
  let combined_text :=
    match description_lines with
    | [] => description_html
    | _ => join (newline +:+ newline) description_lines
    end in
  unless_timeout
    (if nonempty combined_text then
       text_field ← focus_text_field fuel (seconds 10) 500;
       input_multiline_text text_field [combined_text]
     else mret tt)
    (λ _,
       image ← lift (get_or_empty "image" candidate);
       image_path ← download_image_to_temp image temp_dir;
       match image_path with
       | Some _ => upload_media MEDIA_UPLOAD_XPATH image_path;; mret tt
       | None => mret tt
       end;;
       sleep (seconds 15);;
       unless_timeout (wait_and_click NEXT_BUTTON_XPATH (seconds 10))
         (λ _,
            sleep (seconds 15);;
            unless_timeout (wait_and_click POST_BUTTON_XPATH (seconds 10))
              (λ _,
                 title ← lift (get_stripped "title" candidate);
                 image ← lift (get_stripped "image" candidate);
                 writing POSTED_HISTORY_FILE
                   (λ fs, append_post_history fs POSTED_HISTORY_FILE
                            (history_entry title description_html image));;
                 fetch_primary_feed_text (seconds 10);;
                 sleep (seconds 15);;
                 ensure_temp_dir true;;
                 sleep (seconds 15);;
                 mret tt))).

(** The statements of the [try] block of [main] after
    [driver = create_driver()]. *)
Definition publish (fuel : nat) (cookies : list json) : M world unit :=
  temp_dir ← ensure_temp_dir true;
  content_file ← fetch_github_content temp_dir;
  content_items ← reading (λ fs, load_content_items fs content_file);
  post_history_entries ←
    reading (λ fs, load_post_history fs POSTED_HISTORY_FILE);
  candidate ←
    lift (find_next_content_item content_items post_history_entries);
  match candidate with
  | Some candidate =>
      if truthy candidate then
        description_html ← lift (get_stripped "description" candidate);
        let description_lines := strip_html_paragraphs description_html in
        call (Get FACEBOOK_URL);;
        apply_cookies cookies;;
        call Refresh;;
        download_page_source (path_join TEMP_DIR "page_source.html");;
        dismiss_notification_popup (seconds 10);;
        open_profile_menu (seconds 10);;
        sleep (seconds 2);;
        select_page_from_menu TARGET_PAGE_NAME (seconds 10);;
        unless_timeout
          (call (WaitText (seconds 15) (XPATH, PAGE_HEADER_XPATH)
                   TARGET_PAGE_NAME))
          (λ _,
             unless_timeout
               (wait_and_click CREATE_POST_TRIGGER_XPATH (seconds 15))
               (λ _,
                  unless_timeout
                    (call (WaitAnyFound (seconds 15) LEXICAL_EDITOR_LOCATORS))
                    (λ _,
                       download_page_source
                         (path_join TEMP_DIR "popup_page_source.html");;
                       compose_and_submit fuel candidate description_html
                         description_lines temp_dir)))
      else ensure_temp_dir true;; mret tt
  | None => ensure_temp_dir true;; mret tt
  end.

(** The outcome of a program as a value: what a [try] statement looks
    at. *)
Definition attempt {A : Type} (m : M world A) : M world (res A) :=
  λ s,
    match m s with
    | Some (r, s') => Some (Ok r, s')
    | None => None
    end.

(** What the [except] clauses of [main] decide for an exception that
    leaves the [try] block: [true] when [sys.exit(1)] is called. *)
Definition exits_on (e : exn) : bool :=
  isinstance e [ElementNotInteractableException]
  && contains "element not interactable" (exn_text e).

(** [main()], as the exit status of the process. An exception that
    nothing catches ends the process with status 1, and so does
    [sys.exit(1)]. *)
Definition main (fuel : nat) (environ : gmap string string) : M world Z :=
  loaded ← attempt (reading (λ fs, load_cookies fs environ COOKIES_FILE));
  match loaded with
  | Raise _ => mret 1%Z
  | Ok cookies =>
      started ← attempt create_driver;
      body ←
        match started with
        | Ok _ => attempt (publish fuel cookies)
        | Raise e => mret (Raise e)
        end;
      (* finally *)
      quit ←
        match started with
        | Ok _ => attempt (call Quit)
        | Raise _ => mret (Ok tt)
        end;
      match quit, body with
      | Raise _, _ => mret 1%Z
      | Ok _, Raise e => mret (if exits_on e then 1 else 0)%Z
      | Ok _, Ok _ => mret 0%Z
      end
  end.

End Main.

(* ================================================================== *)
(** ** Notions used by the statements about runs *)

Section Runs.
Context {world : Type} `{Driver world}.

(** Every terminating run of [m] relates the state it starts from to the
    state it leaves. *)
Definition preserves {A : Type} (R : relation (state world)) (m : M world A)
  : Prop :=
  ∀ s r s', m s = Some (r, s') → R s s'.

(** The handlers of a [try] do so too. *)
Definition handles {A : Type} (R : relation (state world))
    (handler : exn → option (M world A)) : Prop :=
  ∀ e k, handler e = Some k → preserves R k.

(** [m] always terminates. *)
Definition total {A : Type} (m : M world A) : Prop :=
  ∀ s, is_Some (m s).

(** The clock never goes back, whatever is requested, and sleeping for
    [d] takes at least [d]. *)
Class Clock : Prop := {
  perform_monotone :
    ∀ (A : Type) (r : request A) (w : world),
      (time_time w ≤ time_time (perform r w).2)%Z;
  sleep_monotone :
    ∀ (d : Z) (w : world), (time_time w ≤ time_time (time_sleep d w))%Z;
  sleep_advances :
    ∀ (d : Z) (w : world), (time_time w + d ≤ time_time (time_sleep d w))%Z
}.

Definition clock (s : state world) : Z := time_time (st_world s).

Definition not_earlier : relation (state world) :=
  λ s s', (clock s ≤ clock s')%Z.

(** Sending the key sequences of [values] to [element] one after the
    other, stopping at the first that raises: what typing a text comes
    down to. *)
Fixpoint send_each (element : element) (values : list (list keys_arg))
  : M world unit :=
  match values with
  | [] => mret tt
  | value :: rest => call (SendKeys element value);; send_each element rest
  end.

(** The lines of a text as key sequences, with Shift+Enter between two
    consecutive lines and nothing after the last. *)
Fixpoint typed_lines (lines : list string) : list (list keys_arg) :=
  match lines with
  | [] => []
  | [line] => [[Chars line]]
  | line :: rest => [Chars line] :: [Key SHIFT; Key ENTER] :: typed_lines rest
  end.

(** Select all, delete, then the lines. *)
Definition keystrokes (lines : list string) : list (list keys_arg) :=
  [Key CONTROL; Chars "a"] :: [Key DELETE] :: typed_lines lines.

(** [count] consecutive passes of the loop of [focus_text_field], each
    started before [end_time], each finding nothing and ending with the
    poll sleep, lead from [s] to [s']. *)
Inductive failed_passes (locators : list locator) (end_time poll_interval : Z)
  : nat → state world → state world → Prop :=
| failed_passes_O s : failed_passes locators end_time poll_interval 0 s s
| failed_passes_S count s s1 s2 s' :
    (clock s < end_time)%Z →
    focus_first locators s = Some (Ok None, s1) →
    sleep poll_interval s1 = Some (Ok tt, s2) →
    failed_passes locators end_time poll_interval count s2 s' →
    failed_passes locators end_time poll_interval (S count) s s'.

(** The two events of a confirmed submit: the Post button was waited for
    and found, and the click on it returned. *)
Definition submit_confirmed (button : element) : list event :=
  [ Performed (WaitElement (seconds 10) Clickable (XPATH, POST_BUTTON_XPATH))
      (Ok button);
    Performed (Click button) (Ok tt) ].

(** An event other than a write of the ledger. *)
Definition off_ledger (ev : event) : Prop :=
  ev ≠ Wrote POSTED_HISTORY_FILE.

(** From [s] to [s'] the log has only grown, by events off the ledger,
    and the ledger file is as it was. *)
Definition ledger_untouched : relation (state world) :=
  λ s s',
    ∃ new, st_log s' = new ++ st_log s
         ∧ Forall off_ledger new
         ∧ st_files s' !! POSTED_HISTORY_FILE
           = st_files s !! POSTED_HISTORY_FILE.

(** From [s] to [s'] the ledger was written once, right after a
    confirmed submit, and nothing else touched it. The log is newest
    first. *)
Definition recorded_after_submit : relation (state world) :=
  λ s s',
    ∃ after button before,
      st_log s' = after ++ Wrote POSTED_HISTORY_FILE
                           :: rev (submit_confirmed button)
                           ++ before ++ st_log s
      ∧ Forall off_ledger after ∧ Forall off_ledger before.

(** What a run of the workflow does to the ledger: nothing, or one
    write right after a confirmed submit. *)
Definition ledger_after_submit : relation (state world) :=
  λ s s', ledger_untouched s s' ∨ recorded_after_submit s s'.

End Runs.

(* ================================================================== *)
(** ** Notions used by the further properties *)

(** A sanitized cookie that [apply_cookies] hands to the driver: it has
    a domain, a name and a value. *)
Definition has_identity (cookie : gmap string json) : bool :=
  bool_decide (is_Some (cookie !! "domain"))
  && bool_decide (is_Some (cookie !! "name"))
  && bool_decide (is_Some (cookie !! "value")).

Section FurtherRuns.
Context {world : Type} `{Driver world}.

(** Every exception that [m] lets out satisfies [P]. *)
Definition raises_only {A : Type} (P : exn → Prop) (m : M world A) : Prop :=
  ∀ s e s', m s = Some (Raise e, s') → P e.

(** The script by which [focus_text_field] checks that the element has
    the focus. *)
Definition is_active_script : string :=
  "return document.activeElement === arguments[0];".

(** The exception is none of the [classes]. *)
Definition outside (classes : list exn_class) (e : exn) : Prop :=
  isinstance e classes = false.

(** The newest event of [s] is a [send_keys] of [file_path] that
    returned. *)
Definition sent_last (file_path : string) (s : state world) : Prop :=
  ∃ input rest,
    st_log s = Performed (SendKeys input [Chars file_path]) (Ok tt) :: rest.

(** No file differs between the two states. *)
Definition same_files : relation (state world) :=
  λ s s', st_files s' = st_files s.

(** The file at [path] is the same in the two states, or absent from
    both. *)
Definition untouched_at (path : string) : relation (state world) :=
  λ s s', st_files s' !! path = st_files s !! path.

End FurtherRuns.

(* ################################################################## *)
(** * Stand-ins for the libraries

    Small executable instances of the library interfaces, on which the
    program above can be run. They serve the examples and the concrete
    runs of the second part; no theorem about the program depends on
    them. *)

Module Fixture.

(* ================================================================== *)
(** ** A JSON reader and writer *)

Definition quote : ascii := "034".
Definition backslash : ascii := "092".

Fixpoint escape (s : string) : string :=
  match s with
  | EmptyString => EmptyString
  | String c rest =>
      if Ascii.eqb c quote || Ascii.eqb c backslash
      then String backslash (String c (escape rest))
      else String c (escape rest)
  end.

Definition quoted (s : string) : string :=
  String quote (escape s +:+ String quote EmptyString).

(** Compact JSON text; the keys of a dict come in the order of the
    map. *)
Fixpoint dumps (v : json) : string :=
  match v with
  | JNull => "null"
  | JBool true => "true"
  | JBool false => "false"
  | JInt z => NilZero.string_of_int (Z.to_int z)
  | JFloat repr => repr
  | JStr s => quoted s
  | JList l => "[" +:+ join "," (map dumps l) +:+ "]"
  | JDict d =>
      "{" +:+ join ","
                (map_fold (λ k x acc, (quoted k +:+ ":" +:+ dumps x) :: acc)
                          [] d)
          +:+ "}"
  end.

Definition is_ws (c : ascii) : bool :=
  Ascii.eqb c " " || Ascii.eqb c "010" || Ascii.eqb c "013"
  || Ascii.eqb c "009".

Fixpoint skip_ws (s : string) : string :=
  match s with
  | String c rest => if is_ws c then skip_ws rest else s
  | EmptyString => s
  end.

(** The characters of a string literal after its opening quote, and what
    follows its closing quote. *)
Fixpoint read_string (s : string) : option (string * string) :=
  match s with
  | EmptyString => None
  | String c rest =>
      if Ascii.eqb c quote then Some (EmptyString, rest)
      else if Ascii.eqb c backslash then
        match rest with
        | String e rest' =>
            if Ascii.eqb e quote || Ascii.eqb e backslash
            then '(body, after) ← read_string rest';
                 Some (String e body, after)
            else None
        | EmptyString => None
        end
      else '(body, after) ← read_string rest; Some (String c body, after)
  end.

Fixpoint read_word (word s : string) : option string :=
  match word, s with
  | EmptyString, _ => Some s
  | String w word', String c s' =>
      if Ascii.eqb w c then read_word word' s' else None
  | String _ _, EmptyString => None
  end.

Definition is_number_char (c : ascii) : bool :=
  let n := N_of_ascii c in
  ((48 <=? n) && (n <=? 57))%N
  || Ascii.eqb c "-" || Ascii.eqb c "+" || Ascii.eqb c "."
  || Ascii.eqb c "e" || Ascii.eqb c "E".

Fixpoint read_number (s : string) : string * string :=
  match s with
  | String c rest =>
      if is_number_char c
      then let '(digits, after) := read_number rest in
           (String c digits, after)
      else (EmptyString, s)
  | EmptyString => (EmptyString, s)
  end.

Definition number (token : string) : option json :=
  match NilZero.int_of_string token with
  | Some i => Some (JInt (Z.of_int i))
  | None =>
      match token with
      | EmptyString => None
      | _ => Some (JFloat token)
      end
  end.

(** What the reader is in the middle of. *)
Inductive mode : Type :=
| Value
| Elements (acc : list json)
| Members (acc : gmap string json).

Fixpoint parse (fuel : nat) (m : mode) (s : string)
  : option (json * string) :=
  match fuel with
  | O => None
  | S fuel =>
      match m with
      | Value =>
          match skip_ws s with
          | EmptyString => None
          | String c rest =>
              if Ascii.eqb c quote then
                '(body, after) ← read_string rest; Some (JStr body, after)
              else if Ascii.eqb c "[" then
                match skip_ws rest with
                | String "]" after => Some (JList [], after)
                | _ => parse fuel (Elements []) rest
                end
              else if Ascii.eqb c "{" then
                match skip_ws rest with
                | String "}" after => Some (JDict ∅, after)
                | _ => parse fuel (Members ∅) rest
                end
              else
                match read_word "null" (String c rest),
                      read_word "true" (String c rest),
                      read_word "false" (String c rest) with
                | Some after, _, _ => Some (JNull, after)
                | _, Some after, _ => Some (JBool true, after)
                | _, _, Some after => Some (JBool false, after)
                | None, None, None =>
                    let '(token, after) := read_number (String c rest) in
                    v ← number token; Some (v, after)
                end
          end
      | Elements acc =>
          '(v, after) ← parse fuel Value s;
          match skip_ws after with
          | String "," more => parse fuel (Elements (v :: acc)) more
          | String "]" more => Some (JList (rev (v :: acc)), more)
          | _ => None
          end
      | Members acc =>
          match skip_ws s with
          | String c rest =>
              if Ascii.eqb c quote then
                '(k, after) ← read_string rest;
                match skip_ws after with
                | String ":" after' =>
                    '(v, after'') ← parse fuel Value after';
                    match skip_ws after'' with
                    | String "," more =>
                        parse fuel (Members (<[k := v]> acc)) more
                    | String "}" more => Some (JDict (<[k := v]> acc), more)
                    | _ => None
                    end
                | _ => None
                end
              else None
          | EmptyString => None
          end
      end
  end.

Definition loads (text : string) : option json :=
  '(v, after) ← parse (2 * String.length text + 2) Value text;
  match skip_ws after with
  | EmptyString => Some v
  | _ => None
  end.

Definition json_lib : JsonLib := {|
  json_loads := loads;
  json_dumps := dumps;
  py_repr := dumps;
  int_of_str := λ s,
    match NilZero.int_of_string s with
    | Some i => Ok (Z.of_int i)
    | None => Raise (Exn ValueError "invalid literal for int()")
    end;
  int_of_float := λ _, Raise (Exn ValueError "cannot convert float")
|}.

(* ================================================================== *)
(** ** Text without entities, URLs of the form scheme://host/path *)

(** [html.unescape] leaves a text without an ampersand as it is. *)
Definition html_lib : HtmlLib := {| unescape := λ s, s |}.

(** The text before the first occurrence of [mark], and the text after
    it. *)
Fixpoint split_at (mark s : string) : option (string * string) :=
  match read_word mark s with
  | Some after => Some (EmptyString, after)
  | None =>
      match s with
      | EmptyString => None
      | String c rest =>
          '(before, after) ← split_at mark rest; Some (String c before, after)
      end
  end.

Fixpoint last_component (acc s : string) : string :=
  match s with
  | EmptyString => acc
  | String c rest =>
      if Ascii.eqb c "/" then last_component EmptyString rest
      else last_component (acc +:+ String c EmptyString) rest
  end.

Definition url_lib : UrlLib := {|
  urlparse := λ url,
    match split_at "://" url with
    | Some (scheme, rest) =>
        match split_at "/" rest with
        | Some (netloc, path) => Ok (scheme, netloc, "/" +:+ path)
        | None => Ok (scheme, rest, EmptyString)
        end
    | None => Ok (EmptyString, EmptyString, url)
    end;
  path_name := last_component EmptyString
|}.

(* ================================================================== *)
(** ** A cipher that compares keys *)

(** The stand-in for AES-GCM: the ciphertext is the key, a colon and the
    plaintext; decryption with another key is rejected. The derived key
    is the password, and base64 text is taken as it is. *)
Definition crypto_lib : CryptoLib := {|
  b64decode := λ s, Ok (Utf8 s);
  pbkdf2_hmac_sha256 := λ _ _ _ password, password;
  aesgcm_decrypt := λ k _ ciphertext,
    match k, ciphertext with
    | Utf8 k, Utf8 ciphertext =>
        match read_word (k +:+ ":") ciphertext with
        | Some plaintext => Ok (Utf8 plaintext)
        | None => Raise (Exn InvalidTag "")
        end
    | _, _ => Raise (Exn InvalidTag "")
    end
|}.

(* ================================================================== *)
(** ** A page that does not change *)

Global Instance By_eq_dec : EqDecision By.
Proof. solve_decision. Defined.

(** A browser showing one unchanging page: the locators of
    [page_present] each match one element, the others match nothing;
    the element of the locator at position [i] has id [i]. A wait for
    something present returns at once, a wait for something absent takes
    its whole timeout and then raises [TimeoutException]. The state of
    this world is its clock. *)
Record page : Type := Page {
  page_present : list locator;
  (** [.text] of every element *)
  page_text : string;
  (** what the script that checks [document.activeElement] returns *)
  page_active : json;
  (** the elements whose [click()] raises, with what it raises *)
  page_click_raises : list (element * exn);
  (** what [urlopen(url).read()] returns *)
  page_download : res bytes
}.

Fixpoint index_of (l : locator) (present : list locator) : option element :=
  match present with
  | [] => None
  | l' :: rest =>
      if bool_decide (l = l') then Some 0 else S <$> index_of l rest
  end.

Definition timed_out : exn := Exn TimeoutException (selenium_text "").

Definition later (ms : Z) (t : Z) : Z := (t + Z.max 0 ms)%Z.

Definition wait_for {A : Type} (timeout : Z) (found : option A) (t : Z)
  : res A * Z :=
  match found with
  | Some a => (Ok a, t)
  | None => (Raise timed_out, later timeout t)
  end.

Definition page_perform (p : page) {A : Type} (r : request A)
  : Z → res A * Z :=
  match r in request A return Z → res A * Z with
  | InstallChromeDriver => λ t, (Ok "chromedriver", t)
  | StartChrome _ _ _ => λ t, (Ok tt, t)
  | MaximizeWindow => λ t, (Ok tt, t)
  | Get _ => λ t, (Ok tt, t)
  | Refresh => λ t, (Ok tt, t)
  | PageSource => λ t, (Ok "<html></html>", t)
  | DeleteAllCookies => λ t, (Ok tt, t)
  | AddCookie _ => λ t, (Ok tt, t)
  | FindElements l =>
      λ t, (Ok (option_list (index_of l (page_present p))), t)
  | ExecuteScript _ _ => λ t, (Ok (page_active p), t)
  | Quit => λ t, (Ok tt, t)
  | WaitElement timeout _ l =>
      wait_for timeout (index_of l (page_present p))
  | WaitText timeout l _ =>
      wait_for timeout ((λ _, tt) <$> index_of l (page_present p))
  | WaitAnyFound timeout ls =>
      wait_for timeout
        (if existsb
              (λ l, bool_decide (is_Some (index_of l (page_present p)))) ls
         then Some tt else None)
  | Click e =>
      λ t, match list_find (λ entry, entry.1 = e) (page_click_raises p) with
           | Some (_, (_, raised)) => (Raise raised, t)
           | None => (Ok tt, t)
           end
  | SendKeys _ _ => λ t, (Ok tt, t)
  | Text _ => λ t, (Ok (page_text p), t)
  | FindElementIn _ l =>
      λ t, match index_of l (page_present p) with
           | Some e => (Ok e, t)
           | None => (Raise (Exn NoSuchElementException (selenium_text "")), t)
           end
  | FindElementsIn _ l =>
      λ t, (Ok (option_list (index_of l (page_present p))), t)
  | IsDisplayed _ => λ t, (Ok true, t)
  | IsEnabled _ => λ t, (Ok true, t)
  | UrlOpenRead _ => λ t, (page_download p, t)
  end.

Definition page_driver (p : page) : Driver Z := {|
  perform := @page_perform p;
  time_time := λ t, t;
  time_sleep := later
|}.

(** A page on which nothing is found. *)
Definition blank : page :=
  Page [] EmptyString (JBool true) [] (Raise (Exn URLError "")).

(** The state of a run that starts at time 0 with the files [fs]. *)
Definition start (fs : files) : state Z := State 0%Z fs [].

(* ================================================================== *)
(** ** One item to publish *)

(** The feed [[{title: "X", description: "<p>Hello</p>", image: ""}]]. *)
Definition item_x : json := history_entry "X" "<p>Hello</p>" "".

Definition feed_text : string := dumps (JList [item_x]).

(** An encrypted cookie file whose password is "sesame" and whose
    plaintext is the empty list of cookies. *)
Definition blob : json :=
  JDict (<["s" := JStr "salt"]>
         (<["n" := JStr "nonce"]> (<["ct" := JStr "sesame:[]"]> ∅))).

Definition cookie_files : files := <[COOKIES_FILE := Utf8 (dumps blob)]> ∅.

Definition environ : gmap string string := <["DECRYPT_KEY" := "sesame"]> ∅.

(** A ledger in the legacy shape, with the given descriptions. *)
Definition legacy_ledger (descriptions : list string) : files :=
  <[POSTED_HISTORY_FILE :=
      Utf8 (dumps (JDict (<["descriptions" := JList (JStr <$> descriptions)]>
                          ∅)))]> ∅.

(** The locators that the workflow needs up to the opening of the
    composer, and those it needs from there on. *)
Definition before_composer : list locator :=
  [ (XPATH, GITHUB_CONTENT_XPATH);
    (CSS_SELECTOR, dq "div[aria-label=`Account`]");
    (XPATH, dq "//span[normalize-space(text())=`" +:+ TARGET_PAGE_NAME
            +:+ dq "`]/ancestor::div[@role=`menuitem`]");
    (XPATH, PAGE_HEADER_XPATH) ].

Definition trigger : locator := (XPATH, CREATE_POST_TRIGGER_XPATH).

Definition composer : list locator :=
  [ (CSS_SELECTOR, "div[role='dialog'] div[role='textbox']");
    (XPATH, NEXT_BUTTON_XPATH);
    (XPATH, POST_BUTTON_XPATH) ].

Definition showing (present : list locator)
    (click_raises : list (element * exn)) : page :=
  Page present feed_text (JBool true) click_raises (Raise (Exn URLError "")).

(** Everything is found and every click goes through. *)
Definition complete : page :=
  showing (before_composer ++ trigger :: composer) [].

(** The create-post trigger is never found. *)
Definition no_trigger : page := showing before_composer [].

(** The profile button is never found. *)
Definition no_profile_button : page :=
  showing [(XPATH, GITHUB_CONTENT_XPATH)] [].

(** The create-post trigger, element 4, is found but cannot be
    clicked. *)
Definition stubborn_trigger : page :=
  showing (before_composer ++ [trigger])
    [(4, Exn ElementNotInteractableException
           (selenium_text "element not interactable"))].

(** [main] on a page, from the cookie file alone. *)
Definition run_main (p : page) : option (res Z * state Z) :=
  @main Z (page_driver p) json_lib html_lib crypto_lib url_lib 30 environ
    (start cookie_files).

(** The state that this run ends in. *)
Definition final (p : page) : state Z :=
  match run_main p with
  | Some (_, s) => s
  | None => start cookie_files
  end.

(** The state that a run ends in. *)
Definition after {A : Type} (run : option (res A * state Z)) : state Z :=
  match run with
  | Some (_, s) => s
  | None => start ∅
  end.

End Fixture.
(* ################################################################## *)
(** * Theorems *)

(* ================================================================== *)
(** ** Content selector *)

Section Selector.

Lemma nonempty_true s : nonempty s = true ↔ s ≠ "".
Proof. destruct s; simpl; split; congruence. Qed.

Lemma map_res_Ok_elem history ds :
  map_res (get_stripped "description") history = Ok ds →
  ∀ d, d ∈ ds ↔ posted history d.
Proof.
  revert ds. induction history as [|e history IH]; simpl; intros ds Hds d.
  - inversion Hds; subst. split.
    + intros Hd. inversion Hd.
    + intros (x & Hx & _). inversion Hx.
  - destruct (get_stripped "description" e) as [de|] eqn:He;
      simpl in Hds; [|discriminate].
    destruct (map_res _ history) as [ds'|] eqn:Hm; simpl in Hds;
      [|discriminate].
    inversion Hds; subst ds; clear Hds.
    rewrite elem_of_cons, (IH ds' eq_refl d). split.
    + intros [->|(x & Hx & Hxd)].
      * exists e. split; [left|exact He].
      * exists x. split; [right; exact Hx|exact Hxd].
    + intros (x & Hx & Hxd). apply elem_of_cons in Hx as [->|Hx].
      * left. unfold described in Hxd. congruence.
      * right. exists x. auto.
Qed.

Lemma map_res_total history :
  Forall (λ e, ∃ d, described e d) history →
  ∃ ds, map_res (get_stripped "description") history = Ok ds.
Proof.
  induction 1 as [|e history (d & Hd) _ (ds & IH)]; simpl.
  - eauto.
  - unfold described in Hd. rewrite Hd, IH. simpl. eauto.
Qed.

(** What the loop returns, for a set [seen] that holds exactly the
    descriptions of [history]. *)
Lemma scan_returns_first (seen : gset string) history items r :
  (∀ d, d ∈ seen ↔ posted history d) →
  scan_content_items seen items = Ok r →
  match r with
  | Some item =>
      ∃ before after d,
        items = before ++ item :: after
        ∧ Forall (skipped history) before
        ∧ described item d ∧ d ≠ "" ∧ ¬ posted history d
  | None => Forall (skipped history) items
  end.
Proof.
  intros Hseen. induction items as [|x items IH]; simpl; intros Hr.
  - inversion Hr; subst. constructor.
  - destruct (get_stripped "description" x) as [dx|] eqn:Hx;
      simpl in Hr; [|discriminate].
    destruct (nonempty dx && negb (bool_decide (dx ∈ seen))) eqn:Hc.
    + inversion Hr; subst r; clear Hr.
      apply andb_true_iff in Hc as [Hne Hni].
      apply nonempty_true in Hne.
      apply negb_true_iff, bool_decide_eq_false in Hni.
      exists [], items, dx. repeat split; auto.
      rewrite <- Hseen. exact Hni.
    + assert (Hskip : skipped history x).
      { exists dx. split; [exact Hx|].
        apply andb_false_iff in Hc as [Hc|Hc].
        - left. destruct dx; [reflexivity|discriminate].
        - right. apply negb_false_iff, bool_decide_eq_true in Hc.
          apply Hseen, Hc. }
      specialize (IH Hr). destruct r as [item|].
      * destruct IH as (before & after & d & -> & Hb & Hd).
        exists (x :: before), after, d. split; [reflexivity|].
        split; [constructor; assumption|exact Hd].
      * constructor; assumption.
Qed.

Lemma scan_total (seen : gset string) items :
  Forall (λ e, ∃ d, described e d) items →
  ∃ r, scan_content_items seen items = Ok r.
Proof.
  induction 1 as [|x items (d & Hd) _ (r & IH)]; simpl.
  - eauto.
  - unfold described in Hd. rewrite Hd. simpl.
    destruct (nonempty d && _); eauto.
Qed.

(** C1. Whatever the feed and the history, an item that
    [find_next_content_item] returns is the first item of the feed whose
    stripped description is non-empty and is not the stripped
    description of any history entry: every item before it is skipped
    for one of these two reasons, and in particular the returned item's
    stripped description is never a history entry's. When it returns
    [None] every item of the feed is skipped. On a feed and a history
    made of records (dicts whose description, when present, is a
    string) the selector does return. *)
Theorem find_next_content_item_first_unposted
    (content_items posted_history : list json) :
  (∀ r, find_next_content_item content_items posted_history = Ok r →
     match r with
     | Some item =>
         ∃ before after d,
           content_items = before ++ item :: after
           ∧ Forall (skipped posted_history) before
           ∧ described item d ∧ d ≠ ""
           ∧ ∀ entry, entry ∈ posted_history → ¬ described entry d
     | None => Forall (skipped posted_history) content_items
     end)
  ∧ (Forall (λ e, ∃ d, described e d) content_items →
     Forall (λ e, ∃ d, described e d) posted_history →
     ∃ r, find_next_content_item content_items posted_history = Ok r).
Proof.
  unfold find_next_content_item. split.
  - intros r Hr.
    destruct (map_res _ posted_history) as [ds|] eqn:Hds; simpl in Hr;
      [|discriminate].
    pose proof (map_res_Ok_elem _ _ Hds) as Hposted.
    eapply (scan_returns_first (list_to_set ds) posted_history) in Hr.
    + destruct r as [item|]; [|exact Hr].
      destruct Hr as (before & after & d & Hsplit & Hb & Hd & Hne & Hnp).
      exists before, after, d. repeat split; auto.
      intros entry Hin Hdesc. apply Hnp. exists entry. auto.
    + intros d. rewrite elem_of_list_to_set. apply Hposted.
  - intros Hitems Hhist.
    destruct (map_res_total _ Hhist) as (ds & ->). simpl.
    apply scan_total, Hitems.
Qed.

End Selector.

(** The theorem on a feed of three items, the first already posted, the
    second without a description: the third is selected. *)
Lemma find_next_content_item_witness :
  let history := [history_entry "old" " <p>Posted</p>" ""] in
  let feed := [ history_entry "A" "<p>Posted</p> " "";
                history_entry "B" "  " "";
                Fixture.item_x ] in
  find_next_content_item feed history = Ok (Some Fixture.item_x)
  ∧ ∃ before after d,
      feed = before ++ Fixture.item_x :: after
      ∧ Forall (skipped history) before
      ∧ described Fixture.item_x d ∧ d ≠ ""
      ∧ ∀ entry, entry ∈ history → ¬ described entry d.
Proof.
  intros history feed. split; [vm_compute; reflexivity|].
  apply (proj1 (find_next_content_item_first_unposted feed history)
           (Some Fixture.item_x)).
  vm_compute. reflexivity.
Defined.

(* ================================================================== *)
(** ** HTML to plain-text lines *)

Section Html.
Context `{HtmlLib}.

Lemma string_app_nil (b : string) : "" +:+ b = b.
Proof. reflexivity. Qed.

Lemma string_app_cons (c : ascii) (a b : string) :
  String c a +:+ b = String c (a +:+ b).
Proof. reflexivity. Qed.

Lemma string_app_assoc (a b c : string) : (a +:+ b) +:+ c = a +:+ b +:+ c.
Proof.
  induction a as [|x a IH]; [reflexivity|].
  rewrite !string_app_cons. f_equal. exact IH.
Qed.













End Html.


(* ================================================================== *)
(** ** History ledger *)

Section Ledger.
Context `{JsonLib}.

Lemma filter_is_dict_id (l : list json) :
  Forall (λ e, is_dict e = true) l → filter (λ e, is_dict e = true) l = l.
Proof.
  induction 1 as [|e l He _ IH]; [reflexivity|].
  rewrite filter_cons_True by exact He. now rewrite IH.
Qed.

(** Whatever the file holds, the entries that [load_post_history] returns
    are dicts. *)
Lemma load_post_history_dicts fs history_file history :
  load_post_history fs history_file = Ok history →
  Forall (λ e, is_dict e = true) history.
Proof.
  unfold load_post_history. intros Hl.
  destruct (fs !! history_file) as [c|]; [|inversion Hl; constructor].
  destruct (read_text c) as [text|]; simpl in Hl; [|discriminate].
  destruct (json_loads text) as [[| | | | |data|data]|];
    try (inversion Hl; constructor).
  - inversion Hl; subst. apply Forall_forall. intros e He.
    apply list_elem_of_filter in He. tauto.
  - destruct (data !! "descriptions") as [[| | | | |ds|]|];
      try (inversion Hl; constructor).
    inversion Hl; subst. apply Forall_fmap, Forall_forall.
    intros e _. reflexivity.
Qed.

(** The two tolerated cases of [load_post_history]: no file, and a file
    whose text is not JSON. *)
Lemma load_post_history_absent_or_unparsable fs history_file :
  (fs !! history_file = None → load_post_history fs history_file = Ok [])
  ∧ (∀ text, fs !! history_file = Some (Utf8 text) →
       json_loads text = None →
       load_post_history fs history_file = Ok []).
Proof.
  unfold load_post_history. split.
  - intros ->. reflexivity.
  - intros text -> Hbad. simpl. rewrite Hbad. reflexivity.
Qed.

(** C7, the case the code misses. A ledger file whose bytes are not valid
    UTF-8 (here the single byte 0xFF) is not parsable as JSON, yet loading
    it raises [UnicodeDecodeError] instead of returning the empty
    history: [read_text] fails before [json.loads] is reached, and the
    handler names [json.JSONDecodeError] only. *)
Theorem load_post_history_undecodable_raises :
  ∃ e, load_post_history
         (<[POSTED_HISTORY_FILE := NotUtf8 [255%N]]> ∅) POSTED_HISTORY_FILE
       = Raise e
     ∧ exn_cls e = UnicodeDecodeError
     ∧ isinstance e [JSONDecodeError] = false.
Proof.
  unfold load_post_history. rewrite lookup_insert_eq. simpl.
  eexists. split; [reflexivity|]. split; reflexivity.
Qed.

(** C6, the case the code misses. [append_post_history] starts by
    loading the ledger, outside any handler. On a ledger file whose bytes
    are not valid UTF-8 (here the single byte 0xFF) that load raises
    [UnicodeDecodeError], so the append raises it too, whatever the
    entry: nothing is written, the file is left as it was, and loading
    it afterwards raises again instead of returning the new entry in
    front. *)
Theorem append_post_history_undecodable_raises (entry : json) :
  let fs : files := <[POSTED_HISTORY_FILE := NotUtf8 [255%N]]> ∅ in
  ∃ e, append_post_history fs POSTED_HISTORY_FILE entry = Raise e
       ∧ exn_cls e = UnicodeDecodeError
       ∧ isinstance e [JSONDecodeError] = false
       ∧ (∀ fs', append_post_history fs POSTED_HISTORY_FILE entry ≠ Ok fs')
       ∧ load_post_history fs POSTED_HISTORY_FILE = Raise e.
Proof.
  intros fs. unfold append_post_history, load_post_history, fs.
  rewrite lookup_insert_eq. simpl. eexists.
  split; [reflexivity|]. split; [reflexivity|]. split; [reflexivity|].
  split; [intros fs'; discriminate|reflexivity].
Qed.

(** X21. On a ledger that loads, append followed by load is
    prefix-stable. If the ledger loads as [history] and the document that
    [append_post_history] writes reads back as written, then appending a
    dict [entry] succeeds, touches no other file, and the ledger then
    loads as [entry] followed by [history], in the order [history] had. *)
Theorem append_then_load_prefix_stable fs history_file entry history :
  is_dict entry = true →
  load_post_history fs history_file = Ok history →
  json_loads (json_dumps (JList (entry :: history)))
    = Some (JList (entry :: history)) →
  ∃ fs', append_post_history fs history_file entry = Ok fs'
       ∧ load_post_history fs' history_file = Ok (entry :: history)
       ∧ ∀ other, other ≠ history_file → fs' !! other = fs !! other.
Proof.
  intros Hentry Hload Hcodec. unfold append_post_history.
  rewrite Hload. simpl. eexists. split; [reflexivity|]. split.
  - unfold load_post_history, write_text. rewrite lookup_insert_eq. simpl.
    rewrite Hcodec. f_equal. apply filter_is_dict_id.
    constructor; [exact Hentry|].
    eapply load_post_history_dicts, Hload.
  - intros other Hne. unfold write_text. now rewrite lookup_insert_ne.
Qed.

(** C8, as the code has it. A ledger file whose JSON is a dict with a
    list under ["descriptions"] loads as one entry per item, in order;
    the entry of a string [s] has an empty title and image and the
    description [s.strip()]. *)
Theorem load_post_history_legacy fs history_file text data
    (descriptions : list string) :
  fs !! history_file = Some (Utf8 text) →
  json_loads text = Some (JDict data) →
  data !! "descriptions" = Some (JList (JStr <$> descriptions)) →
  load_post_history fs history_file
    = Ok ((λ s, history_entry "" (strip s) "") <$> descriptions).
Proof.
  intros Hfile Hjson Hkey. unfold load_post_history.
  rewrite Hfile. simpl. rewrite Hjson, Hkey. f_equal.
  rewrite <- list_fmap_compose. reflexivity.
Qed.

End Ledger.

(** The theorem on a ledger that holds one entry: the new entry comes
    first. *)
Lemma append_then_load_prefix_stable_witness :
  let old := history_entry "old" "<p>Posted</p>" "" in
  let fs : files :=
    <[POSTED_HISTORY_FILE := Utf8 (Fixture.dumps (JList [old]))]> ∅ in
  is_dict Fixture.item_x = true
  ∧ @load_post_history Fixture.json_lib fs POSTED_HISTORY_FILE = Ok [old]
  ∧ ∃ fs',
      @append_post_history Fixture.json_lib fs POSTED_HISTORY_FILE
        Fixture.item_x = Ok fs'
      ∧ @load_post_history Fixture.json_lib fs' POSTED_HISTORY_FILE
        = Ok [Fixture.item_x; old]
      ∧ ∀ other, other ≠ POSTED_HISTORY_FILE → fs' !! other = fs !! other.
Proof.
  intros old fs. split; [reflexivity|]. split; [vm_compute; reflexivity|].
  apply (@append_then_load_prefix_stable Fixture.json_lib fs
           POSTED_HISTORY_FILE Fixture.item_x [old]).
  - reflexivity.
  - vm_compute. reflexivity.
  - vm_compute. reflexivity.
Defined.

(** C8, where the statement fails: the legacy string " a " does not load
    as the description " a " but as "a". *)
Lemma load_post_history_legacy_strips :
  @load_post_history Fixture.json_lib (Fixture.legacy_ledger [" a "])
     POSTED_HISTORY_FILE
  = Ok [history_entry "" "a" ""]
  ∧ history_entry "" "a" "" ≠ history_entry "" " a " "".
Proof.
  split; [vm_compute; reflexivity|].
  intros Heq. inversion Heq.
Qed.

(** The theorem on the legacy ledger [{descriptions: ["a", "b"]}]: two
    entries with empty title and image, descriptions "a" and "b". *)
Lemma load_post_history_legacy_witness :
  @load_post_history Fixture.json_lib (Fixture.legacy_ledger ["a"; "b"])
     POSTED_HISTORY_FILE
  = Ok [history_entry "" "a" ""; history_entry "" "b" ""].
Proof.
  apply (@load_post_history_legacy Fixture.json_lib
           (Fixture.legacy_ledger ["a"; "b"]) POSTED_HISTORY_FILE
           (Fixture.dumps
              (JDict (<["descriptions" := JList (JStr <$> ["a"; "b"])]> ∅)))
           (<["descriptions" := JList (JStr <$> ["a"; "b"])]> ∅)
           ["a"; "b"]).
  - vm_compute. reflexivity.
  - vm_compute. reflexivity.
  - vm_compute. reflexivity.
Defined.

(* ================================================================== *)
(** ** Secret store *)

Section SecretStoreFacts.
Context `{JsonLib} `{CryptoLib}.

Lemma _decrypt_payload_blob payload password salt nonce ciphertext :
  blob_of payload salt nonce ciphertext →
  _decrypt_payload payload password
    = aesgcm_decrypt (_derive_key password salt) nonce ciphertext.
Proof.
  intros (Hs & Hn & Hc). unfold _decrypt_payload.
  rewrite Hs, Hn, Hc. reflexivity.
Qed.

Lemma _decrypt_payload_Ok payload password plaintext :
  _decrypt_payload payload password = Ok plaintext →
  ∃ salt nonce ciphertext,
    blob_of payload salt nonce ciphertext
    ∧ aesgcm_decrypt (_derive_key password salt) nonce ciphertext
      = Ok plaintext.
Proof.
  unfold _decrypt_payload, blob_of. intros Hd.
  destruct (payload_field payload "s") as [salt|]; [|discriminate].
  destruct (payload_field payload "n") as [nonce|]; [|discriminate].
  destruct (payload_field payload "ct") as [ct|]; [|discriminate].
  simpl in Hd. exists salt, nonce, ct. auto.
Qed.

(** C2. Take a blob [{s, n, ct}] and a password for which AES-GCM
    rejects the ciphertext (a wrong password, or a truncated or altered
    ciphertext): [_decrypt_payload] raises that very error and returns no
    plaintext, and so does [load_cookies] on a cookie file holding the
    blob. Conversely, whenever [load_cookies] returns cookies, the
    authenticated decryption of the blob in the file succeeded and the
    cookies are the JSON list that its plaintext holds. *)
Theorem decryption_fails_closed (fs : files) (environ : gmap string string)
    (file_path : string) :
  (∀ text payload password salt nonce ciphertext rejected,
     fs !! file_path = Some (Utf8 text) →
     json_loads text = Some (JDict payload) →
     environ !! "DECRYPT_KEY" = Some password → password ≠ "" →
     blob_of payload salt nonce ciphertext →
     aesgcm_decrypt (_derive_key password salt) nonce ciphertext
       = Raise rejected →
     _decrypt_payload payload password = Raise rejected
     ∧ load_cookies fs environ file_path = Raise rejected)
  ∧ (∀ cookies,
       load_cookies fs environ file_path = Ok cookies →
       ∃ text payload password salt nonce ciphertext plaintext decoded,
         fs !! file_path = Some (Utf8 text)
         ∧ json_loads text = Some (JDict payload)
         ∧ environ !! "DECRYPT_KEY" = Some password
         ∧ blob_of payload salt nonce ciphertext
         ∧ aesgcm_decrypt (_derive_key password salt) nonce ciphertext
           = Ok plaintext
         ∧ decode_utf8 plaintext = Ok decoded
         ∧ json_loads decoded = Some (JList cookies)).
Proof.
  split.
  - intros text payload password salt nonce ct rejected
      Hfile Hjson Henv Hpw Hblob Hreject.
    assert (Hd : _decrypt_payload payload password = Raise rejected).
    { rewrite (_decrypt_payload_blob _ _ _ _ _ Hblob). exact Hreject. }
    split; [exact Hd|].
    unfold load_cookies. rewrite Hfile, Henv.
    destruct password; [congruence|]. simpl. rewrite Hjson, Hd. reflexivity.
  - unfold load_cookies. intros cookies Hload.
    destruct (fs !! file_path) as [c|]; [|discriminate].
    destruct (environ !! "DECRYPT_KEY") as [[|p password]|] eqn:Henv;
      try discriminate.
    destruct c as [text|raw]; simpl in Hload; [|discriminate].
    destruct (json_loads text) as [[| | | | | |payload]|] eqn:Hjson;
      try discriminate.
    destruct (_decrypt_payload payload (String p password))
      as [plaintext|] eqn:Hd; simpl in Hload; [|discriminate].
    destruct (decode_utf8 plaintext) as [decoded|] eqn:Hdec; simpl in Hload;
      [|discriminate].
    destruct (json_loads decoded) as [[| | | | |l|]|] eqn:Hj2;
      try discriminate.
    inversion Hload; subst l.
    apply _decrypt_payload_Ok in Hd as (salt & nonce & ct & Hblob & Haes).
    exists text, payload, (String p password), salt, nonce, ct, plaintext,
      decoded.
    repeat split; try assumption; apply Hblob.
Qed.

End SecretStoreFacts.

(** The theorem on the cookie file sealed with "sesame" and opened with
    "wrong": [InvalidTag], from [_decrypt_payload] and from
    [load_cookies]. *)
Lemma decryption_fails_closed_witness :
  let environ : gmap string string := <["DECRYPT_KEY" := "wrong"]> ∅ in
  let payload : gmap string json :=
    <["s" := JStr "salt"]>
      (<["n" := JStr "nonce"]> (<["ct" := JStr "sesame:[]"]> ∅)) in
  @_decrypt_payload Fixture.crypto_lib payload "wrong"
    = Raise (Exn InvalidTag "")
  ∧ @load_cookies Fixture.json_lib Fixture.crypto_lib Fixture.cookie_files
      environ COOKIES_FILE
    = Raise (Exn InvalidTag "").
Proof.
  intros environ payload.
  apply (proj1 (@decryption_fails_closed Fixture.json_lib Fixture.crypto_lib
                  Fixture.cookie_files environ COOKIES_FILE)
           (Fixture.dumps Fixture.blob) payload "wrong"
           (Utf8 "salt") (Utf8 "nonce") (Utf8 "sesame:[]")).
  - vm_compute. reflexivity.
  - vm_compute. reflexivity.
  - vm_compute. reflexivity.
  - discriminate.
  - repeat split; vm_compute; reflexivity.
  - vm_compute. reflexivity.
Defined.

(* ================================================================== *)
(** ** Running programs *)

Section RunLemmas.
Context {world : Type} `{Driver world}.

Lemma bind_run {A B : Type} (m : M world A) (k : A → M world B) s :
  (m ≫= k) s =
    match m s with
    | Some (Ok a, s') => k a s'
    | Some (Raise e, s') => Some (Raise e, s')
    | None => None
    end.
Proof. reflexivity. Qed.

Lemma call_run {A : Type} (r : request A) s :
  call r s =
    Some ((perform r (st_world s)).1,
          State (perform r (st_world s)).2 (st_files s)
                (Performed r (perform r (st_world s)).1 :: st_log s)).
Proof. unfold call. destruct (perform r (st_world s)). reflexivity. Qed.

(** *** Relations kept by every step *)

Section Preservation.
Context (R : relation (state world)) `{!PreOrder R}.

Lemma preserves_ret {A : Type} (a : A) : preserves R (mret a : M world A).
Proof. intros s r s' Hrun. inversion Hrun; subst. reflexivity. Qed.

Lemma preserves_raise {A : Type} e : preserves R (raise e : M world A).
Proof. intros s r s' Hrun. inversion Hrun; subst. reflexivity. Qed.

Lemma preserves_lift {A : Type} (x : res A) : preserves R (lift x : M world A).
Proof. intros s r s' Hrun. inversion Hrun; subst. reflexivity. Qed.

Lemma preserves_now : preserves R (now : M world Z).
Proof. intros s r s' Hrun. inversion Hrun; subst. reflexivity. Qed.

Lemma preserves_reading {A : Type} (f : files → res A) :
  preserves R (reading f : M world A).
Proof. intros s r s' Hrun. inversion Hrun; subst. reflexivity. Qed.

Lemma preserves_bind {A B : Type} (m : M world A) (k : A → M world B) :
  preserves R m → (∀ a, preserves R (k a)) → preserves R (m ≫= k).
Proof.
  intros Hm Hk s r s' Hrun. rewrite bind_run in Hrun.
  destruct (m s) as [[[a|e] s1]|] eqn:Hms; [| |discriminate].
  - transitivity s1; [eapply Hm, Hms|eapply Hk, Hrun].
  - inversion Hrun; subst. eapply Hm, Hms.
Qed.

Lemma preserves_catch {A : Type} (m : M world A) handler :
  preserves R m → handles R handler → preserves R (catch m handler).
Proof.
  intros Hm Hh s r s' Hrun. unfold catch in Hrun.
  destruct (m s) as [[[a|e] s1]|] eqn:Hms; [| |discriminate].
  - inversion Hrun; subst. eapply Hm, Hms.
  - destruct (handler e) as [k|] eqn:Hk.
    + transitivity s1; [eapply Hm, Hms|eapply (Hh e k Hk), Hrun].
    + inversion Hrun; subst. eapply Hm, Hms.
Qed.

Lemma handles_on {A : Type} classes (k : exn → M world A) :
  (∀ e, preserves R (k e)) → handles R (on classes k).
Proof.
  intros Hk e h Hh. unfold on in Hh.
  destruct (isinstance e classes); [|discriminate].
  inversion Hh; subst. apply Hk.
Qed.

Lemma handles_orelse {A : Type} (h1 h2 : exn → option (M world A)) :
  handles R h1 → handles R h2 → handles R (orelse h1 h2).
Proof.
  intros H1 H2 e k Hk. unfold orelse in Hk.
  destruct (h1 e) as [k1|] eqn:Hk1.
  - inversion Hk; subst. eapply H1, Hk1.
  - eapply H2, Hk.
Qed.

Lemma preserves_attempt {A : Type} (m : M world A) :
  preserves R m → preserves R (attempt m).
Proof.
  intros Hm s r s' Hrun. unfold attempt in Hrun.
  destruct (m s) as [[x s1]|] eqn:Hms; [|discriminate].
  inversion Hrun; subst. eapply Hm, Hms.
Qed.

End Preservation.

End RunLemmas.

(** One step of a proof that a program keeps a relation: the rule for
    the head of the program, or a case split on what it branches on. *)
Ltac keeps_step :=
  lazymatch goal with
  | |- preserves _ (mret _) => refine (preserves_ret _ _)
  | |- preserves _ (raise _) => refine (preserves_raise _ _)
  | |- preserves _ (lift _) => refine (preserves_lift _ _)
  | |- preserves _ now => refine (preserves_now _)
  | |- preserves _ (reading _) => refine (preserves_reading _ _)
  | |- preserves _ (attempt _) => refine (preserves_attempt _ _ _)
  | |- preserves _ (_ ≫= _) => refine (preserves_bind _ _ _ _ _); [|intros ?]
  | |- preserves _ (catch _ _) => refine (preserves_catch _ _ _ _ _)
  | |- handles _ (on _ _) => refine (handles_on _ _ _ _); intros ?
  | |- handles _ (orelse _ _) => refine (handles_orelse _ _ _ _ _)
  | |- preserves _ (if ?b then _ else _) => destruct b
  | |- preserves _ (match ?x with _ => _ end) => destruct x
  | |- preserves _ (let '(_, _) := ?x in _) => destruct x
  end.

Ltac keeps := repeat (first [assumption | keeps_step | solve [eauto]]).

(* ================================================================== *)
(** ** What every helper of the workflow keeps *)

Lemma contains_slash_path_join directory name :
  contains "/" (path_join directory name) = true.
Proof.
  unfold path_join. induction directory as [|c directory IH].
  - rewrite string_app_nil, string_app_cons, string_app_nil.
    destruct name; reflexivity.
  - rewrite string_app_cons. cbn [contains]. rewrite IH.
    apply orb_true_r.
Qed.

Lemma path_join_off_ledger directory name :
  path_join directory name ≠ POSTED_HISTORY_FILE.
Proof.
  intros Heq. pose proof (contains_slash_path_join directory name) as Hc.
  rewrite Heq in Hc. vm_compute in Hc. discriminate.
Qed.

Create HintDb keeps discriminated.

Section Helpers.
Context {world : Type} `{Driver world} `{JsonLib} `{HtmlLib} `{CryptoLib}
  `{UrlLib}.
Context (R : relation (state world)) `{!PreOrder R}.
Hypothesis call_keeps : ∀ (A : Type) (r : request A), preserves R (call r).
Hypothesis sleep_keeps : ∀ d, preserves R (sleep d).
Hypothesis clean_keeps : ∀ clean, preserves R (ensure_temp_dir clean).
Hypothesis writing_keeps :
  ∀ path f,
    path ≠ POSTED_HISTORY_FILE →
    (∀ fs fs', f fs = Ok fs' →
       fs' !! POSTED_HISTORY_FILE = fs !! POSTED_HISTORY_FILE) →
    preserves R (writing path f).

Local Hint Resolve call_keeps sleep_keeps clean_keeps : keeps.

Ltac keep := repeat (first [keeps_step | solve [eauto with keeps]]).

Lemma write_text_keeps path text :
  path ≠ POSTED_HISTORY_FILE →
  preserves R (writing path (λ fs, Ok (write_text path text fs))).
Proof.
  intros Hne. apply writing_keeps; [exact Hne|].
  intros fs fs' Hw. inversion Hw; subst. unfold write_text.
  now rewrite lookup_insert_ne.
Qed.

Lemma write_bytes_keeps path data :
  path ≠ POSTED_HISTORY_FILE →
  preserves R (writing path (λ fs, Ok (<[path := data]> fs))).
Proof.
  intros Hne. apply writing_keeps; [exact Hne|].
  intros fs fs' Hw. inversion Hw; subst. now rewrite lookup_insert_ne.
Qed.

Local Hint Resolve write_text_keeps write_bytes_keeps path_join_off_ledger
  : keeps.

Lemma fetch_github_content_keeps temp_dir :
  preserves R (fetch_github_content temp_dir).
Proof. unfold fetch_github_content. keep. Qed.

Lemma create_driver_keeps : preserves R create_driver.
Proof. unfold create_driver. keep. Qed.

Lemma add_cookies_keeps cookies : preserves R (add_cookies cookies).
Proof. induction cookies as [|cookie rest IH]; cbn [add_cookies]; keep. Qed.

Local Hint Resolve add_cookies_keeps : keeps.

Lemma apply_cookies_keeps cookies : preserves R (apply_cookies cookies).
Proof. unfold apply_cookies. keep. Qed.

Lemma fetch_primary_feed_text_keeps timeout :
  preserves R (fetch_primary_feed_text timeout).
Proof. unfold fetch_primary_feed_text. keep. Qed.

Lemma dismiss_notification_popup_keeps timeout :
  preserves R (dismiss_notification_popup timeout).
Proof. unfold dismiss_notification_popup. keep. Qed.

Lemma click_profile_button_keeps selectors timeout :
  preserves R (click_profile_button selectors timeout).
Proof.
  induction selectors as [|selector rest IH]; cbn [click_profile_button];
    keep.
Qed.

Local Hint Resolve click_profile_button_keeps : keeps.

Lemma open_profile_menu_keeps timeout : preserves R (open_profile_menu timeout).
Proof. unfold open_profile_menu. keep. Qed.

Lemma click_menu_item_keeps xpath timeout :
  preserves R (click_menu_item xpath timeout).
Proof. unfold click_menu_item. keep. Qed.

Local Hint Resolve click_menu_item_keeps : keeps.

Lemma select_first_candidate_keeps xpaths timeout :
  preserves R (select_first_candidate xpaths timeout).
Proof.
  induction xpaths as [|xpath rest IH]; cbn [select_first_candidate]; keep.
Qed.

Local Hint Resolve select_first_candidate_keeps : keeps.

Lemma select_page_from_menu_keeps page_name timeout :
  preserves R (select_page_from_menu page_name timeout).
Proof. unfold select_page_from_menu. keep. Qed.

Lemma download_page_source_keeps destination :
  destination ≠ POSTED_HISTORY_FILE →
  preserves R (download_page_source destination).
Proof. intros Hne. unfold download_page_source. keep. Qed.

Lemma download_image_to_temp_keeps url temp_dir :
  preserves R (download_image_to_temp url temp_dir).
Proof. unfold download_image_to_temp. keep. Qed.

Lemma wait_and_click_keeps xpath timeout :
  preserves R (wait_and_click xpath timeout).
Proof. unfold wait_and_click. keep. Qed.

Lemma focus_attempt_keeps locator : preserves R (focus_attempt locator).
Proof. unfold focus_attempt. keep. Qed.

Local Hint Resolve focus_attempt_keeps : keeps.

Lemma focus_first_keeps locators : preserves R (focus_first locators).
Proof. induction locators as [|l rest IH]; cbn [focus_first]; keep. Qed.

Local Hint Resolve focus_first_keeps : keeps.

Lemma focus_loop_keeps fuel locators end_time poll_interval :
  preserves R (focus_loop fuel locators end_time poll_interval).
Proof.
  induction fuel as [|fuel IH]; cbn [focus_loop].
  - intros s r s' Hrun. discriminate.
  - keep.
Qed.

Local Hint Resolve focus_loop_keeps : keeps.

Lemma focus_text_field_keeps fuel timeout poll_interval :
  preserves R (focus_text_field fuel timeout poll_interval).
Proof. unfold focus_text_field, focus_text_field_on. keep. Qed.

Lemma send_lines_keeps element count lines :
  ∀ index, preserves R (send_lines element count index lines).
Proof.
  induction lines as [|line rest IH]; intros index; cbn [send_lines]; keep.
Qed.

Local Hint Resolve send_lines_keeps : keeps.

Lemma input_multiline_text_keeps element lines :
  preserves R (input_multiline_text element lines).
Proof. unfold input_multiline_text. keep. Qed.

Lemma send_to_file_inputs_keeps inputs file_path :
  preserves R (send_to_file_inputs inputs file_path).
Proof.
  induction inputs as [|input rest IH]; cbn [send_to_file_inputs]; keep.
Qed.

Local Hint Resolve send_to_file_inputs_keeps : keeps.

Lemma scan_file_inputs_keeps file_path :
  preserves R (scan_file_inputs file_path).
Proof. unfold scan_file_inputs. keep. Qed.

Local Hint Resolve scan_file_inputs_keeps : keeps.

Lemma upload_media_keeps container_xpath file_path :
  preserves R (upload_media container_xpath file_path).
Proof. unfold upload_media. keep. Qed.

End Helpers.

(* ================================================================== *)
(** ** The temporary directory *)

Lemma prefix_app (p r : string) : String.prefix p (p +:+ r) = true.
Proof.
  induction p as [|a p IH].
  - rewrite string_app_nil. destruct r; reflexivity.
  - rewrite string_app_cons. simpl.
    destruct (ascii_dec a a); [exact IH|congruence].
Qed.

Lemma prefix_app_l (a b q : string) :
  String.prefix (a +:+ b) q = true → String.prefix a q = true.
Proof.
  revert q. induction a as [|x a IH]; intros q.
  - destruct q; reflexivity.
  - rewrite string_app_cons. destruct q as [|y q]; simpl; [discriminate|].
    destruct (ascii_dec x y); [apply IH|discriminate].
Qed.

Lemma prefix_path_join directory name :
  String.prefix (directory +:+ "/") (path_join directory name) = true.
Proof.
  unfold path_join.
  replace (directory +:+ "/" +:+ name) with ((directory +:+ "/") +:+ name)
    by apply string_app_assoc.
  apply prefix_app.
Qed.

Lemma after_prefix_app (p s r : string) :
  after_prefix p s = Some r → s = p +:+ r.
Proof.
  revert s. induction p as [|a p IH]; intros s; simpl.
  - intros Heq. inversion Heq. reflexivity.
  - destruct s as [|b s]; [discriminate|].
    destruct (Ascii.eqb a b) eqn:Hab; [|discriminate].
    apply Ascii.eqb_eq in Hab. subst b. intros Heq.
    rewrite string_app_cons. f_equal. apply IH, Heq.
Qed.

Lemma prefix_after_prefix (p s : string) :
  String.prefix p s = true → ∃ r, after_prefix p s = Some r.
Proof.
  revert s. induction p as [|a p IH]; intros s; [simpl; eauto|].
  destruct s as [|b s]; simpl; [discriminate|].
  destruct (ascii_dec a b) as [->|]; [|discriminate].
  rewrite Ascii.eqb_refl. apply IH.
Qed.

(** A path is its first component, or goes on after it with a slash. *)
Lemma first_component_split (rest : string) :
  rest = first_component rest
  ∨ ∃ more, rest = first_component rest +:+ "/" +:+ more.
Proof.
  induction rest as [|c rest IH]; [left; reflexivity|].
  cbn [first_component]. destruct (Ascii.eqb c "/") eqn:Hc.
  - apply Ascii.eqb_eq in Hc. subst c. right. exists rest. reflexivity.
  - destruct IH as [IH|(more & IH)].
    + left. f_equal. exact IH.
    + right. exists more. rewrite string_app_cons. f_equal. exact IH.
Qed.

(** One turn of the loop removes the entry and what lies under it, and
    nothing else. *)
Lemma remove_entry_lookup (entry : string) (fs : files) (q : string) :
  (if is_dir entry fs then rmtree entry fs else unlink entry fs) !! q
  = if bool_decide (q = entry) || lies_under entry q then None else fs !! q.
Proof.
  destruct (is_dir entry fs) eqn:Hd.
  - unfold rmtree.
    destruct (bool_decide (q = entry) || lies_under entry q) eqn:Hc.
    + apply map_lookup_filter_None. right. intros c _ [Hne Hl].
      simpl in Hne, Hl. apply orb_true_iff in Hc as [Hc|Hc].
      * apply bool_decide_eq_true in Hc. contradiction.
      * congruence.
    + apply orb_false_iff in Hc as [Hq Hl].
      apply bool_decide_eq_false in Hq.
      destruct (fs !! q) as [c|] eqn:Hf.
      * apply map_lookup_filter_Some. split; [exact Hf|]. split; assumption.
      * apply map_lookup_filter_None. left. exact Hf.
  - unfold unlink. destruct (bool_decide (q = entry)) eqn:Hq; simpl.
    + apply bool_decide_eq_true in Hq. subst q. apply lookup_delete_eq.
    + apply bool_decide_eq_false in Hq.
      rewrite lookup_delete_ne by congruence.
      destruct (lies_under entry q) eqn:Hl; [|reflexivity].
      destruct (fs !! q) as [c|] eqn:Hf; [|reflexivity].
      exfalso. unfold is_dir in Hd. apply not_true_iff_false in Hd.
      apply Hd, existsb_exists. exists (q, c).
      split; [|exact Hl]. apply list_elem_of_In, elem_of_map_to_list, Hf.
Qed.

Lemma remove_entries_lookup (entries : list string) : ∀ (fs : files) q,
  remove_entries entries fs !! q
  = if existsb (λ entry, bool_decide (q = entry) || lies_under entry q)
         entries
    then None else fs !! q.
Proof.
  induction entries as [|entry rest IH]; intros fs q; [reflexivity|].
  cbn [remove_entries existsb]. rewrite IH, remove_entry_lookup.
  destruct (bool_decide (q = entry) || lies_under entry q);
    destruct (existsb _ rest); reflexivity.
Qed.

Lemma iterdir_under directory (fs : files) entry :
  entry ∈ iterdir directory fs → ∃ name, entry = path_join directory name.
Proof.
  unfold iterdir. rewrite elem_of_remove_dups, list_elem_of_omap.
  intros (file & _ & Hentry). unfold entry_of in Hentry.
  destruct (after_prefix (directory +:+ "/") file.1) as [rest|];
    [|discriminate].
  inversion Hentry. eauto.
Qed.

Lemma covered_lies_under directory name q :
  bool_decide (q = path_join directory name)
  || lies_under (path_join directory name) q = true →
  lies_under directory q = true.
Proof.
  intros Hc. apply orb_true_iff in Hc as [Hc|Hc].
  - apply bool_decide_eq_true in Hc. subst q. apply prefix_path_join.
  - unfold lies_under, path_join in *.
    replace ((directory +:+ "/" +:+ name) +:+ "/")
      with ((directory +:+ "/") +:+ name +:+ "/") in Hc
      by (rewrite !string_app_assoc; reflexivity).
    eapply prefix_app_l, Hc.
Qed.

Lemma under_covered directory (fs : files) q c :
  fs !! q = Some c → lies_under directory q = true →
  existsb (λ entry, bool_decide (q = entry) || lies_under entry q)
    (iterdir directory fs) = true.
Proof.
  intros Hf Hl. apply prefix_after_prefix in Hl as (rest & Hrest).
  apply existsb_exists.
  exists (path_join directory (first_component rest)). split.
  - apply list_elem_of_In. unfold iterdir.
    apply elem_of_remove_dups, list_elem_of_omap. exists (q, c).
    split; [apply elem_of_map_to_list, Hf|].
    unfold entry_of. simpl. rewrite Hrest. reflexivity.
  - apply after_prefix_app in Hrest.
    destruct (first_component_split rest) as [Hfc|(more & Hfc)];
      remember (first_component rest) as name eqn:Hname; clear Hname;
      subst rest q; apply orb_true_iff.
    + left. apply bool_decide_eq_true. unfold path_join.
      apply string_app_assoc.
    + right. unfold lies_under, path_join.
      replace ((directory +:+ "/") +:+ name +:+ "/" +:+ more)
        with (((directory +:+ "/" +:+ name) +:+ "/") +:+ more)
        by (rewrite !string_app_assoc; reflexivity).
      apply prefix_app.
Qed.

(** What the loop leaves: no file under the directory, and every other
    file as it was. *)
Lemma cleaned_lookup directory (fs : files) q :
  remove_entries (iterdir directory fs) fs !! q
  = if lies_under directory q then None else fs !! q.
Proof.
  rewrite remove_entries_lookup.
  destruct (lies_under directory q) eqn:Hl.
  - destruct (fs !! q) as [c|] eqn:Hf.
    + rewrite (under_covered _ _ _ _ Hf Hl). reflexivity.
    + destruct (existsb _ _); reflexivity.
  - replace (existsb (λ entry, bool_decide (q = entry) || lies_under entry q)
               (iterdir directory fs)) with false; [reflexivity|].
    symmetry. apply not_true_iff_false. intros Hex.
    apply existsb_exists in Hex as (entry & Hin & Hc).
    apply list_elem_of_In, iterdir_under in Hin as (name & ->).
    apply covered_lies_under in Hc. congruence.
Qed.

Lemma cleaned_without directory (fs : files) :
  remove_entries (iterdir directory fs) fs = without_directory directory fs.
Proof.
  apply map_eq. intros q. rewrite cleaned_lookup.
  unfold without_directory, lies_under.
  destruct (String.prefix (directory +:+ "/") q) eqn:Hp; symmetry.
  - apply map_lookup_filter_None. right. intros c _. simpl. congruence.
  - destruct (fs !! q) as [c|] eqn:Hf.
    + apply map_lookup_filter_Some. split; [exact Hf|exact Hp].
    + apply map_lookup_filter_None. left. exact Hf.
Qed.

Section TempDir.
Context {world : Type} `{Driver world}.

(** [ensure_temp_dir] raises exactly when the temporary directory is a
    regular file, and then nothing has changed; otherwise it returns the
    directory, and the files are those that were not under it. *)
Lemma ensure_temp_dir_run clean (s : state world) :
  ensure_temp_dir clean s =
    match st_files s !! TEMP_DIR with
    | Some _ =>
        Some (Raise (Exn FileExistsError
                       ("[Errno 17] File exists: '" +:+ TEMP_DIR +:+ "'")), s)
    | None =>
        if clean
        then Some (Ok TEMP_DIR,
                   State (st_world s)
                         (without_directory TEMP_DIR (st_files s))
                         (Cleaned TEMP_DIR :: st_log s))
        else Some (Ok TEMP_DIR, s)
    end.
Proof.
  unfold ensure_temp_dir, mkdir.
  destruct (st_files s !! TEMP_DIR); [reflexivity|].
  destruct clean; [|reflexivity]. rewrite cleaned_without. reflexivity.
Qed.

End TempDir.

(* ================================================================== *)
(** ** The clock and the ledger along a run *)

Section Kept.
Context {world : Type} `{Driver world} `{JsonLib} `{HtmlLib} `{CryptoLib}
  `{UrlLib}.

Global Instance not_earlier_preorder : PreOrder (@not_earlier world _).
Proof.
  split.
  - intros s. unfold not_earlier. lia.
  - intros s1 s2 s3. unfold not_earlier. lia.
Qed.

Global Instance ledger_untouched_preorder :
  PreOrder (@ledger_untouched world).
Proof.
  split.
  - intros s. exists []. repeat split. constructor.
  - intros s1 s2 s3 (n1 & Hl1 & Hq1 & Hf1) (n2 & Hl2 & Hq2 & Hf2).
    exists (n2 ++ n1). rewrite Hl2, Hl1, app_assoc. repeat split.
    + apply Forall_app. split; assumption.
    + congruence.
Qed.

Lemma call_not_earlier `{!Clock} (A : Type) (r : request A) :
  preserves not_earlier (call r).
Proof.
  intros s x s' Hrun. rewrite call_run in Hrun. inversion Hrun; subst.
  unfold not_earlier, clock. simpl. apply perform_monotone.
Qed.

Lemma sleep_not_earlier `{!Clock} d : preserves not_earlier (sleep d).
Proof.
  intros s x s' Hrun. inversion Hrun; subst.
  unfold not_earlier, clock. simpl. apply sleep_monotone.
Qed.

Lemma clean_not_earlier clean : preserves not_earlier (ensure_temp_dir clean).
Proof.
  intros s x s' Hrun. rewrite ensure_temp_dir_run in Hrun.
  destruct (st_files s !! TEMP_DIR); [|destruct clean]; inversion Hrun; subst;
    unfold not_earlier, clock; simpl; lia.
Qed.

Lemma writing_not_earlier path f : preserves not_earlier (writing path f).
Proof.
  intros s x s' Hrun. unfold writing in Hrun.
  destruct (f (st_files s)); inversion Hrun; subst;
    unfold not_earlier, clock; simpl; lia.
Qed.

Lemma call_ledger_untouched (A : Type) (r : request A) :
  preserves ledger_untouched (call r).
Proof.
  intros s x s' Hrun. rewrite call_run in Hrun. inversion Hrun; subst.
  eexists [_]. simpl. repeat split.
  constructor; [discriminate|constructor].
Qed.

Lemma sleep_ledger_untouched d :
  preserves (@ledger_untouched world) (sleep d).
Proof.
  intros s x s' Hrun. inversion Hrun; subst.
  eexists [_]. simpl. repeat split.
  constructor; [discriminate|constructor].
Qed.

Lemma without_directory_ledger fs :
  without_directory TEMP_DIR fs !! POSTED_HISTORY_FILE
  = fs !! POSTED_HISTORY_FILE.
Proof.
  unfold without_directory.
  destruct (fs !! POSTED_HISTORY_FILE) as [c|] eqn:Hfile.
  - apply map_lookup_filter_Some. split; [exact Hfile|reflexivity].
  - apply map_lookup_filter_None. left. exact Hfile.
Qed.

Lemma clean_ledger_untouched clean :
  preserves (@ledger_untouched world) (ensure_temp_dir clean).
Proof.
  intros s x s' Hrun. rewrite ensure_temp_dir_run in Hrun.
  destruct (st_files s !! TEMP_DIR); [|destruct clean]; inversion Hrun; subst.
  - reflexivity.
  - eexists [_]. simpl. repeat split.
    + constructor; [discriminate|constructor].
    + apply without_directory_ledger.
  - reflexivity.
Qed.

Lemma writing_ledger_untouched path f :
  path ≠ POSTED_HISTORY_FILE →
  (∀ fs fs', f fs = Ok fs' →
     fs' !! POSTED_HISTORY_FILE = fs !! POSTED_HISTORY_FILE) →
  preserves (@ledger_untouched world) (writing path f).
Proof.
  intros Hne Hf s x s' Hrun. unfold writing in Hrun.
  destruct (f (st_files s)) as [fs'|e] eqn:Hfs; inversion Hrun; subst.
  - eexists [_]. simpl. repeat split.
    + constructor; [|constructor]. unfold off_ledger. congruence.
    + eapply Hf, Hfs.
  - reflexivity.
Qed.

End Kept.

(* ================================================================== *)
(** ** Typing a text *)

Section Typing.
Context {world : Type} `{Driver world}.

Lemma bind_ext {A B : Type} (m : M world A) (k1 k2 : A → M world B) s :
  (∀ a s', k1 a s' = k2 a s') → (m ≫= k1) s = (m ≫= k2) s.
Proof.
  intros Hk. rewrite !bind_run. destruct (m s) as [[[a|e] s1]|]; auto.
Qed.

Lemma bind_ret_tt (m : M world unit) s : (m ;; mret tt) s = m s.
Proof.
  rewrite bind_run. destruct (m s) as [[[[]|e] s1]|]; reflexivity.
Qed.

Lemma send_lines_send_each element count lines : ∀ index s,
  count = index + List.length lines →
  send_lines element count index lines s
  = send_each element (typed_lines lines) s.
Proof.
  induction lines as [|line rest IH]; intros index s Hcount.
  - reflexivity.
  - cbn [send_lines]. destruct rest as [|next rest].
    + replace (Z.of_nat index <? Z.of_nat count - 1)%Z with false
        by (symmetry; apply Z.ltb_ge; simpl in Hcount; lia).
      cbn [typed_lines send_each send_lines]. apply bind_ext.
      intros [] s'. reflexivity.
    + replace (Z.of_nat index <? Z.of_nat count - 1)%Z with true
        by (symmetry; apply Z.ltb_lt; simpl in Hcount; lia).
      change (typed_lines (line :: next :: rest))
        with ([Chars line] :: [Key SHIFT; Key ENTER]
              :: typed_lines (next :: rest)).
      cbn [send_each]. apply bind_ext. intros [] s'.
      apply bind_ext. intros [] s''. apply IH. simpl in *. lia.
Qed.

Lemma send_each_total element values : total (send_each element values).
Proof.
  induction values as [|value rest IH]; intros s; cbn [send_each].
  - eexists. reflexivity.
  - rewrite bind_run, call_run.
    destruct (perform (SendKeys element value) (st_world s)).1 as [[]|e];
      [apply IH|eauto].
Qed.

(** When all of [values] were sent, the trace has grown by one
    successful [send_keys] for each of them, in their order. *)
Lemma send_each_trace element values : ∀ s s',
  send_each element values s = Some (Ok tt, s') →
  trace s' = trace s
             ++ ((λ value, Performed (SendKeys element value) (Ok tt))
                   <$> values)
  ∧ st_files s' = st_files s.
Proof.
  induction values as [|value rest IH]; intros s s' Hrun;
    cbn [send_each] in Hrun.
  - inversion Hrun; subst. rewrite app_nil_r. auto.
  - rewrite bind_run, call_run in Hrun.
    destruct (perform (SendKeys element value) (st_world s)).1 as [[]|e]
      eqn:Hout; [|discriminate].
    apply IH in Hrun as [Htrace Hfiles]. simpl in Hfiles.
    split; [|exact Hfiles]. rewrite Htrace. unfold trace. simpl.
    rewrite <- app_assoc. reflexivity.
Qed.

(** C9, as the code has it. For a non-empty sequence of lines,
    [input_multiline_text] does what sending these key sequences one
    after the other does: Control+A, Delete, then each line in order with
    Shift+Enter between two consecutive lines and nothing after the last
    one. It always ends; when it returns, the trace has grown by exactly
    these [send_keys] calls, all successful, and no file has changed. *)
Theorem input_multiline_text_keystrokes (element : element)
    (lines : list string) (s : state world) :
  lines ≠ [] →
  input_multiline_text element lines s
    = send_each element (keystrokes lines) s
  ∧ is_Some (input_multiline_text element lines s)
  ∧ ∀ s', input_multiline_text element lines s = Some (Ok tt, s') →
      trace s' = trace s
                 ++ ((λ value, Performed (SendKeys element value) (Ok tt))
                       <$> keystrokes lines)
      ∧ st_files s' = st_files s.
Proof.
  intros Hne.
  assert (Heq : input_multiline_text element lines s
                = send_each element (keystrokes lines) s).
  { unfold input_multiline_text, keystrokes.
    destruct lines as [|line rest]; [congruence|].
    cbn [send_each]. apply bind_ext. intros [] s1.
    apply bind_ext. intros [] s2.
    apply send_lines_send_each. reflexivity. }
  split; [exact Heq|]. rewrite Heq. split.
  - apply send_each_total.
  - intros s'. apply send_each_trace.
Qed.

End Typing.

(** C9, where the statement fails: with no lines at all nothing is sent,
    neither the select-all nor the delete. *)
Lemma input_multiline_text_empty_sends_nothing :
  let s := Fixture.start ∅ in
  @input_multiline_text _ (Fixture.page_driver Fixture.blank) 0 [] s
    = Some (Ok tt, s)
  ∧ trace s = [].
Proof. split; reflexivity. Qed.

(** The theorem on the lines "one", "two": five key sequences. *)
Lemma input_multiline_text_keystrokes_witness :
  ["one"; "two"] ≠ ([] : list string)
  ∧ ∃ s', @input_multiline_text _ (Fixture.page_driver Fixture.blank) 0
            ["one"; "two"] (Fixture.start ∅) = Some (Ok tt, s')
        ∧ trace s'
          = (λ value, Performed (SendKeys 0 value) (Ok tt))
              <$> [ [Key CONTROL; Chars "a"]; [Key DELETE]; [Chars "one"];
                    [Key SHIFT; Key ENTER]; [Chars "two"] ].
Proof.
  split; [discriminate|].
  eexists. split; [vm_compute; reflexivity|].
  apply (@input_multiline_text_keystrokes _ (Fixture.page_driver Fixture.blank)
           0 ["one"; "two"] (Fixture.start ∅)).
  - discriminate.
  - vm_compute. reflexivity.
Defined.

(* ================================================================== *)
(** ** Resolving the editor *)

Section Focus.
Context {world : Type} `{Driver world}.

Lemma focus_first_found locator rest s element s1 :
  focus_attempt locator s = Some (Ok (Some element), s1) →
  focus_first (locator :: rest) s = Some (Ok (Some element), s1).
Proof. intros Hrun. cbn [focus_first]. rewrite bind_run, Hrun. reflexivity. Qed.

Lemma focus_first_skip locator rest s s1 :
  focus_attempt locator s = Some (Ok None, s1) →
  focus_first (locator :: rest) s = focus_first rest s1.
Proof. intros Hrun. cbn [focus_first]. rewrite bind_run, Hrun. reflexivity. Qed.

Lemma focus_first_none locators (P : state world → Prop) :
  (∀ l s, l ∈ locators → P s →
     ∃ s', focus_attempt l s = Some (Ok None, s') ∧ P s') →
  ∀ s, P s → ∃ s', focus_first locators s = Some (Ok None, s') ∧ P s'.
Proof.
  induction locators as [|l rest IH]; intros Hnone s Hs.
  - exists s. split; [reflexivity|exact Hs].
  - destruct (Hnone l s) as (s1 & Hrun & Hs1); [left|exact Hs|].
    rewrite (focus_first_skip _ _ _ _ Hrun). apply IH; [|exact Hs1].
    intros l' s' Hin. apply Hnone. right. exact Hin.
Qed.

Lemma focus_loop_found fuel locators end_time poll_interval s element s1 :
  (clock s < end_time)%Z →
  focus_first locators s = Some (Ok (Some element), s1) →
  focus_loop (S fuel) locators end_time poll_interval s
  = Some (Ok element, s1).
Proof.
  intros Hbefore Hrun. cbn [focus_loop]. rewrite bind_run. simpl.
  replace (time_time (st_world s) <? end_time)%Z with true
    by (symmetry; apply Z.ltb_lt; exact Hbefore).
  rewrite bind_run, Hrun. reflexivity.
Qed.

Lemma focus_loop_deadline fuel locators end_time poll_interval s :
  (end_time ≤ clock s)%Z →
  focus_loop (S fuel) locators end_time poll_interval s
  = Some (Raise (Exn TimeoutException
                   (selenium_text
                      "Unable to focus the text field within timeout.")),
          s).
Proof.
  intros Hafter. cbn [focus_loop]. rewrite bind_run. simpl.
  replace (time_time (st_world s) <? end_time)%Z with false
    by (symmetry; apply Z.ltb_ge; exact Hafter).
  reflexivity.
Qed.

Lemma focus_loop_failed_passes locators end_time poll_interval count s s1 :
  failed_passes locators end_time poll_interval count s s1 →
  ∀ fuel,
    focus_loop (count + fuel) locators end_time poll_interval s
    = focus_loop fuel locators end_time poll_interval s1.
Proof.
  induction 1 as [s|count s sa sb s1 Hbefore Hpass Hsleep _ IH]; intros fuel.
  - reflexivity.
  - change (S count + fuel) with (S (count + fuel)).
    cbn [focus_loop]. rewrite bind_run. simpl.
    replace (time_time (st_world s) <? end_time)%Z with true
      by (symmetry; apply Z.ltb_lt; exact Hbefore).
    rewrite bind_run, Hpass, bind_run, Hsleep. apply IH.
Qed.

Section Timing.
Context `{!Clock}.

Lemma focus_first_not_earlier locators s r s1 :
  focus_first locators s = Some (r, s1) → (clock s ≤ clock s1)%Z.
Proof.
  apply (focus_first_keeps not_earlier call_not_earlier).
Qed.

Lemma sleep_clock d s s1 :
  sleep d s = Some (Ok tt, s1) → (clock s + d ≤ clock s1)%Z.
Proof.
  intros Hrun. inversion Hrun; subst. unfold clock. simpl.
  apply sleep_advances.
Qed.

(** Each failed pass takes at least the poll interval. *)
Lemma failed_passes_clock locators end_time poll_interval count s s1 :
  failed_passes locators end_time poll_interval count s s1 →
  (clock s + Z.of_nat count * poll_interval ≤ clock s1)%Z.
Proof.
  induction 1 as [s|count s sa sb s1 Hbefore Hpass Hsleep _ IH].
  - simpl. lia.
  - apply focus_first_not_earlier in Hpass. apply sleep_clock in Hsleep.
    lia.
Qed.

(** When no pass ever finds anything, the failed passes reach the
    deadline, in at most [n] passes for [n] poll intervals to go. *)
Lemma failed_passes_reach_deadline locators end_time poll_interval
    (P : state world → Prop) :
  (0 < poll_interval)%Z →
  (∀ s, P s → ∃ s1, focus_first locators s = Some (Ok None, s1)
                    ∧ P (State (time_sleep poll_interval (st_world s1))
                               (st_files s1)
                               (Slept poll_interval :: st_log s1))) →
  ∀ (n : nat) s,
    P s →
    (end_time - clock s ≤ Z.of_nat n * poll_interval)%Z →
    ∃ count s1,
      (count ≤ n)%nat
      ∧ failed_passes locators end_time poll_interval count s s1
      ∧ (end_time ≤ clock s1)%Z.
Proof.
  intros Hpoll Hnone. induction n as [|n IH]; intros s Hs Hleft.
  - exists 0, s. split; [lia|]. split; [constructor|lia].
  - destruct (Z_lt_le_dec (clock s) end_time) as [Hbefore|Hafter].
    + destruct (Hnone s Hs) as (s1 & Hpass & Hs2).
      set (s2 := State (time_sleep poll_interval (st_world s1))
                       (st_files s1) (Slept poll_interval :: st_log s1))
        in *.
      assert (Hsleep : sleep poll_interval s1 = Some (Ok tt, s2))
        by reflexivity.
      pose proof (focus_first_not_earlier _ _ _ _ Hpass) as Hc1.
      pose proof (sleep_clock _ _ _ Hsleep) as Hc2.
      destruct (IH s2 Hs2) as (count & s3 & Hcount & Hpasses & Hend);
        [lia|].
      exists (S count), s3. split; [lia|]. split; [|exact Hend].
      econstructor; eassumption.
    + exists 0, s. split; [lia|]. split; [constructor|exact Hafter].
Qed.

(** With every pass and its sleep taking at most [pass_time], failed
    passes that each start before the deadline end less than
    [pass_time] after it. *)
Lemma failed_passes_overrun locators end_time poll_interval pass_time
    count s s1 :
  (∀ sa sb sc, focus_first locators sa = Some (Ok None, sb) →
               sleep poll_interval sb = Some (Ok tt, sc) →
               (clock sc ≤ clock sa + pass_time)%Z) →
  failed_passes locators end_time poll_interval count s s1 →
  count = 0 ∨ (clock s1 < end_time + pass_time)%Z.
Proof.
  intros Hpass. induction 1 as [s|count s sa sb s1 Hbefore Hp Hs Hrest IH].
  - left. reflexivity.
  - right. destruct IH as [->|Hlt]; [|exact Hlt].
    inversion Hrest; subst. specialize (Hpass _ _ _ Hp Hs). lia.
Qed.

End Timing.

End Focus.

Section Resolution.
Context {world : Type} `{Driver world} `{!Clock}.

(** C4, as the code has it. The loop goes through the strategies in
    their order, again and again while the clock read at the start of a
    pass is before the deadline [clock s + timeout].

    With the strategies [A; B]: after any number of passes that found
    nothing, if a pass starts before the deadline in which the attempt
    on [A] finds nothing and the attempt on [B] returns an element that
    is verified as active, resolution returns that element of [B].

    With strategies none of which ever matches, and fuel for more than
    [n] passes where [n] poll intervals cover the timeout: resolution
    ends with a [TimeoutException] and returns no element; this happens
    after at most [n] failed passes, once the clock has reached the
    deadline, so the time elapsed is at least the timeout; and when each
    pass with its sleep takes at most [pass_time], the time elapsed is
    less than the timeout plus [pass_time]. *)
Theorem focus_text_field_on_resolution (timeout poll_interval : Z)
    (s : state world) :
  (0 ≤ timeout)%Z → (0 < poll_interval)%Z →
  (∀ A B count fuel s1 sA sB element,
     failed_passes [A; B] (clock s + timeout) poll_interval count s s1 →
     (clock s1 < clock s + timeout)%Z →
     focus_attempt A s1 = Some (Ok None, sA) →
     focus_attempt B sA = Some (Ok (Some element), sB) →
     focus_text_field_on [A; B] (count + S fuel) timeout poll_interval s
     = Some (Ok element, sB))
  ∧ (∀ locators (n fuel : nat),
       (∀ l s0, l ∈ locators →
          ∃ s1, focus_attempt l s0 = Some (Ok None, s1)) →
       (timeout ≤ Z.of_nat n * poll_interval)%Z →
       (n < fuel)%nat →
       ∃ e s' count,
         focus_text_field_on locators fuel timeout poll_interval s
         = Some (Raise e, s')
         ∧ exn_cls e = TimeoutException
         ∧ (count ≤ n)%nat
         ∧ failed_passes locators (clock s + timeout) poll_interval count s s'
         ∧ (clock s + timeout ≤ clock s')%Z
         ∧ ∀ pass_time,
             (∀ sa sb sc, focus_first locators sa = Some (Ok None, sb) →
                          sleep poll_interval sb = Some (Ok tt, sc) →
                          (clock sc ≤ clock sa + pass_time)%Z) →
             (clock s' < clock s + timeout + pass_time)%Z).
Proof.
  intros Htimeout Hpoll. split.
  - intros A B count fuel s1 sA sB element Hpasses Hbefore HA HB.
    unfold focus_text_field_on. rewrite bind_run. simpl.
    fold (clock s).
    rewrite (focus_loop_failed_passes _ _ _ _ _ _ Hpasses).
    apply focus_loop_found; [exact Hbefore|].
    rewrite (focus_first_skip _ _ _ _ HA).
    apply focus_first_found, HB.
  - intros locators n fuel Hnone Hn Hfuel.
    assert (Hpass : ∀ s0, True →
              ∃ s1, focus_first locators s0 = Some (Ok None, s1) ∧ True).
    { apply (focus_first_none locators (λ _, True)).
      intros l s0 Hin _. destruct (Hnone l s0 Hin) as (s1 & Hs1). eauto. }
    destruct (failed_passes_reach_deadline locators (clock s + timeout)
                poll_interval (λ _, True) Hpoll) with (n := n) (s := s)
      as (count & s' & Hcount & Hpasses & Hend).
    { intros s0 _. destruct (Hpass s0 I) as (s1 & Hs1 & _). eauto. }
    { exact I. }
    { lia. }
    eexists _, s', count. split; [|split; [|split; [exact Hcount|]]].
    + unfold focus_text_field_on. rewrite bind_run. simpl. fold (clock s).
      replace fuel with (count + S (fuel - count - 1)) by lia.
      rewrite (focus_loop_failed_passes _ _ _ _ _ _ Hpasses).
      apply focus_loop_deadline, Hend.
    + reflexivity.
    + split; [exact Hpasses|]. split; [exact Hend|].
      intros pass_time Hbound.
      destruct (failed_passes_overrun _ _ _ _ _ _ _ Hbound Hpasses)
        as [->|Hlt]; [|lia].
      inversion Hpasses; subst.
      destruct (Hpass s' I) as (s1 & Hs1 & _).
      pose proof (focus_first_not_earlier _ _ _ _ Hs1) as Hc1.
      specialize (Hbound s' s1 _ Hs1 eq_refl).
      pose proof (sleep_clock poll_interval s1 _ eq_refl) as Hc2.
      lia.
Qed.

End Resolution.

(** The clock of the unchanging page obeys the laws. *)
Lemma page_clock (p : Fixture.page) : @Clock Z (Fixture.page_driver p).
Proof.
  split.
  - intros A r t.
    assert (Hwait : ∀ (B : Type) timeout (found : option B),
              (t ≤ (Fixture.wait_for timeout found t).2)%Z).
    { intros B timeout [b|]; simpl; unfold Fixture.later; lia. }
    destruct r; simpl; try lia; try apply Hwait.
    + destruct (list_find _ _) as [[? [? ?]]|]; simpl; lia.
    + destruct (Fixture.index_of _ _); simpl; lia.
  - intros d t. simpl. unfold Fixture.later. lia.
  - intros d t. simpl. unfold Fixture.later. lia.
Qed.

(** C4, where the statement fails. On a page where nothing is ever
    found, with the strategies [A; B], a timeout of 10 s and a poll
    interval of 0.5 s, each pass takes 4.5 s (two probes of 2 s and the
    sleep); passes start at 0 s, 4.5 s and 9 s, and the
    [TimeoutException] comes at 13.5 s: the time elapsed is not bounded
    by the configured timeout. *)
Lemma focus_text_field_on_overruns_timeout :
  let A := (CSS_SELECTOR, "a") in
  let B := (CSS_SELECTOR, "b") in
  let s := Fixture.start (∅ : files) in
  ∃ e s',
    @focus_text_field_on _ (Fixture.page_driver Fixture.blank) [A; B] 30
      (seconds 10) 500 s = Some (Raise e, s')
    ∧ exn_cls e = TimeoutException
    ∧ (st_world s' - st_world s = 13500)%Z
    ∧ ¬ (st_world s' - st_world s ≤ seconds 10)%Z.
Proof.
  eexists _, _. split; [vm_compute; reflexivity|].
  split; [reflexivity|]. split; [reflexivity|]. vm_compute. congruence.
Qed.

(** The theorem on the page where nothing is found, with the strategies
    [A; B], 10 s and 0.5 s: a [TimeoutException] after at most 20 failed
    passes, at least 10 s and less than 14.5 s after the start. *)
Lemma focus_text_field_on_resolution_witness :
  let A := (CSS_SELECTOR, "a") in
  let B := (CSS_SELECTOR, "b") in
  let s := Fixture.start (∅ : files) in
  (0 ≤ seconds 10)%Z ∧ (0 < 500)%Z
  ∧ ∃ e s' count,
      @focus_text_field_on _ (Fixture.page_driver Fixture.blank) [A; B] 21
        (seconds 10) 500 s = Some (Raise e, s')
      ∧ exn_cls e = TimeoutException
      ∧ (count ≤ 20)%nat
      ∧ (st_world s + seconds 10 ≤ st_world s')%Z
      ∧ (st_world s' < st_world s + seconds 10 + 4500)%Z.
Proof.
  intros A B s. split; [vm_compute; congruence|]. split; [lia|].
  destruct (@focus_text_field_on_resolution _ (Fixture.page_driver Fixture.blank)
              (page_clock Fixture.blank) (seconds 10) 500 s)
    as [_ Hfail]; [vm_compute; congruence|lia|].
  destruct (Hfail [A; B] 20 21)
    as (e & s' & count & Hrun & Hcls & Hcount & _ & Hend & Hbound).
  - intros l s0 _. eexists. reflexivity.
  - vm_compute. congruence.
  - lia.
  - exists e, s', count. repeat split; try assumption.
    apply Hbound. intros sa sb sc Hpass Hsleep.
    cbn [focus_first] in Hpass. rewrite !bind_run in Hpass.
    inversion Hpass; subst sb. inversion Hsleep; subst sc.
    unfold clock. simpl. unfold Fixture.later, seconds. lia.
Defined.

(* ================================================================== *)
(** ** The ledger along the workflow *)

#[global] Hint Resolve fetch_github_content_keeps create_driver_keeps
  apply_cookies_keeps fetch_primary_feed_text_keeps
  dismiss_notification_popup_keeps open_profile_menu_keeps
  select_page_from_menu_keeps download_page_source_keeps
  download_image_to_temp_keeps wait_and_click_keeps focus_text_field_keeps
  input_multiline_text_keeps upload_media_keeps : keeps.
#[global] Hint Resolve call_ledger_untouched sleep_ledger_untouched
  clean_ledger_untouched writing_ledger_untouched ledger_untouched_preorder
  path_join_off_ledger : keeps.

(** A program that leaves the ledger alone. *)
Ltac quiet := repeat (first [keeps_step | solve [eauto with keeps]]).

Section LedgerOrder.
Context {world : Type} `{Driver world} `{JsonLib} `{HtmlLib} `{CryptoLib}
  `{UrlLib}.

Lemma untouched_then (s s1 s2 : state world) :
  ledger_untouched s s1 → ledger_after_submit s1 s2 →
  ledger_after_submit s s2.
Proof.
  intros Hq [Hq2|(after & button & before & Hlog & Ha & Hb)].
  - left. etransitivity; eassumption.
  - right. destruct Hq as (new & Hnew & Hqn & _).
    exists after, button, (before ++ new).
    rewrite Hlog, Hnew, <- !app_assoc. repeat split; [exact Ha|].
    apply Forall_app. auto.
Qed.

Lemma then_untouched (s s1 s2 : state world) :
  ledger_after_submit s s1 → ledger_untouched s1 s2 →
  ledger_after_submit s s2.
Proof.
  intros [Hq1|(after & button & before & Hlog & Ha & Hb)] Hq.
  - left. etransitivity; eassumption.
  - right. destruct Hq as (new & Hnew & Hqn & _).
    exists (new ++ after), button, before.
    rewrite Hnew, Hlog, <- !app_assoc. repeat split; [|exact Hb].
    apply Forall_app. auto.
Qed.

Lemma after_submit_of_untouched {A : Type} (m : M world A) :
  preserves ledger_untouched m → preserves ledger_after_submit m.
Proof. intros Hm s r s' Hrun. left. eapply Hm, Hrun. Qed.

Lemma after_submit_bind {A B : Type} (m : M world A) (k : A → M world B) :
  preserves ledger_untouched m →
  (∀ a, preserves ledger_after_submit (k a)) →
  preserves ledger_after_submit (m ≫= k).
Proof.
  intros Hm Hk s r s' Hrun. rewrite bind_run in Hrun.
  destruct (m s) as [[[a|e] s1]|] eqn:Hms; [| |discriminate].
  - eapply untouched_then; [eapply Hm, Hms|eapply Hk, Hrun].
  - inversion Hrun; subst. left. eapply Hm, Hms.
Qed.

Lemma after_submit_bind_last {A B : Type} (m : M world A)
    (k : A → M world B) :
  preserves ledger_after_submit m →
  (∀ a, preserves ledger_untouched (k a)) →
  preserves ledger_after_submit (m ≫= k).
Proof.
  intros Hm Hk s r s' Hrun. rewrite bind_run in Hrun.
  destruct (m s) as [[[a|e] s1]|] eqn:Hms; [| |discriminate].
  - eapply then_untouched; [eapply Hm, Hms|eapply Hk, Hrun].
  - inversion Hrun; subst. eapply Hm, Hms.
Qed.

Lemma unless_timeout_run {A : Type} (m : M world A) (rest : A → M world unit)
    s :
  unless_timeout m rest s =
    match m s with
    | Some (Ok a, s1) => rest a s1
    | Some (Raise e, s1) =>
        if isinstance e [TimeoutException] then Some (Ok tt, s1)
        else Some (Raise e, s1)
    | None => None
    end.
Proof.
  unfold unless_timeout. rewrite bind_run. unfold catch.
  rewrite bind_run. destruct (m s) as [[[a|e] s1]|]; try reflexivity.
  unfold on. destruct (isinstance e [TimeoutException]); reflexivity.
Qed.

Lemma after_submit_unless_timeout {A : Type} (m : M world A)
    (rest : A → M world unit) :
  preserves ledger_untouched m →
  (∀ a, preserves ledger_after_submit (rest a)) →
  preserves ledger_after_submit (unless_timeout m rest).
Proof.
  intros Hm Hrest s r s' Hrun. rewrite unless_timeout_run in Hrun.
  destruct (m s) as [[[a|e] s1]|] eqn:Hms; [| |discriminate].
  - eapply untouched_then; [eapply Hm, Hms|eapply Hrest, Hrun].
  - left. destruct (isinstance e [TimeoutException]);
      inversion Hrun; subst; eapply Hm, Hms.
Qed.

Lemma after_submit_of_untouched_attempt {A : Type} (m : M world A) :
  preserves ledger_after_submit m → preserves ledger_after_submit (attempt m).
Proof.
  intros Hm s r s' Hrun. unfold attempt in Hrun.
  destruct (m s) as [[x s1]|] eqn:Hms; [|discriminate].
  inversion Hrun; subst. eapply Hm, Hms.
Qed.

(** The click on Post and what follows it: the only place where the
    ledger is written, and only once the click has returned. *)
Lemma submit_then_record (title image : res string)
    (record : string → string → files → res files) (rest : M world unit) :
  preserves ledger_untouched rest →
  preserves ledger_after_submit
    (unless_timeout (wait_and_click POST_BUTTON_XPATH (seconds 10))
       (λ _, t ← lift title; i ← lift image;
             writing POSTED_HISTORY_FILE (record t i);; rest)).
Proof.
  intros Hrest s r s' Hrun. rewrite unless_timeout_run in Hrun.
  destruct (wait_and_click POST_BUTTON_XPATH (seconds 10) s)
    as [[[[]|e] s1]|] eqn:Hclick; [| |discriminate].
  - unfold wait_and_click in Hclick. rewrite bind_run, call_run in Hclick.
    destruct (perform (WaitElement _ _ _) (st_world s)) as [[button|e] w1];
      simpl in Hclick; [|discriminate].
    rewrite call_run in Hclick. simpl in Hclick.
    destruct (perform (Click button) w1) as [[[]|e] w2]; simpl in Hclick;
      inversion Hclick; subst s1; clear Hclick.
    rewrite bind_run in Hrun. unfold lift at 1 in Hrun.
    assert (Hsofar : ∀ r0,
      Some (r0, State w2 (st_files s)
                  (rev (submit_confirmed button) ++ st_log s))
      = Some (r, s') → ledger_after_submit s s').
    { intros r0 Heq. inversion Heq; subst. left.
      exists (rev (submit_confirmed button)). repeat split.
      repeat constructor; discriminate. }
    destruct title as [t|e]; [|eapply Hsofar, Hrun].
    rewrite bind_run in Hrun. unfold lift at 1 in Hrun.
    destruct image as [i|e]; [|eapply Hsofar, Hrun].
    rewrite bind_run in Hrun. unfold writing at 1 in Hrun. simpl in Hrun.
    destruct (record t i (st_files s)) as [fs|e]; [|eapply Hsofar, Hrun].
    right. apply Hrest in Hrun. destruct Hrun as (new & Hnew & Hq & _).
    exists new, button, []. simpl in Hnew. rewrite Hnew.
    repeat split; [exact Hq|constructor].
  - left. assert (Hquiet : ledger_untouched s s1).
    { eapply (wait_and_click_keeps ledger_untouched call_ledger_untouched),
        Hclick. }
    destruct (isinstance e [TimeoutException]); inversion Hrun; subst;
      exact Hquiet.
Qed.

End LedgerOrder.

(** One step of a proof that a program writes the ledger only after a
    confirmed submit: the part before the continuation is quiet. *)
Ltac ledger_step :=
  lazymatch goal with
  | |- preserves ledger_after_submit (unless_timeout _ _) =>
      refine (after_submit_unless_timeout _ _ _ _); [quiet|intros ?]
  | |- preserves ledger_after_submit (_ ≫= _) =>
      refine (after_submit_bind _ _ _ _); [quiet|intros ?]
  | |- preserves ledger_after_submit (if ?b then _ else _) => destruct b
  | |- preserves ledger_after_submit (match ?x with _ => _ end) => destruct x
  end.

Section LedgerClaim.
Context {world : Type} `{Driver world} `{JsonLib} `{HtmlLib} `{CryptoLib}
  `{UrlLib}.

Lemma compose_and_submit_ledger fuel candidate description_html
    description_lines temp_dir :
  preserves ledger_after_submit
    (compose_and_submit fuel candidate description_html description_lines
       temp_dir).
Proof.
  unfold compose_and_submit. do 7 ledger_step.
  apply (submit_then_record (get_stripped "title" candidate)
           (get_stripped "image" candidate)
           (λ t i fs, append_post_history fs POSTED_HISTORY_FILE
                        (history_entry t description_html i))).
  quiet.
Qed.

Lemma publish_ledger fuel cookies :
  preserves ledger_after_submit (publish fuel cookies).
Proof.
  unfold publish. do 5 ledger_step.
  destruct a3 as [candidate|]; [|apply after_submit_of_untouched; quiet].
  destruct (truthy candidate); [|apply after_submit_of_untouched; quiet].
  do 12 ledger_step.
  refine (after_submit_bind _ _ _ _); [quiet|intros ?].
  apply compose_and_submit_ledger.
Qed.

Lemma main_ledger fuel environ :
  preserves ledger_after_submit (main fuel environ).
Proof.
  unfold main. ledger_step. destruct a as [cookies|e];
    [|apply after_submit_of_untouched; quiet].
  ledger_step. destruct a as [[]|e].
  - refine (after_submit_bind_last _ _ _ _).
    + apply after_submit_of_untouched_attempt, publish_ledger.
    + intros body. quiet.
  - apply after_submit_of_untouched. quiet.
Qed.

End LedgerClaim.

Section LedgerTheorem.
Context {world : Type} `{Driver world} `{JsonLib} `{HtmlLib} `{CryptoLib}
  `{UrlLib}.

(** C3. In every run of [main] that ends, the events of the run either
    include no write of the ledger, and then the ledger file is as it
    was, or include exactly one, and it comes right after the two events
    of a confirmed submit: the wait for the Post button returned the
    button and the click on it returned. *)
Theorem ledger_written_only_after_submit (fuel : nat)
    (environ : gmap string string) (s : state world) r s' :
  main fuel environ s = Some (r, s') →
  ∃ new,
    trace s' = trace s ++ new
    ∧ ((Forall off_ledger new
        ∧ st_files s' !! POSTED_HISTORY_FILE
          = st_files s !! POSTED_HISTORY_FILE)
       ∨ ∃ before button after,
           new = before ++ submit_confirmed button
                 ++ Wrote POSTED_HISTORY_FILE :: after
           ∧ Forall off_ledger before ∧ Forall off_ledger after).
Proof.
  intros Hrun. apply main_ledger in Hrun.
  destruct Hrun as [(new & Hlog & Hq & Hfile)
                   |(after & button & before & Hlog & Ha & Hb)].
  - exists (rev new). unfold trace. rewrite Hlog, rev_app_distr.
    split; [reflexivity|]. left. split; [|exact Hfile].
    apply Forall_rev, Hq.
  - exists (rev before ++ submit_confirmed button
            ++ Wrote POSTED_HISTORY_FILE :: rev after).
    unfold trace. rewrite Hlog. split.
    + rewrite rev_app_distr. cbn [rev]. rewrite !rev_app_distr, rev_involutive.
      rewrite <- !app_assoc. reflexivity.
    + right. exists (rev before), button, (rev after).
      split; [reflexivity|]. split; apply Forall_rev; assumption.
Qed.

End LedgerTheorem.

(** The theorem on the run in which everything is found and every click
    goes through. *)
Lemma ledger_written_only_after_submit_witness :
  let s := Fixture.start Fixture.cookie_files in
  let s' := Fixture.final Fixture.complete in
  Fixture.run_main Fixture.complete = Some (Ok 0%Z, s')
  ∧ ∃ new,
      trace s' = trace s ++ new
      ∧ ((Forall off_ledger new
          ∧ st_files s' !! POSTED_HISTORY_FILE
            = st_files s !! POSTED_HISTORY_FILE)
         ∨ ∃ before button after,
             new = before ++ submit_confirmed button
                   ++ Wrote POSTED_HISTORY_FILE :: after
             ∧ Forall off_ledger before ∧ Forall off_ledger after).
Proof.
  intros s s'. split; [vm_compute; reflexivity|].
  apply (@ledger_written_only_after_submit Z
           (Fixture.page_driver Fixture.complete) Fixture.json_lib
           Fixture.html_lib Fixture.crypto_lib Fixture.url_lib 30
           Fixture.environ s (Ok 0%Z) s').
  vm_compute. reflexivity.
Defined.

(** The same run, as the specification tells it: the feed holds the
    item "X", the ledger does not exist; the item is selected and, the
    submit having gone through, the ledger loads as exactly one entry,
    with the description "<p>Hello</p>". *)
Example first_post_is_recorded :
  @load_post_history Fixture.json_lib
     (st_files (Fixture.final Fixture.complete)) POSTED_HISTORY_FILE
  = Ok [history_entry "X" "<p>Hello</p>" ""].
Proof. vm_compute. reflexivity. Qed.

(* ================================================================== *)
(** ** The exit status *)

Section ExitStatus.
Context {world : Type} `{Driver world} `{JsonLib} `{HtmlLib} `{CryptoLib}
  `{UrlLib}.

Lemma exits_on_iff e :
  exits_on e = true
  ↔ exn_cls e = ElementNotInteractableException
    ∧ contains "element not interactable" (exn_text e) = true.
Proof.
  unfold exits_on, isinstance. destruct e as [cls text]. simpl.
  rewrite andb_true_iff. destruct cls; simpl; split;
    intros [Hc Ht]; try discriminate; auto.
Qed.

Lemma attempt_run {A : Type} (m : M world A) s :
  attempt m s =
    match m s with
    | Some (r, s1) => Some (Ok r, s1)
    | None => None
    end.
Proof. reflexivity. Qed.

(** When [fetch_github_content] returns, the one file it has written is
    [content.json] in the directory it was given. *)
Lemma fetch_github_content_files temp_dir (s : state world) content_file s1 :
  fetch_github_content temp_dir s = Some (Ok content_file, s1) →
  ∀ other, other ≠ path_join temp_dir CONTENT_FILENAME →
    st_files s1 !! other = st_files s !! other.
Proof.
  unfold fetch_github_content. rewrite bind_run. unfold catch at 1.
  rewrite bind_run, call_run.
  destruct (perform (Get GITHUB_CONTENT_URL) (st_world s)) as [[[]|e1] w1];
    simpl.
  - rewrite bind_run, call_run. simpl.
    destruct (perform (WaitElement _ _ _) w1) as [[el|e2] w2]; simpl.
    + rewrite call_run. simpl.
      destruct (perform (Text el) w2) as [[text|e3] w3]; simpl.
      * rewrite bind_run. simpl. intros Hrun. inversion Hrun; subst.
        intros other Hne. simpl. unfold write_text.
        rewrite lookup_insert_ne by congruence. reflexivity.
      * unfold on. destruct (isinstance e3 _); intros Hrun; discriminate.
    + unfold on. destruct (isinstance e2 _); intros Hrun; discriminate.
  - unfold on. destruct (isinstance e1 _); intros Hrun; discriminate.
Qed.

(** C5, as the code has it. A run of [main] that ends gives the status
    0 or 1.
    - When the cookies cannot be loaded the status is 1 and nothing else
      is done.
    - When the [try] block completes ([publish] returns), the status is
      0, unless quitting the driver raises.
    - When an exception leaves the [try] block, the status is 1 exactly
      when it is an [ElementNotInteractableException] whose text holds
      "element not interactable" (or quitting the driver raises); every
      other exception, a [TimeoutException] among them, gives 0.
    - Nothing new to post is a completion: when the selector returns
      [None], [publish] returns.
    - A guarded step of the workflow that times out is a completion too:
      [unless_timeout] returns. *)
Theorem main_exit_status (fuel : nat) (environ : gmap string string)
    (s : state world) r s' :
  main fuel environ s = Some (r, s') →
  (∃ code,
     r = Ok code ∧ (code = 0 ∨ code = 1)%Z
     ∧ (∀ e, load_cookies (st_files s) environ COOKIES_FILE = Raise e →
          code = 1%Z ∧ s' = s)
     ∧ (∀ cookies e s1,
          load_cookies (st_files s) environ COOKIES_FILE = Ok cookies →
          create_driver s = Some (Raise e, s1) →
          s' = s1 ∧ (code = 1%Z ↔ exits_on e = true))
     ∧ (∀ cookies s1 body s2 quit s3,
          load_cookies (st_files s) environ COOKIES_FILE = Ok cookies →
          create_driver s = Some (Ok tt, s1) →
          publish fuel cookies s1 = Some (body, s2) →
          call Quit s2 = Some (quit, s3) →
          s' = s3
          ∧ match quit, body with
            | Raise _, _ => code = 1%Z
            | Ok _, Ok _ => code = 0%Z
            | Ok _, Raise e => code = 1%Z ↔ exits_on e = true
            end))
  ∧ (∀ e, exits_on e = true
          ↔ exn_cls e = ElementNotInteractableException
            ∧ contains "element not interactable" (exn_text e) = true)
  ∧ (∀ cookies s0 sc s1 content_file content_items history,
       ensure_temp_dir true s0 = Some (Ok TEMP_DIR, sc) →
       fetch_github_content TEMP_DIR sc = Some (Ok content_file, s1) →
       load_content_items (st_files s1) content_file = Ok content_items →
       load_post_history (st_files s1) POSTED_HISTORY_FILE = Ok history →
       find_next_content_item content_items history = Ok None →
       ∃ s2, publish fuel cookies s0 = Some (Ok tt, s2))
  ∧ (∀ (A : Type) (m : M world A) rest s0 e s1,
       m s0 = Some (Raise e, s1) → exn_cls e = TimeoutException →
       unless_timeout m rest s0 = Some (Ok tt, s1)).
Proof.
  intros Hrun. split; [|split; [exact exits_on_iff|split]].
  - unfold main in Hrun. rewrite bind_run, attempt_run in Hrun.
    unfold reading at 1 in Hrun.
    destruct (load_cookies (st_files s) environ COOKIES_FILE)
      as [cookies|e0] eqn:Hload.
    + rewrite bind_run, attempt_run in Hrun.
      destruct (create_driver s) as [[[[]|e1] s1]|] eqn:Hdriver;
        [| |discriminate].
      * rewrite bind_run, attempt_run in Hrun.
        destruct (publish fuel cookies s1) as [[body s2]|] eqn:Hbody;
          [|discriminate].
        rewrite bind_run, attempt_run in Hrun.
        destruct (call Quit s2) as [[quit s3]|] eqn:Hquit; [|discriminate].
        assert (Hcode : ∃ code, r = Ok code ∧ s' = s3
                  ∧ (code = 0 ∨ code = 1)%Z
                  ∧ match quit, body with
                    | Raise _, _ => code = 1%Z
                    | Ok _, Ok _ => code = 0%Z
                    | Ok _, Raise e => code = 1%Z ↔ exits_on e = true
                    end).
        { destruct quit as [[]|eq], body as [[]|eb];
            try (inversion Hrun; subst; eexists; repeat split; auto; fail).
          destruct (exits_on eb) eqn:Hexit; inversion Hrun; subst;
            eexists; repeat split; auto; discriminate. }
        destruct Hcode as (code & -> & -> & H01 & Hcase).
        exists code. split; [reflexivity|]. split; [exact H01|].
        split; [intros e He; discriminate|].
        split; [intros c e s4 _ Hd; discriminate|].
        intros c s4 b s5 q s6 Hc Hd Hp Hq.
        inversion Hc; subst c. inversion Hd; subst s4.
        rewrite Hbody in Hp. inversion Hp; subst.
        rewrite Hquit in Hq. inversion Hq; subst. auto.
      * simpl in Hrun.
        exists (if exits_on e1 then 1 else 0)%Z.
        inversion Hrun; subst. split; [reflexivity|].
        split; [destruct (exits_on e1); auto|].
        split; [intros e He; discriminate|]. split.
        -- intros c e s4 _ Hd. inversion Hd; subst. split; [reflexivity|].
           destruct (exits_on e); split; congruence.
        -- intros c s4 b s5 q s6 _ Hd. discriminate.
    + simpl in Hrun. inversion Hrun; subst. exists 1%Z.
      split; [reflexivity|]. split; [auto|].
      split; [auto|]. split; intros; discriminate.
  - intros cookies s0 sc s1 content_file content_items history
      Hclean Hfetch Hitems Hhist Hnone.
    assert (Hdir : st_files s1 !! TEMP_DIR = None).
    { rewrite (fetch_github_content_files _ _ _ _ Hfetch)
        by (intros Heq; vm_compute in Heq; discriminate).
      rewrite ensure_temp_dir_run in Hclean.
      destruct (st_files s0 !! TEMP_DIR) eqn:Hd; [discriminate|].
      inversion Hclean; subst. simpl.
      apply map_lookup_filter_None. left. exact Hd. }
    unfold publish. rewrite bind_run, Hclean, bind_run, Hfetch.
    rewrite bind_run. unfold reading at 1. rewrite Hitems.
    rewrite bind_run. unfold reading at 1. rewrite Hhist.
    rewrite bind_run. unfold lift at 1. rewrite Hnone.
    rewrite bind_run, ensure_temp_dir_run, Hdir. eexists. reflexivity.
  - intros A m rest s0 e s1 Hm Hcls. rewrite unless_timeout_run, Hm.
    unfold isinstance. rewrite Hcls. reflexivity.
Qed.

End ExitStatus.

(** C5, where the statement fails. On a page where the create-post
    trigger is never found, the wait for it times out, [main] prints and
    returns, and the process ends with status 0; so it does on a page
    where the profile button is never found, although there the
    [TimeoutException] leaves the [try] block. *)
Lemma main_exits_zero_when_element_never_found :
  (Fixture.run_main Fixture.no_trigger
   = Some (Ok 0%Z, Fixture.final Fixture.no_trigger)
   ∧ trace (Fixture.final Fixture.no_trigger)
     = rev (drop 2 (st_log (Fixture.final Fixture.no_trigger)))
       ++ [ Performed
              (WaitElement (seconds 15) Clickable Fixture.trigger)
              (Raise Fixture.timed_out);
            Performed Quit (Ok tt) ])
  ∧ Fixture.run_main Fixture.no_profile_button
    = Some (Ok 0%Z, Fixture.final Fixture.no_profile_button).
Proof.
  split; [split|]; vm_compute; reflexivity.
Qed.

(** The theorem on the run in which the create-post trigger is found but
    cannot be clicked: the status is 1. *)
Lemma main_exit_status_witness :
  let s' := Fixture.final Fixture.stubborn_trigger in
  Fixture.run_main Fixture.stubborn_trigger = Some (Ok 1%Z, s')
  ∧ ∃ code, Ok 1%Z = Ok code ∧ (code = 0 ∨ code = 1)%Z.
Proof.
  intros s'. split; [vm_compute; reflexivity|].
  destruct (@main_exit_status Z
              (Fixture.page_driver Fixture.stubborn_trigger) Fixture.json_lib
              Fixture.html_lib Fixture.crypto_lib Fixture.url_lib 30
              Fixture.environ (Fixture.start Fixture.cookie_files)
              (Ok 1%Z) s')
    as [(code & Hcode & H01 & _) _]; [vm_compute; reflexivity|].
  exists code. split; assumption.
Defined.

(* ################################################################## *)
(** * Further properties of the code *)

(* ================================================================== *)
(** ** Stripping *)

Lemma rstrip_cons_nonspace c s :
  isspace c = false → rstrip (String c s) = String c (rstrip s).
Proof. intros Hc. cbn [rstrip]. rewrite Hc. destruct (rstrip s); reflexivity. Qed.

Lemma rstrip_idempotent s : rstrip (rstrip s) = rstrip s.
Proof.
  induction s as [|c s IH]; [reflexivity|]. cbn [rstrip].
  destruct (rstrip s) as [|k kept] eqn:Hr.
  - destruct (isspace c) eqn:Hc; [reflexivity|].
    cbn [rstrip]. rewrite Hc. reflexivity.
  - cbn [rstrip]. cbn [rstrip] in IH.
    destruct (rstrip kept) as [|k' kept'] eqn:Hk.
    + destruct (isspace k); [discriminate|]. inversion IH; subst. reflexivity.
    + inversion IH; subst. reflexivity.
Qed.

(** What [lstrip] returns is empty or starts with a character that is
    not white space. *)
Lemma lstrip_head s :
  lstrip s = "" ∨ ∃ c rest, lstrip s = String c rest ∧ isspace c = false.
Proof.
  induction s as [|c s IH]; [left; reflexivity|]. cbn [lstrip].
  destruct (isspace c) eqn:Hc; [exact IH|]. right. eauto.
Qed.

Lemma lstrip_cons_nonspace c s :
  isspace c = false → lstrip (String c s) = String c s.
Proof. intros Hc. cbn [lstrip]. rewrite Hc. reflexivity. Qed.

Lemma strip_idempotent s : strip (strip s) = strip s.
Proof.
  unfold strip. destruct (lstrip_head s) as [->|(c & rest & -> & Hc)].
  - reflexivity.
  - rewrite (rstrip_cons_nonspace _ _ Hc), (lstrip_cons_nonspace _ _ Hc).
    rewrite <- (rstrip_cons_nonspace _ _ Hc). apply rstrip_idempotent.
Qed.

(* ================================================================== *)
(** ** The ledger and the selector together *)

Lemma described_history_entry title description image :
  described (history_entry title description image) (strip description).
Proof.
  unfold described, history_entry, get_stripped.
  rewrite lookup_insert_ne by discriminate.
  rewrite lookup_insert_eq. reflexivity.
Qed.

Lemma described_stripped v d : described v d → strip d = d.
Proof.
  unfold described, get_stripped. intros Hd.
  destruct v as [| | | | | |m]; try discriminate.
  destruct (default (JStr "") (m !! "description")); try discriminate.
  inversion Hd; subst. apply strip_idempotent.
Qed.

(** X1. [has_been_posted] answers whether the stripped description is
    the stripped description of some history entry, and so does not
    depend on white space around the description it is given. It raises
    only when an entry before the first match is not a record. *)
Theorem has_been_posted_iff_posted (history : list json)
    (description : string) :
  (∀ b, has_been_posted history description = Ok b →
     (b = true ↔ posted history (strip description)))
  ∧ has_been_posted history (strip description)
    = has_been_posted history description
  ∧ (Forall (λ e, ∃ d, described e d) history →
     ∃ b, has_been_posted history description = Ok b).
Proof.
  split; [|split].
  - unfold has_been_posted.
    induction history as [|entry history IH]; intros b Hb.
    + inversion Hb; subst. split; [discriminate|].
      intros (e & He & _). inversion He.
    + destruct (get_stripped "description" entry) as [d|] eqn:Hd;
        simpl in Hb; [|discriminate].
      destruct (bool_decide (d = strip description)) eqn:Heq.
      * inversion Hb; subst b. apply bool_decide_eq_true in Heq. subst d.
        split; [|reflexivity]. intros _. exists entry. split; [left|exact Hd].
      * apply bool_decide_eq_false in Heq. specialize (IH b Hb).
        rewrite IH. split.
        -- intros (e & He & Hde). exists e. split; [right; exact He|exact Hde].
        -- intros (e & He & Hde). apply elem_of_cons in He as [->|He].
           ++ unfold described in Hde. congruence.
           ++ exists e. auto.
  - unfold has_been_posted. rewrite strip_idempotent. reflexivity.
  - unfold has_been_posted. induction 1 as [|entry history (d & Hd) _ IH].
    + eauto.
    + unfold described in Hd. rewrite Hd. simpl.
      destruct (bool_decide (d = strip description)); eauto.
Qed.

(** What the selector returns has a description that is not in the
    history. *)
Lemma selected_is_unposted feed history item :
  find_next_content_item feed history = Ok (Some item) →
  ∃ d, described item d ∧ d ≠ "" ∧ ¬ posted history d.
Proof.
  unfold find_next_content_item. intros Hr.
  destruct (map_res _ history) as [ds|] eqn:Hds; simpl in Hr;
    [|discriminate].
  pose proof (map_res_Ok_elem _ _ Hds) as Hposted.
  eapply (scan_returns_first (list_to_set ds) history) in Hr.
  - destruct Hr as (before & after & d & _ & _ & Hd & Hne & Hnp). eauto.
  - intros d. rewrite elem_of_list_to_set. apply Hposted.
Qed.

Lemma recorded_passed_over feed history item d title image r :
  described item d →
  find_next_content_item feed (history_entry title d image :: history)
  = Ok r →
  r ≠ Some item ∧ ∀ item', r = Some item' → ¬ described item' d.
Proof.
  intros Hd Hr.
  assert (Hnot : ∀ item', r = Some item' → ¬ described item' d).
  { intros item' -> Hd'.
    apply selected_is_unposted in Hr as (d' & Hdesc & _ & Hnp).
    assert (d' = d) by (unfold described in *; congruence). subst d'.
    apply Hnp. exists (history_entry title d image). split; [left|].
    rewrite <- (described_stripped _ _ Hd) at 2.
    apply described_history_entry. }
  split; [|exact Hnot].
  intros ->. exact (Hnot item eq_refl Hd).
Qed.

(** X2. No second post: once the entry that [main] builds for an item,
    with the item's stripped description, is put in front of the
    history, the selector does not return that item, nor any item with
    the same stripped description, whatever the feed. *)
Theorem recorded_item_not_selected_again (feed history : list json)
    (item : json) (d title image : string) :
  described item d →
  ∀ r, find_next_content_item feed (history_entry title d image :: history)
       = Ok r →
    r ≠ Some item ∧ ∀ item', r = Some item' → ¬ described item' d.
Proof. intros Hd r Hr. eapply recorded_passed_over; eassumption. Qed.

(** The theorem on the feed with the one item "X": no item is selected
    the second time. *)
Lemma recorded_item_not_selected_again_witness :
  let entry := history_entry "X" "<p>Hello</p>" "" in
  find_next_content_item [Fixture.item_x] [entry] = Ok None
  ∧ (None ≠ Some Fixture.item_x
     ∧ ∀ item', None = Some item' → ¬ described item' "<p>Hello</p>").
Proof.
  intros entry. split; [vm_compute; reflexivity|].
  apply (recorded_item_not_selected_again [Fixture.item_x] [] Fixture.item_x
           "<p>Hello</p>" "X" "").
  - vm_compute. reflexivity.
  - vm_compute. reflexivity.
Defined.

Section LedgerSelector.
Context `{JsonLib}.

(** X3. The same through the ledger file: after [append_post_history]
    has written the entry of an item, the history that
    [load_post_history] returns makes the selector pass over that
    item. *)
Theorem appended_item_not_selected_again (fs : files) (history_file : string)
    (feed history : list json) (item : json) (d title image : string) :
  load_post_history fs history_file = Ok history →
  json_loads (json_dumps (JList (history_entry title d image :: history)))
    = Some (JList (history_entry title d image :: history)) →
  described item d →
  ∃ fs' history',
    append_post_history fs history_file (history_entry title d image) = Ok fs'
    ∧ load_post_history fs' history_file = Ok history'
    ∧ ∀ r, find_next_content_item feed history' = Ok r →
        r ≠ Some item ∧ ∀ item', r = Some item' → ¬ described item' d.
Proof.
  intros Hload Hcodec Hd. unfold append_post_history. rewrite Hload. simpl.
  exists (write_text history_file
            (json_dumps (JList (history_entry title d image :: history))) fs),
    (history_entry title d image :: history).
  split; [reflexivity|]. split.
  - unfold load_post_history, write_text. rewrite lookup_insert_eq. simpl.
    rewrite Hcodec. f_equal. apply filter_is_dict_id.
    constructor; [reflexivity|].
    eapply load_post_history_dicts, Hload.
  - intros r. apply recorded_passed_over. exact Hd.
Qed.

End LedgerSelector.

(** The theorem on an absent ledger and the feed with the one item
    "X". *)
Lemma appended_item_not_selected_again_witness :
  ∃ fs' history',
    @append_post_history Fixture.json_lib ∅ POSTED_HISTORY_FILE
      (history_entry "X" "<p>Hello</p>" "") = Ok fs'
    ∧ @load_post_history Fixture.json_lib fs' POSTED_HISTORY_FILE
      = Ok history'
    ∧ ∀ r, find_next_content_item [Fixture.item_x] history' = Ok r →
        r ≠ Some Fixture.item_x
        ∧ ∀ item', r = Some item' → ¬ described item' "<p>Hello</p>".
Proof.
  apply (@appended_item_not_selected_again Fixture.json_lib ∅
           POSTED_HISTORY_FILE [Fixture.item_x] [] Fixture.item_x
           "<p>Hello</p>" "X" "").
  - vm_compute. reflexivity.
  - vm_compute. reflexivity.
  - vm_compute. reflexivity.
Defined.

(** The theorem on a history of two records. *)
Lemma has_been_posted_iff_posted_witness :
  let history := [history_entry "a" " one " ""; history_entry "b" "two" ""] in
  has_been_posted history "  two " = Ok true
  ∧ (true = true ↔ posted history (strip "  two ")).
Proof.
  intros history. split; [vm_compute; reflexivity|].
  apply (proj1 (has_been_posted_iff_posted history "  two ") true).
  vm_compute. reflexivity.
Defined.

(* ================================================================== *)
(** ** Cookies *)

Section CookieFacts.
Context `{JsonLib}.

Lemma pick_keys_dict (d : gmap string json) keys :
  ∃ picked,
    pick_keys keys (JDict d) = Ok picked
    ∧ ∀ k, picked !! k = if bool_decide (k ∈ keys) then d !! k else None.
Proof.
  induction keys as [|key rest (picked & Hpick & Hlook)]; cbn [pick_keys].
  - exists ∅. split; [reflexivity|]. intros k.
    rewrite lookup_empty. rewrite bool_decide_eq_false_2; [reflexivity|].
    apply not_elem_of_nil.
  - simpl. destruct (d !! key) as [v|] eqn:Hkey.
    + rewrite bool_decide_eq_true_2 by eauto. simpl. rewrite Hpick. simpl.
      exists (<[key := v]> picked). split; [reflexivity|]. intros k.
      destruct (decide (k = key)) as [->|Hne].
      * rewrite lookup_insert_eq, bool_decide_eq_true_2 by left.
        symmetry. exact Hkey.
      * rewrite lookup_insert_ne by congruence. rewrite Hlook.
        destruct (bool_decide (k ∈ rest)) eqn:Hin.
        -- apply bool_decide_eq_true in Hin.
           rewrite bool_decide_eq_true_2 by (right; exact Hin). reflexivity.
        -- apply bool_decide_eq_false in Hin.
           rewrite bool_decide_eq_false_2; [reflexivity|].
           intros Hk. apply elem_of_cons in Hk as [?|?]; tauto.
    + rewrite bool_decide_eq_false_2 by (intros [? ?]; discriminate).
      simpl. exists picked. split; [exact Hpick|]. intros k.
      rewrite Hlook. destruct (decide (k = key)) as [->|Hne].
      * rewrite Hkey. destruct (bool_decide (key ∈ rest));
          destruct (bool_decide (key ∈ key :: rest)); reflexivity.
      * destruct (bool_decide (k ∈ rest)) eqn:Hin.
        -- apply bool_decide_eq_true in Hin.
           rewrite bool_decide_eq_true_2 by (right; exact Hin). reflexivity.
        -- apply bool_decide_eq_false in Hin.
           rewrite bool_decide_eq_false_2; [reflexivity|].
           intros Hk. apply elem_of_cons in Hk as [?|?]; tauto.
Qed.

(** X4. [sanitize_cookie] on a cookie that is a dict. It raises exactly
    when the cookie has an expiry that [int] rejects, and with that
    error. Otherwise the result has no key outside
    [ALLOWED_COOKIE_KEYS], has under every allowed key other than
    "expiry" what the cookie has there, and has under "expiry" the
    integer that [int] makes of the cookie's expiry, if the cookie has
    one. *)
Theorem sanitize_cookie_dict (d : gmap string json) :
  let kept (expiry : option json) (sanitized : gmap string json) : Prop :=
    ∀ k, sanitized !! k =
           if bool_decide (k ∈ ALLOWED_COOKIE_KEYS) then
             if bool_decide (k = "expiry") then expiry else d !! k
           else None in
  match d !! "expiry" with
  | None =>
      ∃ sanitized, sanitize_cookie (JDict d) = Ok sanitized
                   ∧ kept None sanitized
  | Some v =>
      match py_int v with
      | Ok z =>
          ∃ sanitized, sanitize_cookie (JDict d) = Ok sanitized
                       ∧ kept (Some (JInt z)) sanitized
      | Raise e => sanitize_cookie (JDict d) = Raise e
      end
  end.
Proof.
  intros kept. unfold sanitize_cookie.
  destruct (pick_keys_dict d ALLOWED_COOKIE_KEYS) as (picked & -> & Hlook).
  simpl. rewrite (Hlook "expiry").
  rewrite bool_decide_eq_true_2
    by (unfold ALLOWED_COOKIE_KEYS; set_solver).
  destruct (d !! "expiry") as [v|] eqn:Hexp.
  - destruct (py_int v) as [z|e]; simpl; [|reflexivity].
    eexists. split; [reflexivity|]. intros k.
    destruct (decide (k = "expiry")) as [->|Hne].
    + rewrite lookup_insert_eq.
      rewrite bool_decide_eq_true_2
        by (unfold ALLOWED_COOKIE_KEYS; set_solver).
      rewrite bool_decide_eq_true_2 by reflexivity. reflexivity.
    + rewrite lookup_insert_ne by congruence. rewrite Hlook.
      rewrite (bool_decide_eq_false_2 (k = "expiry")) by exact Hne.
      reflexivity.
  - exists picked. split; [reflexivity|]. intros k. rewrite Hlook.
    destruct (bool_decide (k ∈ ALLOWED_COOKIE_KEYS)); [|reflexivity].
    destruct (bool_decide (k = "expiry")) eqn:Hk; [|reflexivity].
    apply bool_decide_eq_true in Hk. subst k. exact Hexp.
Qed.

End CookieFacts.

Section ApplyCookies.
Context {world : Type} `{Driver world} `{JsonLib}.

Lemma trace_call {A : Type} (r : request A) (s : state world) out s' :
  call r s = Some (out, s') →
  trace s' = trace s ++ [Performed r out] ∧ st_files s' = st_files s.
Proof.
  rewrite call_run. intros Hrun. inversion Hrun; subst.
  unfold trace. simpl. auto.
Qed.

Lemma add_cookies_trace cookies : ∀ s s',
  add_cookies cookies s = Some (Ok tt, s') →
  ∃ sanitized,
    map_res sanitize_cookie cookies = Ok sanitized
    ∧ trace s' = trace s
                 ++ ((λ c, Performed (AddCookie c) (Ok tt))
                       <$> filter (λ c, has_identity c = true) sanitized)
    ∧ st_files s' = st_files s.
Proof.
  induction cookies as [|cookie rest IH]; intros s s' Hrun;
    cbn [add_cookies] in Hrun.
  - inversion Hrun; subst. exists []. rewrite app_nil_r. auto.
  - rewrite bind_run in Hrun. unfold lift at 1 in Hrun.
    destruct (sanitize_cookie cookie) as [c|e] eqn:Hsan; [|discriminate].
    rewrite bind_run in Hrun. fold (has_identity c) in Hrun.
    cbn [map_res]. rewrite Hsan. simpl.
    destruct (has_identity c) eqn:Hid.
    + destruct (call (AddCookie c) s) as [[[[]|e] s1]|] eqn:Hcall;
        try discriminate.
      apply trace_call in Hcall as [Ht1 Hf1].
      destruct (IH _ _ Hrun) as (sanitized & -> & Ht & Hf).
      exists (c :: sanitized). split; [reflexivity|].
      rewrite filter_cons_True by exact Hid.
      rewrite Ht, Ht1, Hf, Hf1, <- app_assoc. auto.
    + simpl in Hrun. destruct (IH _ _ Hrun) as (sanitized & -> & Ht & Hf).
      exists (c :: sanitized). split; [reflexivity|].
      rewrite filter_cons_False by congruence. auto.
Qed.

(** X5. When [apply_cookies] returns, every cookie was sanitized
    without error, and what the driver was asked is: delete all cookies,
    then add, in the order of the list, the sanitized form of each cookie
    that has a domain, a name and a value; the other cookies are passed
    over in silence. *)
Theorem apply_cookies_adds_identified (cookies : list json)
    (s s' : state world) :
  apply_cookies cookies s = Some (Ok tt, s') →
  ∃ sanitized,
    map_res sanitize_cookie cookies = Ok sanitized
    ∧ trace s' = trace s
                 ++ Performed DeleteAllCookies (Ok tt)
                 :: ((λ c, Performed (AddCookie c) (Ok tt))
                       <$> filter (λ c, has_identity c = true) sanitized)
    ∧ st_files s' = st_files s.
Proof.
  unfold apply_cookies. intros Hrun. rewrite bind_run in Hrun.
  destruct (call DeleteAllCookies s) as [[[[]|e] s1]|] eqn:Hcall;
    try discriminate.
  apply trace_call in Hcall as [Ht1 Hf1].
  destruct (add_cookies_trace _ _ _ Hrun) as (sanitized & Hsan & Ht & Hf).
  exists sanitized. split; [exact Hsan|].
  rewrite Ht, Ht1, Hf, Hf1, <- app_assoc. auto.
Qed.

End ApplyCookies.

(** The theorem on three cookies, of which the second has no value. *)
Lemma apply_cookies_adds_identified_witness :
  let full (n : string) : gmap string json :=
    <["domain" := JStr ".facebook.com"]>
      (<["name" := JStr n]> (<["value" := JStr "1"]> ∅)) in
  let cookies :=
    [ JDict (<["hostOnly" := JBool false]> (full "c_user"));
      JDict (<["domain" := JStr ".facebook.com"]> (<["name" := JStr "x"]> ∅));
      JDict (full "xs") ] in
  let s := Fixture.start ∅ in
  ∃ s',
    @apply_cookies _ (Fixture.page_driver Fixture.blank) Fixture.json_lib
      cookies s = Some (Ok tt, s')
    ∧ trace s'
      = [ Performed DeleteAllCookies (Ok tt);
          Performed (AddCookie (full "c_user")) (Ok tt);
          Performed (AddCookie (full "xs")) (Ok tt) ].
Proof.
  intros full cookies s. eexists. split; [vm_compute; reflexivity|].
  destruct (@apply_cookies_adds_identified _ (Fixture.page_driver Fixture.blank)
              Fixture.json_lib cookies s
              (State 0%Z ∅
                 [ Performed (AddCookie (full "xs")) (Ok tt);
                   Performed (AddCookie (full "c_user")) (Ok tt);
                   Performed DeleteAllCookies (Ok tt) ]))
    as (sanitized & Hsan & Htrace & _); [vm_compute; reflexivity|].
  vm_compute. reflexivity.
Defined.

(* ================================================================== *)
(** ** The element that the resolution returns *)

Section Verified.
Context {world : Type} `{Driver world}.

Lemma catch_Ok {A : Type} (m : M world A) classes (fallback : A) s a s' :
  catch m (on classes (λ _, mret fallback)) s = Some (Ok a, s') →
  m s = Some (Ok a, s')
  ∨ a = fallback ∧ ∃ e, m s = Some (Raise e, s') ∧ isinstance e classes = true.
Proof.
  unfold catch, on. destruct (m s) as [[[a0|e] s1]|]; [auto| |discriminate].
  destruct (isinstance e classes) eqn:Hi; [|discriminate].
  intros Hrun. inversion Hrun; subst. right. eauto.
Qed.

Lemma focus_attempt_verified locator s element s' :
  focus_attempt locator s = Some (Ok (Some element), s') →
  ∃ v rest,
    st_log s' = Performed (ExecuteScript is_active_script element) (Ok v)
                :: rest
    ∧ truthy v = true
    ∧ Performed (WaitElement (seconds 2) Presence locator) (Ok element)
      ∈ rest.
Proof.
  unfold focus_attempt. intros Hrun.
  apply catch_Ok in Hrun as [Hrun|[Hno _]]; [|discriminate].
  rewrite bind_run in Hrun.
  destruct (call (WaitElement (seconds 2) Presence locator) s)
    as [[[found|e] s1]|] eqn:Hwait; try discriminate.
  rewrite call_run in Hwait. inversion Hwait as [[Hout Hs1]].
  assert (Hin1 : Performed (WaitElement (seconds 2) Presence locator)
                   (Ok found) ∈ st_log s1).
  { rewrite <- Hs1. simpl. rewrite Hout. left. }
  clear Hwait Hout Hs1.
  rewrite bind_run in Hrun.
  destruct (call (ExecuteScript _ found) s1) as [[[x2|e] s2]|] eqn:Hscroll;
    try discriminate.
  assert (Hin2 : Performed (WaitElement (seconds 2) Presence locator)
                   (Ok found) ∈ st_log s2).
  { rewrite call_run in Hscroll. inversion Hscroll; subst. simpl.
    right. exact Hin1. }
  clear Hscroll Hin1.
  rewrite bind_run in Hrun.
  destruct (catch (call (Click found)) _ s2) as [[[x3|e] s3]|] eqn:Hclick;
    try discriminate.
  assert (Hin3 : Performed (WaitElement (seconds 2) Presence locator)
                   (Ok found) ∈ st_log s3).
  { unfold catch in Hclick. rewrite call_run in Hclick.
    destruct (perform (Click found) (st_world s2)) as [[[]|ec] w3];
      simpl in Hclick.
    - inversion Hclick; subst. simpl. right. exact Hin2.
    - unfold on in Hclick. destruct (isinstance ec _); [|discriminate].
      rewrite bind_run, call_run in Hclick. simpl in Hclick.
      destruct (perform (ExecuteScript _ found) w3) as [[x|ej] w4];
        simpl in Hclick; inversion Hclick; subst. simpl.
      right. right. exact Hin2. }
  clear Hclick Hin2.
  rewrite bind_run in Hrun.
  destruct (call (ExecuteScript _ found) s3) as [[[x4|e] s4]|] eqn:Hfocus;
    try discriminate.
  assert (Hin4 : Performed (WaitElement (seconds 2) Presence locator)
                   (Ok found) ∈ st_log s4).
  { rewrite call_run in Hfocus. inversion Hfocus; subst. simpl.
    right. exact Hin3. }
  clear Hfocus Hin3.
  rewrite bind_run, call_run in Hrun.
  destruct (perform (ExecuteScript _ found) (st_world s4)) as [[v|e] w5];
    simpl in Hrun; [|discriminate].
  destruct (truthy v) eqn:Hv; inversion Hrun; subst.
  exists v, (st_log s4). auto.
Qed.

Lemma focus_first_verified locators : ∀ s element s',
  focus_first locators s = Some (Ok (Some element), s') →
  ∃ locator v rest,
    locator ∈ locators
    ∧ st_log s' = Performed (ExecuteScript is_active_script element) (Ok v)
                  :: rest
    ∧ truthy v = true
    ∧ Performed (WaitElement (seconds 2) Presence locator) (Ok element)
      ∈ rest.
Proof.
  induction locators as [|l rest IH]; intros s element s' Hrun;
    cbn [focus_first] in Hrun; [discriminate|].
  rewrite bind_run in Hrun.
  destruct (focus_attempt l s) as [[[[found|]|e] s1]|] eqn:Hattempt;
    try discriminate.
  - inversion Hrun; subst.
    destruct (focus_attempt_verified _ _ _ _ Hattempt) as (v & r & Hv).
    exists l, v, r. split; [left|exact Hv].
  - destruct (IH _ _ _ Hrun) as (l' & v & r & Hin & Hv).
    exists l', v, r. split; [right; exact Hin|exact Hv].
Qed.

(** X6. [focus_text_field] only returns an element that it has checked:
    when it returns [element], the last thing it asked the driver is
    whether [element] is the active element, the answer was truthy, and
    earlier in the run the probe of one of the locators had returned
    [element]. *)
Theorem focus_text_field_on_returns_verified (locators : list locator)
    (fuel : nat) (timeout poll_interval : Z) (s : state world) element s' :
  focus_text_field_on locators fuel timeout poll_interval s
  = Some (Ok element, s') →
  ∃ locator v rest,
    locator ∈ locators
    ∧ st_log s' = Performed (ExecuteScript is_active_script element) (Ok v)
                  :: rest
    ∧ truthy v = true
    ∧ Performed (WaitElement (seconds 2) Presence locator) (Ok element)
      ∈ rest.
Proof.
  unfold focus_text_field_on. rewrite bind_run. simpl.
  generalize (time_time (st_world s) + timeout)%Z as end_time.
  intros end_time. revert s.
  induction fuel as [|fuel IH]; intros s Hrun; cbn [focus_loop] in Hrun;
    [discriminate|].
  rewrite bind_run in Hrun. simpl in Hrun.
  destruct (time_time (st_world s) <? end_time)%Z; [|discriminate].
  rewrite bind_run in Hrun.
  destruct (focus_first locators s) as [[[[found|]|e] s1]|] eqn:Hfirst;
    try discriminate.
  - inversion Hrun; subst. eapply focus_first_verified, Hfirst.
  - rewrite bind_run in Hrun. simpl in Hrun. eapply IH, Hrun.
Qed.

End Verified.

(** The theorem on a page where only the second locator matches. *)
Lemma focus_text_field_on_returns_verified_witness :
  let A := (CSS_SELECTOR, "a") in
  let B := (CSS_SELECTOR, "b") in
  let p := Fixture.showing [B] [] in
  ∃ s' locator v rest,
    @focus_text_field_on _ (Fixture.page_driver p) [A; B] 5 (seconds 10) 500
      (Fixture.start ∅) = Some (Ok 0, s')
    ∧ locator ∈ [A; B]
    ∧ st_log s' = Performed (ExecuteScript is_active_script 0) (Ok v) :: rest
    ∧ truthy v = true
    ∧ Performed (WaitElement (seconds 2) Presence locator) (Ok 0) ∈ rest.
Proof.
  intros A B p.
  destruct (@focus_text_field_on _ (Fixture.page_driver p) [A; B] 5
              (seconds 10) 500 (Fixture.start ∅)) as [[r s']|] eqn:Hrun;
    [|vm_compute in Hrun; discriminate].
  assert (Hr : r = Ok 0) by (vm_compute in Hrun; congruence). subst r.
  destruct (@focus_text_field_on_returns_verified _ (Fixture.page_driver p)
              [A; B] 5 (seconds 10) 500 (Fixture.start ∅) 0 s' Hrun)
    as (locator & v & rest & Hv).
  exists s', locator, v, rest. split; [reflexivity|exact Hv].
Defined.

(* ================================================================== *)
(** ** Releasing the driver *)

Section Release.
Context {world : Type} `{Driver world} `{JsonLib} `{HtmlLib} `{CryptoLib}
  `{UrlLib}.

Lemma create_driver_log s r s1 :
  create_driver s = Some (r, s1) →
  ∃ new, st_log s1 = new ++ st_log s
         ∧ Forall (λ ev, ∀ q, ev ≠ Performed Quit q) new.
Proof.
  unfold create_driver. rewrite bind_run, call_run.
  destruct (perform InstallChromeDriver (st_world s)) as [[exe|e] w1]; simpl.
  - rewrite bind_run, call_run. simpl.
    destruct (perform (StartChrome _ _ _) w1) as [[[]|e] w2]; simpl;
      intros Hrun; inversion Hrun; subst; simpl;
      eexists [_; _]; (split; [reflexivity|]);
      repeat constructor; intros q Hq; inversion Hq.
  - intros Hrun. inversion Hrun; subst. simpl.
    eexists [_]. split; [reflexivity|].
    repeat constructor; intros q Hq; inversion Hq.
Qed.

(** X7. The driver is released on every path: in a run of [main] that
    ends, once [create_driver] has returned, the last thing done is
    [driver.quit()], whether the workflow completed, returned early or
    raised. When [create_driver] raises, and when the cookies cannot be
    loaded, [quit] is not called. *)
Theorem main_quits_started_driver (fuel : nat) (environ : gmap string string)
    (s : state world) r s' :
  main fuel environ s = Some (r, s') →
  match load_cookies (st_files s) environ COOKIES_FILE with
  | Raise _ => s' = s
  | Ok cookies =>
      match create_driver s with
      | Some (Ok _, s1) =>
          ∃ body s2 quit,
            publish fuel cookies s1 = Some (body, s2)
            ∧ st_log s' = Performed Quit quit :: st_log s2
      | Some (Raise _, s1) =>
          s' = s1
          ∧ ∃ new, st_log s' = new ++ st_log s
                   ∧ Forall (λ ev, ∀ q, ev ≠ Performed Quit q) new
      | None => False
      end
  end.
Proof.
  intros Hrun. unfold main in Hrun. rewrite bind_run, attempt_run in Hrun.
  unfold reading at 1 in Hrun.
  destruct (load_cookies (st_files s) environ COOKIES_FILE) as [cookies|e0].
  - rewrite bind_run, attempt_run in Hrun.
    destruct (create_driver s) as [[[[]|e1] s1]|] eqn:Hdriver;
      [| |discriminate].
    + rewrite bind_run, attempt_run in Hrun.
      destruct (publish fuel cookies s1) as [[body s2]|]; [|discriminate].
      rewrite bind_run, attempt_run, call_run in Hrun. simpl in Hrun.
      exists body, s2, (perform Quit (st_world s2)).1.
      split; [reflexivity|].
      destruct (perform Quit (st_world s2)) as [[[]|eq] w3]; simpl in *;
        destruct body as [[]|eb]; inversion Hrun; subst; reflexivity.
    + simpl in Hrun. inversion Hrun; subst. split; [reflexivity|].
      eapply create_driver_log, Hdriver.
  - simpl in Hrun. inversion Hrun; subst. reflexivity.
Qed.

End Release.

(** The theorem on the run in which the profile button is never found:
    the [TimeoutException] leaves the [try] block, and the run still ends
    with [quit]. *)
Lemma main_quits_started_driver_witness :
  ∃ quit rest,
    st_log (Fixture.final Fixture.no_profile_button)
    = Performed Quit quit :: rest.
Proof.
  assert (Hrun : Fixture.run_main Fixture.no_profile_button
                 = Some (Ok 0%Z, Fixture.final Fixture.no_profile_button))
    by (vm_compute; reflexivity).
  apply (@main_quits_started_driver Z
           (Fixture.page_driver Fixture.no_profile_button)
           Fixture.json_lib Fixture.html_lib Fixture.crypto_lib
           Fixture.url_lib 30 Fixture.environ
           (Fixture.start Fixture.cookie_files)) in Hrun.
  vm_compute in Hrun. destruct Hrun as (body & s2 & quit & _ & Hlog).
  exists quit, (st_log s2). vm_compute. exact Hlog.
Defined.

(* ================================================================== *)
(** ** Exceptions that do not get out *)

Section Containment.
Context {world : Type} `{Driver world}.

Lemma raises_only_weaken {A : Type} (P Q : exn → Prop) (m : M world A) :
  (∀ e, P e → Q e) → raises_only P m → raises_only Q m.
Proof. intros HPQ Hm s e s' Hrun. eapply HPQ, Hm, Hrun. Qed.

Lemma raises_only_any {A : Type} (m : M world A) :
  raises_only (λ _, True) m.
Proof. intros s e s' _. exact I. Qed.

Lemma raises_only_ret {A : Type} P (a : A) :
  raises_only P (mret a : M world A).
Proof. intros s e s' Hrun. discriminate. Qed.

Lemma raises_only_raise {A : Type} (P : exn → Prop) e :
  P e → raises_only P (raise e : M world A).
Proof. intros HP s e' s' Hrun. inversion Hrun; subst. exact HP. Qed.

Lemma raises_only_sleep P d : raises_only P (sleep d : M world unit).
Proof. intros s e s' Hrun. discriminate. Qed.

Lemma raises_only_now P : raises_only P (now : M world Z).
Proof. intros s e s' Hrun. discriminate. Qed.

Lemma raises_only_write_text P path text :
  raises_only P
    (writing path (λ fs, Ok (write_text path text fs)) : M world unit).
Proof. intros s e s' Hrun. discriminate. Qed.

Lemma raises_only_bind {A B : Type} P (m : M world A) (k : A → M world B) :
  raises_only P m → (∀ a, raises_only P (k a)) → raises_only P (m ≫= k).
Proof.
  intros Hm Hk s e s' Hrun. rewrite bind_run in Hrun.
  destruct (m s) as [[[a|e0] s1]|] eqn:Hms; [| |discriminate].
  - eapply Hk, Hrun.
  - inversion Hrun; subst. eapply Hm, Hms.
Qed.

(** What a [try] lets out: what its body raises outside the handled
    classes, and what its handler raises. *)
Lemma raises_only_catch {A : Type} (P : exn → Prop) classes
    (m : M world A) (k : exn → M world A) :
  (∀ e, outside classes e → P e) →
  (∀ e, raises_only P (k e)) →
  raises_only P (catch m (on classes k)).
Proof.
  intros Hout Hk s e s' Hrun. unfold catch, on in Hrun.
  destruct (m s) as [[[a|e0] s1]|]; try discriminate.
  destruct (isinstance e0 classes) eqn:Hi.
  - eapply Hk, Hrun.
  - inversion Hrun; subst. apply Hout, Hi.
Qed.

Lemma outside_stays classes e : outside classes e → outside classes e.
Proof. auto. Qed.

(** X8. A timeout inside [dismiss_notification_popup],
    [fetch_primary_feed_text] or [fetch_github_content] does not get out
    as a [TimeoutException], whatever the driver does: the first two
    swallow it, the third turns it into a [RuntimeError]. *)
Theorem timeouts_are_contained `{JsonLib} (timeout : Z) (temp_dir : string) :
  raises_only (outside [TimeoutException]) (dismiss_notification_popup timeout)
  ∧ raises_only (outside [TimeoutException]) (fetch_primary_feed_text timeout)
  ∧ raises_only (outside [TimeoutException]) (fetch_github_content temp_dir).
Proof.
  split; [|split].
  - unfold dismiss_notification_popup. apply raises_only_catch; [auto|].
    intros e. apply raises_only_ret.
  - unfold fetch_primary_feed_text. apply raises_only_catch; [auto|].
    intros e. apply raises_only_ret.
  - unfold fetch_github_content. apply raises_only_bind.
    + apply raises_only_catch; [auto|]. intros e.
      apply raises_only_raise. reflexivity.
    + intros content. apply raises_only_bind.
      * apply raises_only_write_text.
      * intros []. apply raises_only_ret.
Qed.

(** The exception with which [open_profile_menu] gives up. *)
Lemma click_profile_button_contained selectors timeout :
  raises_only
    (outside [TimeoutException; ElementClickInterceptedException])
    (click_profile_button selectors timeout).
Proof.
  induction selectors as [|selector rest IH]; cbn [click_profile_button].
  - apply raises_only_ret.
  - apply raises_only_bind.
    + apply raises_only_catch; [auto|]. intros e. apply raises_only_ret.
    + intros [|]; [apply raises_only_ret|exact IH].
Qed.

Lemma select_first_candidate_contained xpaths timeout :
  raises_only
    (outside [TimeoutException; ElementClickInterceptedException;
              ElementNotInteractableException; NoSuchElementException])
    (select_first_candidate xpaths timeout).
Proof.
  induction xpaths as [|xpath rest IH]; cbn [select_first_candidate].
  - apply raises_only_ret.
  - apply raises_only_bind.
    + apply raises_only_catch; [auto|]. intros e. apply raises_only_ret.
    + intros [|]; [apply raises_only_ret|exact IH].
Qed.

(** X9. The menu steps give up in one way only. Whatever the driver
    does, [open_profile_menu] lets out no
    [ElementClickInterceptedException], and no [TimeoutException] other
    than its own "Failed to locate the top-right profile menu button.";
    [select_page_from_menu] lets out no [ElementClickInterceptedException],
    [ElementNotInteractableException] or [NoSuchElementException], and no
    [TimeoutException] other than its own "Unable to find menu item". *)
Theorem menu_steps_give_up_with_timeout (page_name : string) (timeout : Z) :
  raises_only
    (λ e, isinstance e [TimeoutException; ElementClickInterceptedException]
          = true →
          e = Exn TimeoutException
                (selenium_text
                   "Failed to locate the top-right profile menu button."))
    (open_profile_menu timeout)
  ∧ raises_only
      (λ e, isinstance e [TimeoutException; ElementClickInterceptedException;
                          ElementNotInteractableException;
                          NoSuchElementException] = true →
            e = Exn TimeoutException
                  (selenium_text
                     ("Unable to find menu item with text '" +:+ page_name
                      +:+ "'.")))
      (select_page_from_menu page_name timeout).
Proof.
  split.
  - unfold open_profile_menu. apply raises_only_bind.
    + eapply raises_only_weaken; [|apply click_profile_button_contained].
      unfold outside. intros e He. congruence.
    + intros [|]; [apply raises_only_ret|].
      apply raises_only_raise. reflexivity.
  - unfold select_page_from_menu. apply raises_only_bind.
    + eapply raises_only_weaken; [|apply select_first_candidate_contained].
      unfold outside. intros e He. congruence.
    + intros [|]; [apply raises_only_ret|].
      apply raises_only_raise. reflexivity.
Qed.

Lemma focus_first_contained locators :
  raises_only (outside [TimeoutException; StaleElementReferenceException])
    (focus_first locators).
Proof.
  induction locators as [|l rest IH]; cbn [focus_first].
  - apply raises_only_ret.
  - apply raises_only_bind.
    + unfold focus_attempt. apply raises_only_catch; [auto|].
      intros e. apply raises_only_ret.
    + intros [element|]; [apply raises_only_ret|exact IH].
Qed.

(** X10. Whatever the driver does, [focus_text_field] lets out no
    [StaleElementReferenceException], and no [TimeoutException] other
    than its own "Unable to focus the text field within timeout.": a
    probe that times out or goes stale only sends the loop on. *)
Theorem focus_text_field_gives_up_with_timeout (locators : list locator)
    (fuel : nat) (timeout poll_interval : Z) :
  raises_only
    (λ e, isinstance e [TimeoutException; StaleElementReferenceException]
          = true →
          e = Exn TimeoutException
                (selenium_text
                   "Unable to focus the text field within timeout."))
    (focus_text_field_on locators fuel timeout poll_interval).
Proof.
  unfold focus_text_field_on. apply raises_only_bind;
    [apply raises_only_now|]. intros start.
  generalize (start + timeout)%Z as end_time. intros end_time.
  induction fuel as [|fuel IH]; cbn [focus_loop].
  - intros s e s' Hrun. discriminate.
  - apply raises_only_bind; [apply raises_only_now|]. intros t.
    destruct (t <? end_time)%Z.
    + apply raises_only_bind.
      * eapply raises_only_weaken; [|apply focus_first_contained].
        unfold outside. intros e He. congruence.
      * intros [element|]; [apply raises_only_ret|].
        apply raises_only_bind; [apply raises_only_sleep|].
        intros []. exact IH.
    + apply raises_only_raise. reflexivity.
Qed.

End Containment.

(** The theorems on a page where nothing is found: each step gives up
    with its own exception. *)
Lemma menu_steps_give_up_with_timeout_witness :
  ∃ s',
    @open_profile_menu _ (Fixture.page_driver Fixture.blank) (seconds 10)
      (Fixture.start ∅)
    = Some (Raise (Exn TimeoutException
                     (selenium_text
                        "Failed to locate the top-right profile menu button.")),
            s').
Proof.
  destruct (@open_profile_menu _ (Fixture.page_driver Fixture.blank)
              (seconds 10) (Fixture.start ∅)) as [[[[]|e] s']|] eqn:Hrun;
    try (vm_compute in Hrun; discriminate).
  exists s'. repeat f_equal.
  apply (proj1 (@menu_steps_give_up_with_timeout _
                  (Fixture.page_driver Fixture.blank) "" (seconds 10))
           _ _ _ Hrun).
  vm_compute in Hrun. inversion Hrun. reflexivity.
Defined.

Lemma focus_text_field_gives_up_with_timeout_witness :
  ∃ s',
    @focus_text_field _ (Fixture.page_driver Fixture.blank) 30 (seconds 10)
      500 (Fixture.start ∅)
    = Some (Raise (Exn TimeoutException
                     (selenium_text
                        "Unable to focus the text field within timeout.")),
            s').
Proof.
  destruct (@focus_text_field _ (Fixture.page_driver Fixture.blank) 30
              (seconds 10) 500 (Fixture.start ∅)) as [[[el|e] s']|] eqn:Hrun;
    try (vm_compute in Hrun; discriminate).
  exists s'. repeat f_equal.
  apply (@focus_text_field_gives_up_with_timeout _
           (Fixture.page_driver Fixture.blank) LEXICAL_EDITOR_LOCATORS 30
           (seconds 10) 500 _ _ _ Hrun).
  vm_compute in Hrun. inversion Hrun. reflexivity.
Defined.

(* ================================================================== *)
(** ** The content file and the temporary directory *)

Section TempFiles.
Context {world : Type} `{Driver world} `{JsonLib}.

(** X11. What is fetched is what is loaded. When
    [fetch_github_content] returns, it returns the path of
    [content.json] in the directory it was given, the file holds the text
    of the element last read from the page, every other file is as it
    was, and [load_content_items] on that path returns a list exactly
    when that text is the JSON of this list. *)
Theorem fetched_content_is_loaded (temp_dir : string) (s : state world)
    content_file s1 :
  fetch_github_content temp_dir s = Some (Ok content_file, s1) →
  content_file = path_join temp_dir CONTENT_FILENAME
  ∧ ∃ el text rest,
      st_log s1 = Wrote content_file :: Performed (Text el) (Ok text) :: rest
      ∧ st_files s1 !! content_file = Some (Utf8 text)
      ∧ (∀ other, other ≠ content_file →
           st_files s1 !! other = st_files s !! other)
      ∧ ∀ items, load_content_items (st_files s1) content_file = Ok items
                 ↔ json_loads text = Some (JList items).
Proof.
  unfold fetch_github_content. rewrite bind_run. unfold catch at 1.
  rewrite bind_run, call_run.
  destruct (perform (Get GITHUB_CONTENT_URL) (st_world s)) as [[[]|e1] w1];
    simpl.
  - rewrite bind_run, call_run. simpl.
    destruct (perform (WaitElement _ _ _) w1) as [[el|e2] w2]; simpl.
    + rewrite call_run. simpl.
      destruct (perform (Text el) w2) as [[text|e3] w3]; simpl.
      * rewrite bind_run. simpl. intros Hrun. inversion Hrun; subst.
        split; [reflexivity|]. exists el, text. eexists.
        split; [reflexivity|]. simpl. unfold write_text.
        split; [apply lookup_insert_eq|].
        split; [intros other Hne; now rewrite lookup_insert_ne|].
        intros items. unfold load_content_items.
        rewrite lookup_insert_eq. simpl.
        destruct (json_loads text) as [[| | | | |l|]|]; split; intros Hl;
          inversion Hl; subst; reflexivity.
      * unfold on. destruct (isinstance e3 _); intros Hrun; discriminate.
    + unfold on. destruct (isinstance e2 _); intros Hrun; discriminate.
  - unfold on. destruct (isinstance e1 _); intros Hrun; discriminate.
Qed.

(** X12. When the temporary directory is a regular file,
    [ensure_temp_dir] raises the [FileExistsError] of [mkdir] and changes
    nothing. Otherwise [ensure_temp_dir(clean=True)] returns the
    directory without touching the browser, and its loop over the entries
    of the directory, with [rmtree] for those that are directories and
    [unlink] for the others, removes every file under the directory and
    leaves every other file, the ledger and the cookie file among them,
    as it is; cleaning once more changes nothing more; and with
    [clean=False] nothing changes. *)
Theorem ensure_temp_dir_clears_only_temp (s : state world) :
  (∀ c clean,
     st_files s !! TEMP_DIR = Some c →
     ∃ e, ensure_temp_dir clean s = Some (Raise e, s)
          ∧ exn_cls e = FileExistsError)
  ∧ (st_files s !! TEMP_DIR = None →
     (∃ s',
        ensure_temp_dir true s = Some (Ok TEMP_DIR, s')
        ∧ st_world s' = st_world s
        ∧ (∀ path, st_files s' !! path =
                     if String.prefix (TEMP_DIR +:+ "/") path then None
                     else st_files s !! path)
        ∧ st_files s' !! POSTED_HISTORY_FILE
          = st_files s !! POSTED_HISTORY_FILE
        ∧ st_files s' !! COOKIES_FILE = st_files s !! COOKIES_FILE
        ∧ ∃ s'', ensure_temp_dir true s' = Some (Ok TEMP_DIR, s'')
                 ∧ st_files s'' = st_files s')
     ∧ ensure_temp_dir false s = Some (Ok TEMP_DIR, s)).
Proof.
  unfold ensure_temp_dir, mkdir. split.
  - intros c clean Hfile. rewrite Hfile. eexists. split; reflexivity.
  - intros Hdir. rewrite Hdir. split; [|reflexivity].
    assert (Hlook : ∀ path,
              remove_entries (iterdir TEMP_DIR (st_files s)) (st_files s)
              !! path =
                if String.prefix (TEMP_DIR +:+ "/") path then None
                else st_files s !! path).
    { intros path. apply cleaned_lookup. }
    eexists. split; [reflexivity|]. cbn [st_world st_files].
    split; [reflexivity|]. split; [exact Hlook|].
    split; [apply (Hlook POSTED_HISTORY_FILE)|].
    split; [apply (Hlook COOKIES_FILE)|].
    assert (Hstill : remove_entries (iterdir TEMP_DIR (st_files s))
                       (st_files s) !! TEMP_DIR = None).
    { rewrite Hlook. exact Hdir. }
    rewrite Hstill. eexists. split; [reflexivity|]. cbn [st_files].
    apply map_eq. intros path. rewrite cleaned_lookup, Hlook.
    unfold lies_under.
    destruct (String.prefix (TEMP_DIR +:+ "/") path); reflexivity.
Qed.

End TempFiles.

(** The theorem on a temporary directory that holds a file and a
    directory with a file in it, beside the ledger. *)
Lemma ensure_temp_dir_clears_only_temp_witness :
  let fs : files :=
    <["temp/a.txt" := Utf8 "a"]>
      (<["temp/d/b.txt" := Utf8 "b"]>
         (<[POSTED_HISTORY_FILE := Utf8 "[]"]> ∅)) in
  ∃ s',
    @ensure_temp_dir Z true (Fixture.start fs) = Some (Ok TEMP_DIR, s')
    ∧ st_files s' !! "temp/a.txt" = None
    ∧ st_files s' !! "temp/d/b.txt" = None
    ∧ st_files s' !! POSTED_HISTORY_FILE = Some (Utf8 "[]").
Proof.
  intros fs.
  destruct (ensure_temp_dir_clears_only_temp (Fixture.start fs))
    as [_ Hclean].
  destruct Hclean as [(s' & Hrun & _ & Hlook & _) _]; [reflexivity|].
  exists s'. split; [exact Hrun|]. rewrite !Hlook.
  split; [|split]; vm_compute; reflexivity.
Defined.

(** The theorem on the page that shows the feed. *)
Lemma fetched_content_is_loaded_witness :
  let s := Fixture.start ∅ in
  let run := @fetch_github_content _ (Fixture.page_driver Fixture.complete)
               TEMP_DIR s in
  let s1 := Fixture.after run in
  let content_file := "temp/content.json" in
  content_file = path_join TEMP_DIR CONTENT_FILENAME
  ∧ ∃ el text rest,
      st_log s1 = Wrote content_file :: Performed (Text el) (Ok text) :: rest
      ∧ st_files s1 !! content_file = Some (Utf8 text)
      ∧ (∀ other, other ≠ content_file →
           st_files s1 !! other = st_files s !! other)
      ∧ ∀ items,
          @load_content_items Fixture.json_lib (st_files s1) content_file
          = Ok items
          ↔ Fixture.loads text = Some (JList items).
Proof.
  intros s run s1 content_file.
  apply (@fetched_content_is_loaded _ (Fixture.page_driver Fixture.complete)
           Fixture.json_lib TEMP_DIR s content_file s1).
  vm_compute. reflexivity.
Defined.

(* ================================================================== *)
(** ** Media *)

Section Media.
Context {world : Type} `{Driver world} `{UrlLib}.

Lemma outside_url_errors e :
  outside [URLError] e → outside [URLError; HTTPError] e.
Proof.
  unfold outside, isinstance. destruct e as [cls text]. simpl.
  destruct cls; simpl; congruence.
Qed.

(** X13. [download_image_to_temp] asks nothing of the network and
    changes nothing when the URL is empty, or has no scheme or no host.
    For a URL that has both: a download that fails with a [URLError] (an
    [HTTPError] is one) gives [None] and writes no file, so no such error
    gets out; and when a path is returned, it is in the directory given,
    under the last component of the URL's path or "image.jpg", and the
    file holds the bytes that were downloaded. *)
Theorem download_image_to_temp_cases (url temp_dir : string)
    (s : state world) scheme netloc path :
  urlparse url = Ok (scheme, netloc, path) →
  (url = "" ∨ scheme = "" ∨ netloc = "" →
   download_image_to_temp (JStr url) temp_dir s = Some (Ok None, s))
  ∧ (∀ e s', download_image_to_temp (JStr url) temp_dir s
             = Some (Raise e, s') →
       outside [URLError; HTTPError] e)
  ∧ (∀ e w, perform (UrlOpenRead url) (st_world s) = (Raise e, w) →
       isinstance e [URLError] = true →
       url ≠ "" → scheme ≠ "" → netloc ≠ "" →
       ∃ s', download_image_to_temp (JStr url) temp_dir s
             = Some (Ok None, s')
             ∧ st_files s' = st_files s)
  ∧ (∀ destination s',
       download_image_to_temp (JStr url) temp_dir s
       = Some (Ok (Some destination), s') →
       ∃ data rest,
         destination
         = path_join temp_dir
             (if nonempty (path_name path) then path_name path
              else "image.jpg")
         ∧ st_log s' = Wrote destination
                       :: Performed (UrlOpenRead url) (Ok data) :: rest
         ∧ st_files s' !! destination = Some data).
Proof.
  intros Hparse.
  remember (download_image_to_temp (JStr url) temp_dir s) as run eqn:Hrun.
  unfold download_image_to_temp in Hrun.
  destruct url as [|c url].
  { subst run. split; [reflexivity|].
    split; [intros e s' Hr; discriminate|].
    split; [intros; congruence|]. intros d s' Hr. discriminate. }
  cbn [truthy nonempty negb] in Hrun. rewrite bind_run in Hrun.
  unfold lift in Hrun. rewrite Hparse in Hrun.
  destruct scheme as [|sc scheme].
  { subst run. split; [reflexivity|].
    split; [intros e s' Hr; discriminate|].
    split; [intros; congruence|]. intros d s' Hr. discriminate. }
  destruct netloc as [|nc netloc].
  { subst run. split; [reflexivity|].
    split; [intros e s' Hr; discriminate|].
    split; [intros; congruence|]. intros d s' Hr. discriminate. }
  cbn [nonempty negb orb] in Hrun.
  unfold catch in Hrun. rewrite bind_run, call_run in Hrun.
  split; [intros [?|[?|?]]; discriminate|].
  destruct (perform (UrlOpenRead (String c url)) (st_world s))
    as [[data|e0] w0] eqn:Hopen; simpl in Hrun.
  - subst run.
    split; [intros e s' Hr; discriminate|].
    split; [intros e w He; discriminate|].
    intros d s' Hr. inversion Hr; subst. exists data. eexists.
    split; [reflexivity|]. split; [reflexivity|]. simpl.
    apply lookup_insert_eq.
  - unfold on in Hrun. split; [|split].
    + intros e s' Hr. destruct (isinstance e0 [URLError]) eqn:Hi.
      * subst run. discriminate.
      * subst run. inversion Hr; subst. apply outside_url_errors, Hi.
    + intros e w He Hi _ _ _. inversion He; subst. rewrite Hi.
      eexists. split; reflexivity.
    + intros d s' Hr. subst run.
      destruct (isinstance e0 [URLError]); discriminate.
Qed.

End Media.

(** The theorem on a URL whose download fails with an [HTTPError]. *)
Lemma download_image_to_temp_cases_witness :
  let p := Fixture.Page [] "" JNull [] (Raise (Exn HTTPError "404")) in
  let url := "https://example.org/a/cat.jpg" in
  @urlparse Fixture.url_lib url = Ok ("https", "example.org", "/a/cat.jpg")
  ∧ ∃ s', @download_image_to_temp _ (Fixture.page_driver p) Fixture.url_lib
            (JStr url) TEMP_DIR (Fixture.start ∅) = Some (Ok None, s')
          ∧ st_files s' = ∅.
Proof.
  intros p url. split; [vm_compute; reflexivity|].
  destruct (@download_image_to_temp_cases _ (Fixture.page_driver p)
              Fixture.url_lib url TEMP_DIR (Fixture.start ∅)
              "https" "example.org" "/a/cat.jpg")
    as (_ & _ & Hfail & _); [vm_compute; reflexivity|].
  apply (Hfail (Exn HTTPError "404") 0%Z); try discriminate; reflexivity.
Defined.

(* ================================================================== *)
(** ** What makes the selector raise *)

Lemma get_stripped_raises key v e :
  get_stripped key v = Raise e → exn_cls e = AttributeError.
Proof.
  unfold get_stripped. intros Hg.
  destruct v as [| | | | |l|d]; try (inversion Hg; reflexivity).
  destruct (default (JStr "") (d !! key)); inversion Hg; reflexivity.
Qed.

Lemma map_res_raises {A B : Type} (f : A → res B) (l : list A) e :
  map_res f l = Raise e → ∃ x, x ∈ l ∧ f x = Raise e.
Proof.
  induction l as [|x rest IH]; cbn [map_res]; intros Hm; [discriminate|].
  destruct (f x) as [y|e'] eqn:Hx; simpl in Hm.
  - destruct (map_res f rest) as [ys|e''] eqn:Hrest; simpl in Hm;
      [discriminate|].
    inversion Hm; subst. destruct (IH eq_refl) as (x' & Hin & Hx').
    exists x'. split; [right; exact Hin|exact Hx'].
  - inversion Hm; subst. exists x. split; [left|exact Hx].
Qed.

Lemma map_res_returns {A B : Type} (f : A → res B) (l : list A) :
  (∀ x, x ∈ l → ∃ y, f x = Ok y) → ∃ ys, map_res f l = Ok ys.
Proof.
  induction l as [|x rest IH]; cbn [map_res]; intros Hall; [eauto|].
  destruct (Hall x) as (y & Hy); [left|]. rewrite Hy. simpl.
  destruct IH as (ys & Hys).
  { intros x' Hin. apply Hall. right. exact Hin. }
  rewrite Hys. simpl. eauto.
Qed.

Lemma scan_content_items_raises posted_descriptions items e :
  scan_content_items posted_descriptions items = Raise e →
  ∃ item, item ∈ items ∧ get_stripped "description" item = Raise e.
Proof.
  induction items as [|item rest IH]; cbn [scan_content_items]; intros Hs;
    [discriminate|].
  destruct (get_stripped "description" item) as [d|e'] eqn:Hd; simpl in Hs.
  - destruct (nonempty d && negb (bool_decide (d ∈ posted_descriptions)));
      [discriminate|].
    destruct (IH Hs) as (item' & Hin & Hitem').
    exists item'. split; [right; exact Hin|exact Hitem'].
  - inversion Hs; subst. exists item. split; [left|exact Hd].
Qed.

Lemma scan_content_items_returns posted_descriptions items :
  (∀ item, item ∈ items → ∃ d, described item d) →
  ∃ r, scan_content_items posted_descriptions items = Ok r.
Proof.
  induction items as [|item rest IH]; cbn [scan_content_items]; intros Hall;
    [eauto|].
  destruct (Hall item) as (d & Hd); [left|]. unfold described in Hd.
  rewrite Hd. simpl.
  destruct (nonempty d && negb (bool_decide (d ∈ posted_descriptions)));
    [eauto|].
  apply IH. intros item' Hin. apply Hall. right. exact Hin.
Qed.

(** X14. The only error of [find_next_content_item] is an
    [AttributeError]. One history entry that is no record, or whose
    description is no string, is enough for it, whatever the feed holds,
    the empty feed too: the history is read whole before the feed is
    looked at. When every history entry and every feed item is a record
    with a string (or no) description, the selector returns. *)
Theorem find_next_content_item_errors (content_items posted_history : list json) :
  (∀ e, find_next_content_item content_items posted_history = Raise e →
     exn_cls e = AttributeError)
  ∧ (∀ entry e,
       entry ∈ posted_history →
       get_stripped "description" entry = Raise e →
       ∃ e', find_next_content_item content_items posted_history = Raise e'
             ∧ find_next_content_item [] posted_history = Raise e')
  ∧ ((∀ v, v ∈ posted_history ∨ v ∈ content_items → ∃ d, described v d) →
     ∃ r, find_next_content_item content_items posted_history = Ok r).
Proof.
  unfold find_next_content_item. split; [|split].
  - intros e Hf.
    destruct (map_res (get_stripped "description") posted_history)
      as [ds|e'] eqn:Hm; simpl in Hf.
    + apply scan_content_items_raises in Hf as (item & _ & Hitem).
      eapply get_stripped_raises, Hitem.
    + inversion Hf; subst.
      apply map_res_raises in Hm as (x & _ & Hx).
      eapply get_stripped_raises, Hx.
  - intros entry e Hin He.
    destruct (map_res (get_stripped "description") posted_history)
      as [ds|e'] eqn:Hm; simpl.
    + exfalso. clear content_items.
      revert ds Hm. induction Hin as [entry rest|entry other rest Hin IH];
        intros ds Hm; cbn [map_res] in Hm.
      * rewrite He in Hm. discriminate.
      * destruct (get_stripped "description" other); simpl in Hm;
          [|discriminate].
        destruct (map_res (get_stripped "description") rest) as [ys|];
          [|discriminate].
        eapply IH; [exact He|reflexivity].
    + exists e'. split; reflexivity.
  - intros Hall.
    destruct (map_res_returns (get_stripped "description") posted_history)
      as (ds & Hds).
    { intros x Hin. apply Hall. left. exact Hin. }
    rewrite Hds. simpl. apply scan_content_items_returns.
    intros item Hin. apply Hall. right. exact Hin.
Qed.

(** The theorem on a history whose second entry has the description
    [null]. *)
Lemma find_next_content_item_errors_witness :
  let bad := JDict {[ "description" := JNull ]} in
  let history := [history_entry "t" "old" ""; bad] in
  bad ∈ history
  ∧ ∃ e', find_next_content_item [history_entry "t" "new" ""] history
          = Raise e'
          ∧ find_next_content_item [] history = Raise e'.
Proof.
  intros bad history. split; [right; left|].
  destruct (find_next_content_item_errors [history_entry "t" "new" ""] history)
    as (_ & Hraise & _).
  apply (Hraise bad (attribute_error "object has no attribute 'strip'")).
  - right. left.
  - vm_compute. reflexivity.
Defined.

(* ================================================================== *)
(** ** What [upload_media] reports *)

Section UploadReport.
Context {world : Type} `{Driver world}.

Lemma send_to_file_inputs_sent input_elements file_path :
  ∀ s s',
    send_to_file_inputs input_elements file_path s = Some (Ok true, s') →
    sent_last file_path s'.
Proof.
  induction input_elements as [|input rest IH]; intros s s' Hrun;
    cbn [send_to_file_inputs] in Hrun; [discriminate|].
  rewrite bind_run in Hrun. unfold catch in Hrun.
  rewrite bind_run, call_run in Hrun.
  destruct (perform (IsDisplayed input) (st_world s)) as [[displayed|e] w]
    eqn:Hdisplayed; simpl in Hrun.
  - destruct displayed.
    + rewrite bind_run, call_run in Hrun.
      match type of Hrun with
      | context [perform (IsEnabled input) ?w0] =>
          destruct (perform (IsEnabled input) w0) as [[enabled|e] w1]
            eqn:Henabled
      end; simpl in Hrun.
      * destruct enabled; simpl in Hrun.
        -- rewrite bind_run, call_run in Hrun.
           match type of Hrun with
           | context [perform (SendKeys input ?v) ?w0] =>
               destruct (perform (SendKeys input v) w0) as [[[]|e] w2]
                 eqn:Hsend
           end; simpl in Hrun.
           ++ inversion Hrun; subst. eexists _, _. reflexivity.
           ++ unfold on in Hrun. destruct (isinstance e _); simpl in Hrun.
              ** eapply IH, Hrun.
              ** discriminate.
        -- eapply IH, Hrun.
      * unfold on in Hrun. destruct (isinstance e _); simpl in Hrun.
        -- eapply IH, Hrun.
        -- discriminate.
    + rewrite bind_run in Hrun. simpl in Hrun. eapply IH, Hrun.
  - unfold on in Hrun. destruct (isinstance e _); simpl in Hrun.
    + eapply IH, Hrun.
    + discriminate.
Qed.

Lemma scan_file_inputs_sent file_path s s' :
  scan_file_inputs file_path s = Some (Ok true, s') → sent_last file_path s'.
Proof.
  unfold scan_file_inputs. intros Hrun.
  rewrite bind_run in Hrun. simpl in Hrun.
  rewrite bind_run, call_run in Hrun. simpl in Hrun.
  match type of Hrun with
  | context [perform (FindElements ?l) ?w0] =>
      destruct (perform (FindElements l) w0) as [[inputs|e] w] eqn:Hfind
  end; simpl in Hrun; [|discriminate].
  eapply send_to_file_inputs_sent, Hrun.
Qed.

End UploadReport.


Section UploadMedia.
Context {world : Type} `{Driver world}.

Global Instance same_files_preorder : PreOrder (@same_files world).
Proof.
  split.
  - intros s. reflexivity.
  - intros s1 s2 s3 H12 H23. unfold same_files in *. congruence.
Qed.

Lemma call_same_files (A : Type) (r : request A) :
  preserves same_files (call r).
Proof.
  intros s x s' Hrun. rewrite call_run in Hrun. inversion Hrun; subst.
  reflexivity.
Qed.

Lemma sleep_same_files d : preserves (@same_files world) (sleep d).
Proof. intros s x s' Hrun. inversion Hrun; subst. reflexivity. Qed.

Lemma catch_true (m : M world bool) handler s s' :
  catch m handler s = Some (Ok true, s') →
  m s = Some (Ok true, s')
  ∨ ∃ e s1 k, m s = Some (Raise e, s1) ∧ handler e = Some k
              ∧ k s1 = Some (Ok true, s').
Proof.
  unfold catch. intros Hrun.
  destruct (m s) as [[[b|e] s1]|]; [left; exact Hrun| |discriminate].
  destruct (handler e) as [k|] eqn:Hk; [|discriminate].
  right. exists e, s1, k. auto.
Qed.

Lemma false_handlers_never_true classes1 classes2 e (k : M world bool) s s' :
  orelse (on classes1 (λ _, mret false)) (on classes2 (λ _, mret false)) e
    = Some k →
  k s ≠ Some (Ok true, s').
Proof.
  unfold orelse, on. intros Hk.
  destruct (isinstance e classes1).
  - inversion Hk; subst. discriminate.
  - destruct (isinstance e classes2); [|discriminate].
    inversion Hk; subst. discriminate.
Qed.

Lemma bind_Ok_inv {A B : Type} (m : M world A) (k : A → M world B) s b s' :
  (m ≫= k) s = Some (Ok b, s') →
  ∃ a s1, m s = Some (Ok a, s1) ∧ k a s1 = Some (Ok b, s').
Proof.
  rewrite bind_run. intros Hrun.
  destruct (m s) as [[[a|e] s1]|]; [eauto|discriminate|discriminate].
Qed.

Lemma call_Ok_log {A : Type} (r : request A) s a s' :
  call r s = Some (Ok a, s') → st_log s' = Performed r (Ok a) :: st_log s.
Proof. rewrite call_run. intros Hrun. inversion Hrun. reflexivity. Qed.

Lemma send_then_true_sent input file_path s s' :
  (call (SendKeys input [Chars file_path]);; mret true) s
    = Some (Ok true, s') →
  sent_last file_path s'.
Proof.
  intros Hrun. apply bind_Ok_inv in Hrun as ([] & s1 & Hsend & Hret).
  inversion Hret; subst s1. apply call_Ok_log in Hsend.
  eexists _, _. exact Hsend.
Qed.

Lemma click_then_scan_sent {A : Type} (click : M world A) file_path s s' :
  (click;; scan_file_inputs file_path) s = Some (Ok true, s') →
  sent_last file_path s'.
Proof.
  intros Hrun. apply bind_Ok_inv in Hrun as (a & s1 & _ & Hscan).
  eapply scan_file_inputs_sent, Hscan.
Qed.

(** X15. [upload_media] asks nothing of the browser and answers [False]
    when it is given no path, or the path of a file that does not exist.
    When it answers [True], the file exists and the last thing that
    happened is a [send_keys] of its path to an input that returned
    without an error; no file is changed on the way. *)
Theorem upload_media_reports (container_xpath : string)
    (file_path : option string) (s : state world) :
  ((∀ path, file_path = Some path → st_files s !! path = None) →
   upload_media container_xpath file_path s = Some (Ok false, s))
  ∧ (∀ s', upload_media container_xpath file_path s = Some (Ok true, s') →
       ∃ path, file_path = Some path
               ∧ is_Some (st_files s !! path)
               ∧ sent_last path s'
               ∧ st_files s' = st_files s).
Proof.
  split.
  - intros Hmissing. destruct file_path as [path|]; [|reflexivity].
    unfold upload_media. rewrite bind_run. unfold reading.
    rewrite (Hmissing path eq_refl). reflexivity.
  - intros s' Hrun. destruct file_path as [path|]; [|discriminate].
    exists path. split; [reflexivity|].
    assert (Hfiles : st_files s' = st_files s).
    { eapply (upload_media_keeps same_files call_same_files
                sleep_same_files), Hrun. }
    split; [|split; [|exact Hfiles]].
    all: unfold upload_media in Hrun; rewrite bind_run in Hrun;
      unfold reading in Hrun.
    all: destruct (st_files s !! path) as [c|] eqn:Hfile; [|discriminate].
    + eauto.
    + rewrite bool_decide_eq_true_2 in Hrun by eauto.
      cbv beta iota in Hrun. cbn [negb] in Hrun.
      rewrite bind_run in Hrun.
      match type of Hrun with
      | match ?d s with _ => _ end = _ =>
          destruct (d s) as [[[direct|e] s1]|] eqn:Hdirect
      end; [| discriminate | discriminate].
      destruct direct.
      * inversion Hrun; subst s1. clear Hrun.
        apply catch_true in Hdirect as [Hdirect|(e & s1 & k & _ & Hk & Hrun)].
        -- apply bind_Ok_inv in Hdirect as (file_input & s1 & _ & Hsend).
           eapply send_then_true_sent, Hsend.
        -- exfalso. eapply false_handlers_never_true; [exact Hk|exact Hrun].
      * clear Hdirect.
        apply bind_Ok_inv in Hrun as (located & s2 & _ & Hrun).
        destruct located as [container_element|]; [|discriminate].
        apply catch_true in Hrun as [Hrun|(e & s3 & k & _ & Hk & Hrun)].
        -- eapply click_then_scan_sent, Hrun.
        -- unfold orelse, on in Hk.
           destruct (isinstance e [TimeoutException]).
           ++ inversion Hk; subst. discriminate.
           ++ destruct (isinstance e [ElementClickInterceptedException]);
                [|discriminate].
              inversion Hk; subst. eapply click_then_scan_sent, Hrun.
Qed.

End UploadMedia.

(** The theorem on a page that has the file input of the container
    [//div], with the file to upload in place. *)
Lemma upload_media_reports_witness :
  let p := Fixture.Page [(XPATH, "//div/ancestor::form//input[@type='file']")]
             "" JNull [] (Raise (Exn URLError "")) in
  let fs : files := {[ "temp/cat.jpg" := Utf8 "x" ]} in
  let run := @upload_media Z (Fixture.page_driver p) "//div"
               (Some "temp/cat.jpg") (Fixture.start fs) in
  run = Some (Ok true, Fixture.after run)
  ∧ sent_last "temp/cat.jpg" (Fixture.after run)
  ∧ st_files (Fixture.after run) = fs.
Proof.
  intros p fs run.
  assert (Hrun : run = Some (Ok true, Fixture.after run))
    by (vm_compute; reflexivity).
  split; [exact Hrun|].
  destruct (@upload_media_reports Z (Fixture.page_driver p) "//div"
              (Some "temp/cat.jpg") (Fixture.start fs)) as [_ Htrue].
  destruct (Htrue _ Hrun) as (path & Hpath & _ & Hsent & Hfiles).
  inversion Hpath; subst path. split; [exact Hsent|exact Hfiles].
Defined.

(* ================================================================== *)
(** ** The files that a run leaves alone *)

Section Footprint.
Context {world : Type} `{Driver world} `{JsonLib} `{HtmlLib} `{CryptoLib}
  `{UrlLib}.
Context (path : string).
Hypothesis not_ledger : path ≠ POSTED_HISTORY_FILE.
Hypothesis not_in_temp : String.prefix (TEMP_DIR +:+ "/") path = false.

Local Instance untouched_at_preorder : PreOrder (@untouched_at world path).
Proof.
  split.
  - intros s. reflexivity.
  - intros s1 s2 s3 H12 H23. unfold untouched_at in *. congruence.
Qed.

Lemma call_untouched_at (A : Type) (r : request A) :
  preserves (untouched_at path) (call r).
Proof.
  intros s x s' Hrun. rewrite call_run in Hrun. inversion Hrun; subst.
  reflexivity.
Qed.

Lemma sleep_untouched_at d : preserves (@untouched_at world path) (sleep d).
Proof. intros s x s' Hrun. inversion Hrun; subst. reflexivity. Qed.

Lemma clean_untouched_at clean :
  preserves (@untouched_at world path) (ensure_temp_dir clean).
Proof.
  intros s x s' Hrun. unfold ensure_temp_dir, mkdir in Hrun.
  destruct (st_files s !! TEMP_DIR); [|destruct clean];
    inversion Hrun; subst; try reflexivity.
  unfold untouched_at. cbn [st_files]. rewrite cleaned_lookup.
  unfold lies_under. rewrite not_in_temp. reflexivity.
Qed.

Lemma in_temp_apart name : path_join TEMP_DIR name ≠ path.
Proof.
  intros Heq. pose proof (prefix_path_join TEMP_DIR name) as Hp.
  rewrite Heq in Hp. congruence.
Qed.

Lemma write_text_untouched_at destination text :
  destination ≠ path →
  preserves (@untouched_at world path)
    (writing destination (λ fs, Ok (write_text destination text fs))).
Proof.
  intros Hne s x s' Hrun. inversion Hrun; subst.
  unfold untouched_at, write_text. simpl. now rewrite lookup_insert_ne.
Qed.

Lemma write_bytes_untouched_at destination data :
  destination ≠ path →
  preserves (@untouched_at world path)
    (writing destination (λ fs, Ok (<[destination := data]> fs))).
Proof.
  intros Hne s x s' Hrun. inversion Hrun; subst.
  unfold untouched_at. simpl. now rewrite lookup_insert_ne.
Qed.

Lemma append_untouched_at entry :
  preserves (@untouched_at world path)
    (writing POSTED_HISTORY_FILE
       (λ fs, append_post_history fs POSTED_HISTORY_FILE entry)).
Proof.
  intros s x s' Hrun. unfold writing in Hrun.
  destruct (append_post_history (st_files s) POSTED_HISTORY_FILE entry)
    as [fs|e] eqn:Happend; inversion Hrun; subst; [|reflexivity].
  unfold append_post_history in Happend.
  destruct (load_post_history (st_files s) POSTED_HISTORY_FILE) as [history|e];
    simpl in Happend; [|discriminate].
  inversion Happend; subst. unfold untouched_at, write_text. simpl.
  rewrite lookup_insert_ne; [reflexivity|]. congruence.
Qed.

Local Hint Resolve call_untouched_at sleep_untouched_at clean_untouched_at
  write_text_untouched_at write_bytes_untouched_at append_untouched_at
  in_temp_apart untouched_at_preorder : keeps.

Ltac apart := repeat (first [keeps_step | solve [eauto with keeps]]).

Lemma fetch_github_content_untouched_at :
  preserves (untouched_at path) (fetch_github_content TEMP_DIR).
Proof. unfold fetch_github_content. apart. Qed.

Lemma download_page_source_untouched_at name :
  preserves (untouched_at path)
    (download_page_source (path_join TEMP_DIR name)).
Proof. unfold download_page_source. apart. Qed.

Lemma download_image_to_temp_untouched_at url :
  preserves (untouched_at path) (download_image_to_temp url TEMP_DIR).
Proof. unfold download_image_to_temp. apart. Qed.

Local Hint Resolve fetch_github_content_untouched_at
  download_page_source_untouched_at download_image_to_temp_untouched_at
  : keeps.

Lemma compose_and_submit_untouched_at fuel candidate description_html
    description_lines :
  preserves (untouched_at path)
    (compose_and_submit fuel candidate description_html description_lines
       TEMP_DIR).
Proof. unfold compose_and_submit, unless_timeout. apart. Qed.

Local Hint Resolve compose_and_submit_untouched_at : keeps.

Lemma preserves_bind_known {A B : Type} (m : M world A) (k : A → M world B)
    (known : A) :
  (∀ s a s', m s = Some (Ok a, s') → a = known) →
  preserves (untouched_at path) m →
  preserves (untouched_at path) (k known) →
  preserves (untouched_at path) (m ≫= k).
Proof.
  intros Hknown Hm Hk s r s' Hrun. rewrite bind_run in Hrun.
  destruct (m s) as [[[a|e] s1]|] eqn:Hms; [| |discriminate].
  - rewrite (Hknown _ _ _ Hms) in Hrun.
    transitivity s1; [eapply Hm, Hms|eapply Hk, Hrun].
  - inversion Hrun; subst. eapply Hm, Hms.
Qed.

Lemma ensure_temp_dir_returns clean (s : state world) a s' :
  ensure_temp_dir clean s = Some (Ok a, s') → a = TEMP_DIR.
Proof.
  unfold ensure_temp_dir, mkdir.
  destruct (st_files s !! TEMP_DIR); [discriminate|].
  destruct clean; intros Hrun; inversion Hrun; reflexivity.
Qed.

Lemma publish_untouched_at fuel cookies :
  preserves (untouched_at path) (publish fuel cookies).
Proof.
  unfold publish.
  refine (preserves_bind_known _ _ TEMP_DIR (ensure_temp_dir_returns true)
            _ _); [apart|].
  unfold unless_timeout. apart.
Qed.

Lemma main_untouched_at fuel environ :
  preserves (untouched_at path) (main fuel environ).
Proof.
  pose proof publish_untouched_at. unfold main. apart.
Qed.

End Footprint.

Section FootprintTheorem.
Context {world : Type} `{Driver world} `{JsonLib} `{HtmlLib} `{CryptoLib}
  `{UrlLib}.

(** X16. Whatever a run of [main] does and however it ends, the only
    files that it creates, changes or removes are the ledger and the
    files under the temporary directory: every other path, the encrypted
    cookie file for one, holds at the end what it held at the start. *)
Theorem main_leaves_other_files (fuel : nat) (environ : gmap string string)
    (s : state world) r s' (path : string) :
  main fuel environ s = Some (r, s') →
  path ≠ POSTED_HISTORY_FILE →
  String.prefix (TEMP_DIR +:+ "/") path = false →
  st_files s' !! path = st_files s !! path.
Proof.
  intros Hrun Hledger Htemp.
  eapply (main_untouched_at path Hledger Htemp), Hrun.
Qed.

End FootprintTheorem.

(** The theorem on the run that publishes an item, for the cookie
    file. *)
Lemma main_leaves_other_files_witness :
  st_files (Fixture.final Fixture.complete) !! COOKIES_FILE
  = st_files (Fixture.start Fixture.cookie_files) !! COOKIES_FILE.
Proof.
  assert (Hrun : Fixture.run_main Fixture.complete
                 = Some (Ok 0%Z, Fixture.final Fixture.complete))
    by (vm_compute; reflexivity).
  apply (@main_leaves_other_files Z (Fixture.page_driver Fixture.complete)
           Fixture.json_lib Fixture.html_lib Fixture.crypto_lib
           Fixture.url_lib 30 Fixture.environ
           (Fixture.start Fixture.cookie_files) _ _ COOKIES_FILE Hrun).
  - discriminate.
  - reflexivity.
Defined.

(* ================================================================== *)
(** ** Runs that never reach Facebook *)

Section EarlyEnds.
Context {world : Type} `{Driver world} `{JsonLib} `{HtmlLib} `{CryptoLib}
  `{UrlLib}.

(** X17. Without cookies there is no run. When the cookie file is
    missing, when [DECRYPT_KEY] is unset or empty, or when [load_cookies]
    raises for any other reason, [main] ends with status 1 in the state it
    started in: no browser was started, no request made, no file
    touched. *)
Theorem main_stops_without_cookies (fuel : nat)
    (environ : gmap string string) (s : state world) :
  (st_files s !! COOKIES_FILE = None
   ∨ environ !! "DECRYPT_KEY" = None
   ∨ environ !! "DECRYPT_KEY" = Some ""
   ∨ ∃ e, load_cookies (st_files s) environ COOKIES_FILE = Raise e) →
  (∃ e, load_cookies (st_files s) environ COOKIES_FILE = Raise e)
  ∧ main fuel environ s = Some (Ok 1%Z, s).
Proof.
  intros Hcause.
  assert (Hraise : ∃ e, load_cookies (st_files s) environ COOKIES_FILE
                        = Raise e).
  { unfold load_cookies.
    destruct Hcause as [Hfile|[Henv|[Henv|Hraise]]];
      [rewrite Hfile; eauto| | |exact Hraise].
    all: destruct (st_files s !! COOKIES_FILE); [|eauto].
    all: rewrite Henv; eauto. }
  split; [exact Hraise|]. destruct Hraise as (e & Hraise).
  unfold main. rewrite bind_run. unfold attempt, reading.
  rewrite Hraise. reflexivity.
Qed.

Lemma fetch_github_content_run temp_dir (s : state world) el content
    w1 w2 w3 :
  perform (Get GITHUB_CONTENT_URL) (st_world s) = (Ok tt, w1) →
  perform (WaitElement (seconds 10) Presence (XPATH, GITHUB_CONTENT_XPATH)) w1
  = (Ok el, w2) →
  perform (Text el) w2 = (Ok content, w3) →
  fetch_github_content temp_dir s
  = Some (Ok (path_join temp_dir CONTENT_FILENAME),
          State w3
            (write_text (path_join temp_dir CONTENT_FILENAME) content
               (st_files s))
            (Wrote (path_join temp_dir CONTENT_FILENAME)
             :: Performed (Text el) (Ok content)
             :: Performed (WaitElement (seconds 10) Presence
                             (XPATH, GITHUB_CONTENT_XPATH)) (Ok el)
             :: Performed (Get GITHUB_CONTENT_URL) (Ok tt) :: st_log s)).
Proof.
  intros Hget Hwait Htext. unfold fetch_github_content.
  rewrite bind_run. unfold catch. rewrite bind_run, call_run, Hget.
  cbn [fst snd]. rewrite bind_run, call_run. cbn [st_world].
  rewrite Hwait. cbn [fst snd]. rewrite call_run. cbn [st_world].
  rewrite Htext. cbn [fst snd]. rewrite bind_run. reflexivity.
Qed.

Lemma without_directory_written directory name c (fs : files) :
  without_directory directory (<[path_join directory name := c]> fs)
  = without_directory directory fs.
Proof.
  unfold without_directory. apply map_eq. intros q.
  destruct (decide (q = path_join directory name)) as [->|Hne].
  - transitivity (@None bytes); [|symmetry].
    all: apply map_lookup_filter_None; right; intros x _; simpl.
    all: rewrite prefix_path_join; discriminate.
  - destruct (String.prefix (directory +:+ "/") q) eqn:Hq.
    + transitivity (@None bytes); [|symmetry].
      all: apply map_lookup_filter_None; right; intros x _; simpl.
      all: rewrite Hq; discriminate.
    + destruct (fs !! q) as [x|] eqn:Hfs.
      * transitivity (Some x); [|symmetry].
        all: apply map_lookup_filter_Some; split; [|exact Hq].
        -- rewrite lookup_insert_ne by congruence. exact Hfs.
        -- exact Hfs.
      * transitivity (@None bytes); [|symmetry].
        all: apply map_lookup_filter_None; left.
        -- rewrite lookup_insert_ne by congruence. exact Hfs.
        -- exact Hfs.
Qed.

Lemma without_directory_twice directory (fs : files) :
  without_directory directory (without_directory directory fs)
  = without_directory directory fs.
Proof.
  unfold without_directory. apply map_eq. intros q.
  destruct (filter (λ entry : string * bytes,
                      String.prefix (directory +:+ "/") entry.1 = false) fs
            !! q) as [x|] eqn:Hq.
  - apply map_lookup_filter_Some. split; [exact Hq|].
    apply map_lookup_filter_Some in Hq. apply Hq.
  - apply map_lookup_filter_None. left. exact Hq.
Qed.

Lemma load_post_history_same_file (fs1 fs2 : files) history_file :
  fs1 !! history_file = fs2 !! history_file →
  load_post_history fs1 history_file = load_post_history fs2 history_file.
Proof. unfold load_post_history. intros ->. reflexivity. Qed.

(** X18. When the feed that was fetched holds nothing that is not in the
    ledger, [publish] makes the three requests of the fetch and no other:
    it clears the temporary directory once more and returns, without
    opening Facebook and with the ledger as it was. The fetch writes into
    the temporary directory, so this is a run in which that path is not
    a regular file. *)
Theorem publish_nothing_new (fuel : nat) (cookies : list json)
    (s : state world) el content w1 w2 w3 items history :
  st_files s !! TEMP_DIR = None →
  perform (Get GITHUB_CONTENT_URL) (st_world s) = (Ok tt, w1) →
  perform (WaitElement (seconds 10) Presence (XPATH, GITHUB_CONTENT_XPATH)) w1
  = (Ok el, w2) →
  perform (Text el) w2 = (Ok content, w3) →
  json_loads content = Some (JList items) →
  load_post_history (st_files s) POSTED_HISTORY_FILE = Ok history →
  find_next_content_item items history = Ok None →
  ∃ s',
    publish fuel cookies s = Some (Ok tt, s')
    ∧ trace s'
      = trace s
        ++ [ Cleaned TEMP_DIR;
             Performed (Get GITHUB_CONTENT_URL) (Ok tt);
             Performed (WaitElement (seconds 10) Presence
                          (XPATH, GITHUB_CONTENT_XPATH)) (Ok el);
             Performed (Text el) (Ok content);
             Wrote (path_join TEMP_DIR CONTENT_FILENAME);
             Cleaned TEMP_DIR ]
    ∧ st_world s' = w3
    ∧ st_files s' = without_directory TEMP_DIR (st_files s).
Proof.
  intros Hdir Hget Hwait Htext Hjson Hhistory Hnext.
  unfold publish. rewrite bind_run, ensure_temp_dir_run, Hdir.
  cbv beta iota.
  rewrite bind_run.
  rewrite (fetch_github_content_run TEMP_DIR
             (State (st_world s) (without_directory TEMP_DIR (st_files s))
                    (Cleaned TEMP_DIR :: st_log s))
             el content w1 w2 w3 Hget Hwait Htext).
  cbv beta iota. rewrite bind_run. unfold reading at 1. cbn [st_files].
  unfold load_content_items, write_text. rewrite lookup_insert_eq.
  cbn [read_text decode_utf8]. simpl mbind at 1.
  rewrite Hjson. cbv beta iota. rewrite bind_run. unfold reading at 1.
  cbn [st_files].
  rewrite (load_post_history_same_file _ (st_files s)), Hhistory.
  2:{ rewrite lookup_insert_ne by apply path_join_off_ledger.
      apply without_directory_ledger. }
  cbv beta iota. rewrite bind_run. unfold lift at 1. rewrite Hnext.
  cbv beta iota. rewrite bind_run, ensure_temp_dir_run. cbn [st_files].
  assert (Hstill :
            <[path_join TEMP_DIR CONTENT_FILENAME := Utf8 content]>
              (without_directory TEMP_DIR (st_files s)) !! TEMP_DIR = None).
  { rewrite lookup_insert_ne
      by (intros Heq; vm_compute in Heq; discriminate).
    apply map_lookup_filter_None. left. exact Hdir. }
  rewrite Hstill.
  cbv beta iota. eexists. split; [reflexivity|].
  cbn [st_world st_files st_log]. unfold trace. cbn [st_log rev].
  split; [|split; [reflexivity|]].
  - rewrite <- !app_assoc. reflexivity.
  - unfold write_text.
    rewrite without_directory_written. apply without_directory_twice.
Qed.

End EarlyEnds.

(** The second theorem on a feed whose one item is already in the
    ledger. *)
Lemma publish_nothing_new_witness :
  let fs : files :=
    <[POSTED_HISTORY_FILE := Utf8 Fixture.feed_text]> Fixture.cookie_files in
  let run := @publish Z (Fixture.page_driver Fixture.complete)
               Fixture.json_lib Fixture.html_lib Fixture.url_lib 30 []
               (Fixture.start fs) in
  ∃ s', run = Some (Ok tt, s')
        ∧ List.length (trace s') = 6
        ∧ st_files s' = without_directory TEMP_DIR fs.
Proof.
  intros fs run.
  destruct (@publish_nothing_new Z (Fixture.page_driver Fixture.complete)
              Fixture.json_lib Fixture.html_lib Fixture.url_lib 30 []
              (Fixture.start fs)
              0 Fixture.feed_text 0%Z 0%Z 0%Z [Fixture.item_x]
              [Fixture.item_x])
    as (s' & Hrun & Htrace & _ & Hfiles);
    try (vm_compute; reflexivity).
  exists s'. split; [exact Hrun|]. split; [|exact Hfiles].
  rewrite Htrace. reflexivity.
Defined.

(** The first theorem on a run without the variable [DECRYPT_KEY]. *)
Lemma main_stops_without_cookies_witness :
  @main Z (Fixture.page_driver Fixture.complete) Fixture.json_lib
    Fixture.html_lib Fixture.crypto_lib Fixture.url_lib 30 ∅
    (Fixture.start Fixture.cookie_files)
  = Some (Ok 1%Z, Fixture.start Fixture.cookie_files).
Proof.
  apply (@main_stops_without_cookies Z (Fixture.page_driver Fixture.complete)
           Fixture.json_lib Fixture.html_lib Fixture.crypto_lib
           Fixture.url_lib 30 ∅ (Fixture.start Fixture.cookie_files)).
  right. left. reflexivity.
Defined.

(* ================================================================== *)
(** ** What the readers hand on *)

Section Handed.
Context `{HtmlLib} `{JsonLib}.

(** X19. No line that [strip_html_paragraphs] returns has whitespace at
    either end, and when the text has a paragraph block no line is empty:
    the one empty line there can be is that of a text without a block
    that cleans to nothing. *)
Theorem strip_html_paragraphs_lines (html_text line : string) :
  line ∈ strip_html_paragraphs html_text →
  strip line = line
  ∧ (line = "" →
     findall_paragraphs html_text = []
     ∧ strip_html_paragraphs html_text = [""]).
Proof.
  unfold strip_html_paragraphs.
  destruct (findall_paragraphs html_text) as [|p ps].
  - destruct (nonempty html_text); intros Hin.
    + apply list_elem_of_singleton in Hin. subst line.
      split; [apply strip_idempotent|]. intros ->. auto.
    + inversion Hin.
  - intros Hin. apply list_elem_of_filter in Hin as [Hne Hin].
    apply list_elem_of_fmap in Hin as (fragment & -> & _).
    split; [apply strip_idempotent|].
    intros Hempty. rewrite Hempty in Hne. discriminate.
Qed.

(** X20. Every entry that [load_post_history] returns is a record, so
    that [get] is there for the selector; and the entries made of a
    ledger in the legacy shape all have a description that is a stripped
    string, so that a history read from such a ledger never makes
    [find_next_content_item] raise. *)
Theorem load_post_history_records (fs : files) (history_file : string)
    (history : list json) :
  load_post_history fs history_file = Ok history →
  (∀ entry, entry ∈ history → is_dict entry = true)
  ∧ (∀ text data descriptions,
       fs !! history_file = Some (Utf8 text) →
       json_loads text = Some (JDict data) →
       data !! "descriptions" = Some (JList descriptions) →
       (∀ entry, entry ∈ history → ∃ d, described entry d)
       ∧ ∀ content_items,
           (∀ item, item ∈ content_items → ∃ d, described item d) →
           ∃ r, find_next_content_item content_items history = Ok r).
Proof.
  unfold load_post_history. intros Hload.
  assert (Hlegacy : ∀ (descriptions : list json) entry,
            entry ∈ legacy_entry <$> descriptions →
            is_dict entry = true ∧ ∃ d, described entry d).
  { intros descriptions entry Hin.
    apply list_elem_of_fmap in Hin as (item & -> & _).
    split; [reflexivity|]. eexists. apply described_history_entry. }
  split.
  - intros entry Hin.
    destruct (fs !! history_file) as [c|];
      [|inversion Hload; subst; inversion Hin].
    destruct (read_text c) as [text|e]; simpl in Hload; [|discriminate].
    destruct (json_loads text) as [[| | | | |data|data]|];
      try (inversion Hload; subst; inversion Hin; fail).
    + inversion Hload; subst.
      apply list_elem_of_filter in Hin as [Hd _]. exact Hd.
    + destruct (data !! "descriptions") as [[| | | | |descriptions|]|];
        try (inversion Hload; subst; inversion Hin; fail).
      inversion Hload; subst. eapply Hlegacy, Hin.
  - intros text data descriptions Hfile Hjson Hdescriptions.
    rewrite Hfile in Hload. simpl in Hload.
    rewrite Hjson, Hdescriptions in Hload. inversion Hload; subst.
    assert (Hall : ∀ entry, entry ∈ legacy_entry <$> descriptions →
                            ∃ d, described entry d).
    { intros entry Hin. eapply Hlegacy, Hin. }
    split; [exact Hall|]. intros content_items Hitems.
    unfold find_next_content_item.
    destruct (map_res_returns (get_stripped "description")
                (legacy_entry <$> descriptions)) as (ds & Hds).
    { intros entry Hin. apply Hall, Hin. }
    rewrite Hds. simpl. apply scan_content_items_returns, Hitems.
Qed.

End Handed.

(** The first theorem on a text of two paragraphs. *)
Lemma strip_html_paragraphs_lines_witness :
  strip "Hello" = "Hello"
  ∧ ("Hello" = "" →
     findall_paragraphs "<p> Hello </p><p>there</p>" = []
     ∧ @strip_html_paragraphs Fixture.html_lib "<p> Hello </p><p>there</p>"
       = [""]).
Proof.
  apply (@strip_html_paragraphs_lines Fixture.html_lib
           "<p> Hello </p><p>there</p>" "Hello").
  vm_compute. left.
Defined.

(** The second theorem on the legacy ledger of two descriptions. *)
Lemma load_post_history_records_witness :
  let fs := Fixture.legacy_ledger ["a"; "b"] in
  let history := [history_entry "" "a" ""; history_entry "" "b" ""] in
  (∀ entry, entry ∈ history → is_dict entry = true)
  ∧ ∃ r, find_next_content_item [Fixture.item_x] history = Ok r.
Proof.
  intros fs history.
  destruct (@load_post_history_records Fixture.json_lib fs POSTED_HISTORY_FILE
              history) as [Hrecords Hlegacy]; [vm_compute; reflexivity|].
  split; [exact Hrecords|].
  destruct (Hlegacy
              (Fixture.dumps
                 (JDict (<["descriptions" := JList (JStr <$> ["a"; "b"])]> ∅)))
              (<["descriptions" := JList (JStr <$> ["a"; "b"])]> ∅)
              [JStr "a"; JStr "b"]) as [_ Hselect];
    try (vm_compute; reflexivity).
  apply Hselect. intros item Hin.
  apply list_elem_of_singleton in Hin. subst item.
  eexists. apply described_history_entry.
Defined.
